(** * Schafkopf (open_spiel/python/games/schafkopf.py): a shallow embedding

    The Python game is embedded function by function.  Integers are [Z]
    (Python's [//] and [%] with a positive divisor are [Z.div] and
    [Z.modulo]), Python floats are the binary64 numbers of [PrimFloat],
    lists are [list] with Python's indexing (negative indices count from the
    end, anything else out of range raises [IndexError]), and a raised
    exception is the [Err] branch of [result].  A method that mutates [self]
    takes the state and returns the new one. *)

From Stdlib Require Import ZArith List Bool Lia Permutation Sorted.
From Stdlib Require String Ascii Decimal DecimalString DecimalPos DecimalZ.
Import String.StringSyntax.
Delimit Scope string_scope with string.
From Stdlib Require Import Floats Uint63.
Import ListNotations.
Open Scope Z_scope.

(** ** Exceptions *)

Inductive PyErr : Type :=
| AssertionError
| IndexError
| ValueError
| ZeroDivisionError
| SystemExit.

Inductive result (A : Type) : Type :=
| Ok (a : A)
| Err (e : PyErr).
Arguments Ok {A} a.
Arguments Err {A} e.

Definition bind {A B} (m : result A) (k : A -> result B) : result B :=
  match m with
  | Ok a => k a
  | Err e => Err e
  end.

Notation "x <- m ;; k" := (bind m (fun x => k))
  (at level 61, m at next level, right associativity).

Definition py_assert (b : bool) : result unit :=
  if b then Ok tt else Err AssertionError.

(** ** Python lists *)

Module PyList.

(** The position a Python index denotes in a list of length [len]. *)
Definition index (len : nat) (i : Z) : option nat :=
  if (0 <=? i) && (i <? Z.of_nat len) then Some (Z.to_nat i)
  else if (- Z.of_nat len <=? i) && (i <? 0) then Some (Z.to_nat (Z.of_nat len + i))
  else None.

Fixpoint set_nth {A} (n : nat) (x : A) (l : list A) : list A :=
  match l, n with
  | [], _ => []
  | _ :: t, O => x :: t
  | h :: t, S n' => h :: set_nth n' x t
  end.

(** [l[i]] *)
Definition getitem {A} (l : list A) (i : Z) : result A :=
  match index (length l) i with
  | Some n => match nth_error l n with Some x => Ok x | None => Err IndexError end
  | None => Err IndexError
  end.

(** [l[i] = x] *)
Definition setitem {A} (l : list A) (i : Z) (x : A) : result (list A) :=
  match index (length l) i with
  | Some n => Ok (set_nth n x l)
  | None => Err IndexError
  end.

(** [enumerate(l)], counting from [i] *)
Fixpoint enumerate_from {A} (i : Z) (l : list A) : list (Z * A) :=
  match l with
  | [] => []
  | x :: t => (i, x) :: enumerate_from (i + 1) t
  end.

Definition enumerate {A} (l : list A) : list (Z * A) := enumerate_from 0 l.

(** [range(n)] *)
Definition range (n : Z) : list Z := map Z.of_nat (seq 0 (Z.to_nat n)).

(** [sum(l)] over integers *)
Definition sum (l : list Z) : Z := fold_left Z.add l 0.

End PyList.

(** ** Python floats *)

Module PyFloat.

(** [float(z)]; exact for every integer of magnitude below 2^53. *)
Definition of_Z (z : Z) : float :=
  if z <? 0 then PrimFloat.opp (PrimFloat.of_uint63 (Uint63.of_Z (- z)))
  else PrimFloat.of_uint63 (Uint63.of_Z z).

(** [sum(l)] over floats: left to right, starting from the integer 0. *)
Definition sum (l : list float) : float := fold_left PrimFloat.add l (of_Z 0).

(** Nearest integer to [num / den], ties to even ([den > 0]). *)
Definition round_half_even (num den : Z) : Z :=
  let q := num / den in
  let r := num mod den in
  if 2 * r <? den then q
  else if den <? 2 * r then q + 1
  else if Z.even q then q else q + 1.

(** The builtin [round(x, ndigits)] on a float, for [ndigits >= 0]: CPython
    converts [x] to the correctly rounded decimal with [ndigits] places
    (ties on the exact binary value go to even) and reads that decimal back
    as the nearest double, which is what the correctly rounded quotient of
    the two integers below is. *)
Definition round (x : float) (ndigits : Z) : float :=
  match Prim2SF x with
  | S754_finite sign m e =>
      let scale := 10 ^ ndigits in
      let num := Z.pos m * scale * 2 ^ Z.max e 0 in
      let den := 2 ^ Z.max (- e) 0 in
      let n := round_half_even num den in
      let y := PrimFloat.div (of_Z n) (of_Z scale) in
      if sign then PrimFloat.opp y else y
  | _ => x
  end.

End PyFloat.

(** ** Enumerations *)

(** Modelled from the spec: [pyspiel.PlayerId], declared by the framework
    and not by the game's module.  The game uses two of its members, the
    distinguished chance actor and the distinguished terminal marker; they
    differ from each other and from every seat.  The values are the
    framework's. *)
Module PlayerId.
Definition CHANCE : Z := -1.
Definition TERMINAL : Z := -4.
End PlayerId.

Inductive CardLocation : Type :=
| Hand0 | Hand1 | Hand2 | Hand3 | Deck | Trick.

(** The integer value of the [IntEnum] member. *)
Definition loc_value (l : CardLocation) : Z :=
  match l with
  | Hand0 => 0 | Hand1 => 1 | Hand2 => 2 | Hand3 => 3 | Deck => 4 | Trick => 5
  end.

(** [CardLocation(v)]: the member with value [v], [ValueError] if none. *)
Definition CardLocation_of (v : Z) : result CardLocation :=
  match v with
  | 0 => Ok Hand0 | 1 => Ok Hand1 | 2 => Ok Hand2
  | 3 => Ok Hand3 | 4 => Ok Deck | 5 => Ok Trick
  | _ => Err ValueError
  end.

Inductive Phase : Type :=
| Deal | Play | GameOver.

(** ** Constants and the card model *)

Definition _NUM_PLAYERS : Z := 3.
Definition _NUM_SUITS : Z := 1.
Definition _NUM_RANKS : Z := 6.
Definition _NUM_CARDS : Z := _NUM_SUITS * _NUM_RANKS.
Definition _NUM_ACTIONS : Z := _NUM_CARDS.

Definition CardSuit (card : Z) : Z := card / _NUM_RANKS.

Definition CardRank (card : Z) : Z := card mod _NUM_RANKS.

(** The dict [RankToValue]; a missing key raises [KeyError], which cannot
    happen for a rank, so the default branch is never taken by [CardValue]. *)
Definition RankToValue (rank : Z) : Z :=
  match rank with
  | 0 => 0 | 1 => 4 | 2 => 10 | 3 => 11 | 4 => 2 | 5 => 3
  | _ => 0
  end.

Definition CardValue (card : Z) : Z := RankToValue (CardRank card).

(** ** SchafkopfTrick *)

Record SchafkopfTrick : Type := mkTrick {
  _cards : list Z;
  _leader : Z;
  _led_suit : option Z
}.

(** [SchafkopfTrick.__init__] *)
Definition SchafkopfTrick_init (leader : Z) : SchafkopfTrick :=
  {| _cards := []; _leader := leader; _led_suit := None |}.

Definition first_card (t : SchafkopfTrick) : result Z :=
  PyList.getitem (_cards t) 0.

Definition cards_played (t : SchafkopfTrick) : Z :=
  Z.of_nat (length (_cards t)).

Definition play_card (t : SchafkopfTrick) (card : Z) : SchafkopfTrick :=
  {| _cards := _cards t ++ [card];
     _leader := _leader t;
     _led_suit := if (length (_cards t) =? 0)%nat
                  then Some (CardSuit card) else _led_suit t |}.

Definition player_at_position (t : SchafkopfTrick) (pos : Z) : Z :=
  (_leader t + pos) mod _NUM_PLAYERS.

Definition points (t : SchafkopfTrick) : Z :=
  PyList.sum (map CardValue (_cards t)).

(** ** SchafkopfState *)

Record SchafkopfState : Type := mkState {
  _phase : Phase;
  _card_locations : list CardLocation;
  _num_cards_played : Z;
  _tricks : list SchafkopfTrick;
  _returns : list float;
  _points : list float;
  _max_points : Z;
  _next_player : Z;
  _game_over : bool
}.

(** Field assignments [self._x = v]. *)
Definition set_phase (s : SchafkopfState) (v : Phase) : SchafkopfState :=
  mkState v (_card_locations s) (_num_cards_played s) (_tricks s) (_returns s)
          (_points s) (_max_points s) (_next_player s) (_game_over s).

Definition set_card_locations (s : SchafkopfState) (v : list CardLocation) : SchafkopfState :=
  mkState (_phase s) v (_num_cards_played s) (_tricks s) (_returns s)
          (_points s) (_max_points s) (_next_player s) (_game_over s).

Definition set_num_cards_played (s : SchafkopfState) (v : Z) : SchafkopfState :=
  mkState (_phase s) (_card_locations s) v (_tricks s) (_returns s)
          (_points s) (_max_points s) (_next_player s) (_game_over s).

Definition set_tricks (s : SchafkopfState) (v : list SchafkopfTrick) : SchafkopfState :=
  mkState (_phase s) (_card_locations s) (_num_cards_played s) v (_returns s)
          (_points s) (_max_points s) (_next_player s) (_game_over s).

Definition set_returns (s : SchafkopfState) (v : list float) : SchafkopfState :=
  mkState (_phase s) (_card_locations s) (_num_cards_played s) (_tricks s) v
          (_points s) (_max_points s) (_next_player s) (_game_over s).

Definition set_points (s : SchafkopfState) (v : list float) : SchafkopfState :=
  mkState (_phase s) (_card_locations s) (_num_cards_played s) (_tricks s) (_returns s)
          v (_max_points s) (_next_player s) (_game_over s).

Definition set_next_player (s : SchafkopfState) (v : Z) : SchafkopfState :=
  mkState (_phase s) (_card_locations s) (_num_cards_played s) (_tricks s) (_returns s)
          (_points s) (_max_points s) v (_game_over s).

Definition set_game_over (s : SchafkopfState) (v : bool) : SchafkopfState :=
  mkState (_phase s) (_card_locations s) (_num_cards_played s) (_tricks s) (_returns s)
          (_points s) (_max_points s) (_next_player s) v.

(** [SchafkopfState.__init__]: every field is a constant; [_max_points] is
    accumulated by the loop over [range(_NUM_CARDS)]. *)
Definition SchafkopfState_init : SchafkopfState :=
  {| _phase := Deal;
     _card_locations := repeat Deck (Z.to_nat _NUM_CARDS);
     _num_cards_played := 0;
     _tricks := [];
     _returns := repeat (PyFloat.of_Z 0) (Z.to_nat _NUM_PLAYERS);
     _points := repeat (PyFloat.of_Z 0) (Z.to_nat _NUM_PLAYERS);
     _max_points :=
       fold_left (fun acc c => acc + CardValue c) (PyList.range _NUM_CARDS) 0;
     _next_player := PlayerId.CHANCE;
     _game_over := false |}.

Definition phase_eqb (a b : Phase) : bool :=
  match a, b with
  | Deal, Deal | Play, Play | GameOver, GameOver => true
  | _, _ => false
  end.

Definition current_player (s : SchafkopfState) : Z :=
  if _game_over s then PlayerId.TERMINAL
  else if phase_eqb (_phase s) Deal then PlayerId.CHANCE
  else _next_player s.

Definition next_player (s : SchafkopfState) : Z :=
  (current_player s + 1) mod _NUM_PLAYERS.

(** [[c for c, loc in enumerate(locs) if loc == v]]: an [IntEnum] member
    equals an integer when its value does. *)
Definition cards_at (v : Z) (locs : list CardLocation) : list Z :=
  map fst (filter (fun cl => loc_value (snd cl) =? v) (PyList.enumerate locs)).

Definition player_cards (s : SchafkopfState) (player : Z) : list Z :=
  cards_at player (_card_locations s).

Definition _legal_deal_actions (s : SchafkopfState) : list Z :=
  cards_at (loc_value Deck) (_card_locations s).

(** [self._tricks[-1]] *)
Definition last_trick (s : SchafkopfState) : result SchafkopfTrick :=
  PyList.getitem (_tricks s) (-1).

Definition option_Z_eqb (a : Z) (b : option Z) : bool :=
  match b with
  | Some b' => a =? b'
  | None => false
  end.

Definition _legal_actions (s : SchafkopfState) (player : Z) : result (list Z) :=
  if phase_eqb (_phase s) Deal then Ok (_legal_deal_actions s)
  else
    _ <- py_assert (0 <=? player) ;;
    let pcards := player_cards s player in
    if _num_cards_played s =? 0 then Ok pcards
    else if _num_cards_played s mod _NUM_PLAYERS =? 0 then Ok pcards
    else
      t <- last_trick s ;;
      let led_suit := _led_suit t in
      let same_suit := filter (fun c => option_Z_eqb (CardSuit c) led_suit) pcards in
      Ok (if (0 <? length same_suit)%nat then same_suit else pcards).

(** The loop body of [winner]: the running pair (winner, winner_card). *)
Definition winner_step (t : SchafkopfTrick) (acc : Z * Z) (ic : Z * Z) : Z * Z :=
  let '(w, winner_card) := acc in
  let '(i, c) := ic in
  if CardSuit c =? CardSuit winner_card then
    if CardRank c >? CardRank winner_card then (player_at_position t i, c)
    else acc
  else acc.

Definition winner (t : SchafkopfTrick) : result Z :=
  _ <- py_assert (Z.of_nat (length (_cards t)) =? _NUM_PLAYERS) ;;
  winner_card <- PyList.getitem (_cards t) 0 ;;
  Ok (fst (fold_left (winner_step t) (PyList.enumerate (_cards t))
                     (player_at_position t 0, winner_card))).

(** Modelled from the spec: [pyspiel.State.is_chance_node], a method of
    the framework's base class: a state is a chance node when its current
    actor is the chance actor. *)
Definition is_chance_node (s : SchafkopfState) : bool :=
  current_player s =? PlayerId.CHANCE.

Definition chance_outcomes (s : SchafkopfState) : result (list (Z * float)) :=
  _ <- py_assert (is_chance_node s) ;;
  let cards_to_deal := _legal_deal_actions s in
  if (length cards_to_deal =? 0)%nat then Err SystemExit
  else
    let p := PrimFloat.div (PyFloat.of_Z 1)
                           (PyFloat.of_Z (Z.of_nat (length cards_to_deal))) in
    Ok (map (fun c => (c, p)) cards_to_deal).

(** [_apply_deal_action]; the [print] of the receiving player is output
    only and is left out. *)
Definition _apply_deal_action (s : SchafkopfState) (card : Z) : result SchafkopfState :=
  let cards_left := _legal_deal_actions s in
  receiving_player <- CardLocation_of (Z.of_nat (length cards_left) mod _NUM_PLAYERS) ;;
  locs <- PyList.setitem (_card_locations s) card receiving_player ;;
  let s1 := set_card_locations s locs in
  if (length cards_left =? 1)%nat
  then Ok (set_next_player (set_phase s1 Play) 0)
  else Ok s1.

(** [self._tricks[-1].play_card(card)] *)
Definition play_in_last_trick (s : SchafkopfState) (card : Z) : result SchafkopfState :=
  t <- last_trick s ;;
  tricks <- PyList.setitem (_tricks s) (-1) (play_card t card) ;;
  Ok (set_tricks s tricks).

(** [self._card_locations[card] = CardLocation.Trick] followed by
    [self._num_cards_played += 1]. *)
Definition move_to_trick (s : SchafkopfState) (card : Z) : result SchafkopfState :=
  locs <- PyList.setitem (_card_locations s) card Trick ;;
  let s1 := set_card_locations s locs in
  Ok (set_num_cards_played s1 (_num_cards_played s1 + 1)).

(** [x / y] of a float by an integer. *)
Definition float_div_int (x : float) (y : Z) : result float :=
  if y =? 0 then Err ZeroDivisionError
  else Ok (PrimFloat.div x (PyFloat.of_Z y)).

(** One iteration of the loop that fills [_returns]. *)
Definition set_return (s : SchafkopfState) (pi : Z) : result SchafkopfState :=
  pts <- PyList.getitem (_points s) pi ;;
  q <- float_div_int (PrimFloat.sub pts (PyFloat.of_Z (_max_points s / 2)))
                     (_max_points s) ;;
  rets <- PyList.setitem (_returns s) pi (PyFloat.round q 3) ;;
  Ok (set_returns s rets).

Fixpoint for_each {S A} (body : S -> A -> result S) (s : S) (l : list A) : result S :=
  match l with
  | [] => Ok s
  | x :: t => s' <- body s x ;; for_each body s' t
  end.

(** [_apply_action].  When an exception is raised part-way the Python
    object keeps the assignments already made; the embedding returns the
    exception alone. *)
Definition _apply_action (s : SchafkopfState) (card : Z) : result SchafkopfState :=
  if phase_eqb (_phase s) Deal then _apply_deal_action s card
  else if _num_cards_played s mod _NUM_PLAYERS =? 0 then
    let s1 := set_tricks s (_tricks s ++ [SchafkopfTrick_init (current_player s)]) in
    s2 <- play_in_last_trick s1 card ;;
    s3 <- move_to_trick s2 card ;;
    Ok (set_next_player s3 (next_player s3))
  else
    s1 <- play_in_last_trick s card ;;
    s2 <- move_to_trick s1 card ;;
    if _num_cards_played s2 mod _NUM_PLAYERS =? 0 then
      t <- last_trick s2 ;;
      w <- winner t ;;
      old <- PyList.getitem (_points s2) w ;;
      pts <- PyList.setitem (_points s2) w
               (PrimFloat.add old (PyFloat.of_Z (points t))) ;;
      let s3 := set_points s2 pts in
      if _num_cards_played s3 =? _NUM_CARDS then
        for_each set_return (set_game_over s3 true) (PyList.range _NUM_PLAYERS)
      else Ok (set_next_player s3 w)
    else Ok (set_next_player s2 (next_player s2)).

Definition is_terminal (s : SchafkopfState) : bool := _game_over s.

Definition returns (s : SchafkopfState) : list float := _returns s.

(** Modelled from the spec: [pyspiel.State.legal_actions], a method of
    the framework's base class through which the driver asks for the legal
    actions of the current actor: none once the game is over, otherwise the
    game's [_legal_actions] for the current player (at a chance node these
    are the cards of [chance_outcomes]). *)
Definition legal_actions (s : SchafkopfState) : result (list Z) :=
  if is_terminal s then Ok [] else _legal_actions s (current_player s).

(** One move of a driver that respects the legal actions: an action that
    is not legal is refused with [ValueError], a legal one is applied. *)
Definition apply_legal_action (s : SchafkopfState) (a : Z) : result SchafkopfState :=
  acts <- legal_actions s ;;
  if existsb (Z.eqb a) acts then _apply_action s a else Err ValueError.

Definition play_from (s : SchafkopfState) (acts : list Z) : result SchafkopfState :=
  for_each apply_legal_action s acts.

(** ** SchafkopfObserver *)

(** A named view [tensor[start:stop].reshape(shape)] of the flat tensor: the
    view shares the tensor's storage, so it is kept as the slice bounds. *)
Record View : Type := mkView {
  view_start : Z;
  view_stop : Z;
  view_shape : list Z
}.

Record SchafkopfObserver : Type := mkObserver {
  tensor : list float;
  dict : list (String.string * View)
}.

(** The truth value of the [params] argument: [None] and the empty dict are
    false, a dict with an entry is true. *)
Definition truthy {V : Type} (params : option (list (String.string * V))) : bool :=
  match params with
  | Some (_ :: _) => true
  | _ => false
  end.

(** [d[name] = v] on a dict kept in insertion order. *)
Fixpoint dict_set {V : Type} (d : list (String.string * V)) (name : String.string) (v : V)
  : list (String.string * V) :=
  match d with
  | [] => [(name, v)]
  | (k, x) :: t => if String.eqb k name then (k, v) :: t else (k, x) :: dict_set t name v
  end.

Definition observer_pieces : list (String.string * Z * list Z) :=
  let pieces := [("player"%string, _NUM_PLAYERS, [_NUM_PLAYERS])] in
  let pieces := pieces ++ [("private_cards"%string, _NUM_PLAYERS * _NUM_CARDS,
                            [_NUM_PLAYERS; _NUM_CARDS])] in
  let pieces := pieces ++ [("solo_player"%string, _NUM_PLAYERS, [_NUM_PLAYERS])] in
  let cards_per_trick := _NUM_CARDS * _NUM_PLAYERS in
  let pieces := pieces ++ [("cur_trick_leader"%string, _NUM_PLAYERS, [_NUM_PLAYERS])] in
  let pieces := pieces ++ [("cur_trick"%string, cards_per_trick,
                            [_NUM_PLAYERS; _NUM_CARDS])] in
  let pieces := pieces ++ [("prev_trick_leader"%string, _NUM_PLAYERS, [_NUM_PLAYERS])] in
  pieces ++ [("prev_trick"%string, cards_per_trick, [_NUM_PLAYERS; _NUM_CARDS])].

(** [SchafkopfObserver.__init__]; the tensor's [float32] zeros are written
    as floats. *)
Definition SchafkopfObserver_init {T V : Type} (iig_obs_type : T)
    (params : option (list (String.string * V))) : result SchafkopfObserver :=
  if truthy params then Err ValueError
  else
    let pieces := observer_pieces in
    let total_size := PyList.sum (map (fun p => snd (fst p)) pieces) in
    let tensor := repeat (PyFloat.of_Z 0) (Z.to_nat total_size) in
    let '(dict, _) :=
      fold_left (fun (acc : list (String.string * View) * Z) p =>
                   let '(d, index) := acc in
                   let '(name, size, shape) := p in
                   (dict_set d name (mkView index (index + size) shape), index + size))
                pieces ([], 0) in
    Ok (mkObserver tensor dict).

(** ** Runs of the game *)

(** One transition of the driver: a legal action applied to a state. *)
Inductive step (s : SchafkopfState) (a : Z) (s' : SchafkopfState) : Prop :=
| step_intro (acts : list Z)
    (Hlegal : legal_actions s = Ok acts)
    (Hin : In a acts)
    (Happly : _apply_action s a = Ok s').

(** The states a game can be in. *)
Inductive reachable : SchafkopfState -> Prop :=
| reachable_init : reachable SchafkopfState_init
| reachable_step s a s' : reachable s -> step s a s' -> reachable s'.

(** The states visited by a sequence of actions from [s], in the embedding
    above: the states after the actions that returned, and the exception
    that stopped the sequence, if one did. *)
Fixpoint replay (s : SchafkopfState) (acts : list Z)
  : list SchafkopfState * option PyErr :=
  match acts with
  | [] => ([], None)
  | a :: rest =>
      match _apply_action s a with
      | Ok s' => let '(tr, e) := replay s' rest in (s' :: tr, e)
      | Err e => ([], Some e)
      end
  end.

(** ** Notions used in the proofs *)

Definition cards_at_from (j v : Z) (locs : list CardLocation) : list Z :=
  map fst (filter (fun cl => loc_value (snd cl) =? v) (PyList.enumerate_from j locs)).

(** The state after the card at index [n] went to location [L]. *)
Definition relocate (s : SchafkopfState) (n : nat) (L : CardLocation) : SchafkopfState :=
  set_card_locations s (PyList.set_nth n L (_card_locations s)).

(** The return [_apply_action] stores for a player with [p] points. *)
Definition expected_return (max_points : Z) (p : float) : float :=
  PyFloat.round
    (PrimFloat.div (PrimFloat.sub p (PyFloat.of_Z (max_points / 2)))
                   (PyFloat.of_Z max_points)) 3.

(** A trick every player has played into. *)
Definition closed (t : SchafkopfTrick) : Prop := length (_cards t) = 3%nat.

(** A trick that holds a card: its leader is a seat and its led suit is the
    suit of its first card. *)
Definition trick_wf (t : SchafkopfTrick) : Prop :=
  0 <= _leader t < 3 /\
  exists c rest, _cards t = c :: rest /\ _led_suit t = Some (CardSuit c).

(** All the cards played so far, in play order. *)
Definition played (ts : list SchafkopfTrick) : list Z := concat (map _cards ts).

(** [[0.0] * _NUM_PLAYERS] *)
Definition zeros : list float := repeat (PyFloat.of_Z 0) 3.

(** How many of the deals made while more than [k] cards were left went to
    player [p]. *)
Definition dealt_to (k : nat) (p : Z) : nat :=
  length (filter (fun j => j mod _NUM_PLAYERS =? p) (map Z.of_nat (seq (S k) (6 - k)))).

(** The open trick, if any: one or two cards, and the player to move sits
    at its next position. *)
Definition open_ok (s : SchafkopfState) (op : list SchafkopfTrick) : Prop :=
  match op with
  | [] => True
  | [t] => (1 <= length (_cards t) <= 2)%nat /\
           _next_player s = player_at_position t (Z.of_nat (length (_cards t)))
  | _ => False
  end.

(** While cards are dealt nothing has been played or scored, a card is
    still undealt, and the hand sizes follow from the number of undealt
    cards. *)
Record DealInv (s : SchafkopfState) : Prop := {
  di_played : _num_cards_played s = 0;
  di_tricks : _tricks s = [];
  di_over : _game_over s = false;
  di_trick : cards_at (loc_value Trick) (_card_locations s) = [];
  di_points : _points s = zeros;
  di_returns : _returns s = zeros;
  di_deck : (1 <= length (_legal_deal_actions s) <= 6)%nat;
  di_hands : forall p, 0 <= p < 3 ->
      length (player_cards s p) = dealt_to (length (_legal_deal_actions s)) p
}.

(** During play the deck is empty; the cards at [Trick] are the cards of
    the tricks; the tricks are closed ones followed by at most one open
    trick; the points are integers that add up to the value of the closed
    tricks; the game is over exactly when six cards have been played, and
    only then are the returns filled in. *)
Record PlayInv (s : SchafkopfState) : Prop := {
  pi_deck : _legal_deal_actions s = [];
  pi_trick : Permutation (cards_at (loc_value Trick) (_card_locations s))
                         (played (_tricks s));
  pi_wf : Forall trick_wf (_tricks s);
  pi_shape : exists cl op zp,
      _tricks s = cl ++ op /\ Forall closed cl /\ open_ok s op /\
      _num_cards_played s = 3 * Z.of_nat (length cl) + Z.of_nat (length (played op)) /\
      _points s = map PyFloat.of_Z zp /\ Forall (fun z => 0 <= z) zp /\
      PyList.sum zp = PyList.sum (map CardValue (played cl));
  pi_over : _game_over s = (_num_cards_played s =? _NUM_CARDS);
  pi_next : _game_over s = false -> 0 <= _next_player s < 3;
  pi_returns : _returns s =
               if _game_over s then map (expected_return 30) (_points s) else zeros
}.

(** The invariant of the states of a game. *)
Record Inv (s : SchafkopfState) : Prop := {
  inv_locs : length (_card_locations s) = 6%nat;
  inv_points : length (_points s) = 3%nat;
  inv_returns : length (_returns s) = 3%nat;
  inv_max : _max_points s = 30;
  inv_hand3 : cards_at (loc_value Hand3) (_card_locations s) = [];
  inv_phase : match _phase s with
              | Deal => DealInv s
              | Play => PlayInv s
              | GameOver => False
              end
}.

(** What a play action of the card [n] does to the state [s]. *)
Record play_effect (s : SchafkopfState) (n : nat) (s' : SchafkopfState) : Prop := {
  pe_phase : _phase s' = Play;
  pe_locs : _card_locations s' = PyList.set_nth n Trick (_card_locations s);
  pe_count : _num_cards_played s' = _num_cards_played s + 1;
  pe_played : played (_tricks s') = played (_tricks s) ++ [Z.of_nat n];
  pe_trick : exists ts t' pre,
      _tricks s' = ts ++ [t'] /\ _cards t' = pre ++ [Z.of_nat n] /\
      player_at_position t' (Z.of_nat (length pre)) = _next_player s /\
      if (length pre =? 2)%nat
      then exists w old,
          winner t' = Ok (Z.of_nat w) /\
          nth_error (_points s) w = Some old /\
          _points s' = PyList.set_nth w (PrimFloat.add old (PyFloat.of_Z (points t')))
                                      (_points s) /\
          (_game_over s' = false -> _next_player s' = Z.of_nat w)
      else _points s' = _points s /\
           _next_player s' = (_next_player s + 1) mod _NUM_PLAYERS
}.

(** What a deal action of the card [n] does to the state [s]. *)
Record deal_effect (s : SchafkopfState) (n : nat) (s' : SchafkopfState) : Prop := {
  de_from : nth_error (_card_locations s) n = Some Deck;
  de_locs : exists L,
      CardLocation_of (Z.of_nat (length (_legal_deal_actions s)) mod _NUM_PLAYERS) = Ok L /\
      loc_value L = Z.of_nat (length (_legal_deal_actions s)) mod _NUM_PLAYERS /\
      0 <= loc_value L < 3 /\
      _card_locations s' = PyList.set_nth n L (_card_locations s);
  de_deck : Permutation (_legal_deal_actions s) (Z.of_nat n :: _legal_deal_actions s');
  de_phase : _phase s' = if (length (_legal_deal_actions s) =? 1)%nat then Play else Deal;
  de_next : length (_legal_deal_actions s) = 1%nat -> _next_player s' = 0;
  de_tricks : _tricks s' = _tricks s /\ _num_cards_played s' = _num_cards_played s
}.

(** For points [z0], [z1] and [30 - z0 - z1], the three returns sum to
    within 2^-9 of -1/2, and so to more than 1/4 in magnitude. *)
Definition terminal_sum_check (z0 z1 : Z) : bool :=
  let z2 := 30 - z0 - z1 in
  if z2 <? 0 then true
  else
    let r := PyFloat.sum (map (expected_return 30) (map PyFloat.of_Z [z0; z1; z2])) in
    PrimFloat.leb (PrimFloat.abs (PrimFloat.add r 0.5%float)) 0x1p-9%float &&
    PrimFloat.ltb 0x1p-2%float (PrimFloat.abs r).

(** ** An example game *)

(** The state after a sequence of legal actions from the initial state. *)
Definition state_after (acts : list Z) : SchafkopfState :=
  match play_from SchafkopfState_init acts with
  | Ok s => s
  | Err _ => SchafkopfState_init
  end.

(** Three cards dealt. *)
Definition dealt3 : SchafkopfState := Eval vm_compute in state_after [0; 1; 2].

(** All cards dealt: seat 0 holds 0 and 3, seat 1 holds 2 and 5, seat 2
    holds 1 and 4. *)
Definition dealt6 : SchafkopfState := Eval vm_compute in state_after [0; 1; 2; 3; 4; 5].

(** Seat 0 led the Ass, seat 1 followed with the Zehn. *)
Definition played2 : SchafkopfState := Eval vm_compute in state_after [0; 1; 2; 3; 4; 5; 3; 2].

(** Seat 2 took the first trick with the Unter. *)
Definition played3 : SchafkopfState := Eval vm_compute in state_after [0; 1; 2; 3; 4; 5; 3; 2; 4].

(** Seat 2 led the Koenig, seat 0 followed with the Neun. *)
Definition played5 : SchafkopfState := Eval vm_compute in state_after [0; 1; 2; 3; 4; 5; 3; 2; 4; 1; 0].

(** Seat 1 took the second trick with the Ober: the game is over. *)
Definition played6 : SchafkopfState := Eval vm_compute in state_after [0; 1; 2; 3; 4; 5; 3; 2; 4; 1; 0; 5].

(** The states visited by a full game. *)
Definition full_game_trace : list SchafkopfState := Eval vm_compute in
    fst (replay SchafkopfState_init [0; 1; 2; 3; 4; 5; 3; 2; 4; 1; 0; 5]).

(** A state of a deck of two suits, which [_legal_actions] reads as any
    other: seat 0 has led card 1, of suit 0; seat 1, to move, holds the
    cards 0 and 5 of suit 0 and 6 and 11 of suit 1; seat 2 holds four cards
    of suit 1. *)
Definition two_suits : SchafkopfState :=
  {| _phase := Play;
     _card_locations := [Hand1; Trick; Hand0; Hand0; Hand0; Hand1;
                         Hand1; Hand2; Hand2; Hand2; Hand2; Hand1];
     _num_cards_played := 1;
     _tricks := [play_card (SchafkopfTrick_init 0) 1];
     _returns := repeat (PyFloat.of_Z 0) 3;
     _points := repeat (PyFloat.of_Z 0) 3;
     _max_points := 60;
     _next_player := 1;
     _game_over := false |}.

(** ** Hands, progress and the declared bounds of the game *)

(** Whether seat [p] has already played into the open trick: the seats that
    did are the ones up to [_num_cards_played mod 3] places before the
    player to move. *)
Definition played_in_open (s : SchafkopfState) (p : Z) : bool :=
  let d := (_next_player s - p) mod _NUM_PLAYERS in
  (1 <=? d) && (d <=? _num_cards_played s mod _NUM_PLAYERS).

(** The number of cards seat [p] holds during play: two, less one for every
    closed trick, less one if the seat has played into the open trick. *)
Definition hand_size (s : SchafkopfState) (p : Z) : Z :=
  2 - _num_cards_played s / _NUM_PLAYERS - (if played_in_open s p then 1 else 0).

Definition HandInv (s : SchafkopfState) : Prop :=
  _phase s = Play ->
  forall p, 0 <= p < 3 -> Z.of_nat (length (player_cards s p)) = hand_size s p.

(** The number of actions applied so far: cards dealt plus cards played. *)
Definition actions_applied (s : SchafkopfState) : Z :=
  (_NUM_CARDS - Z.of_nat (length (_legal_deal_actions s))) + _num_cards_played s.

(** The arguments of [pyspiel.GameInfo] in [_GAME_INFO]. *)
Record GameInfo : Type := mkGameInfo {
  num_distinct_actions : Z;
  max_chance_outcomes : Z;
  num_players : Z;
  min_utility : float;
  max_utility : float;
  utility_sum : float;
  max_game_length : Z
}.

Definition _GAME_INFO : GameInfo :=
  {| num_distinct_actions := _NUM_ACTIONS;
     max_chance_outcomes := _NUM_CARDS;
     num_players := _NUM_PLAYERS;
     min_utility := (-1)%float;
     max_utility := 1%float;
     utility_sum := 0%float;
     max_game_length := _NUM_CARDS |}.

(** The cards among [acts] that a deal of [acts], started with [k] cards
    in the deck, sends to the hand [p]. *)
Fixpoint hand_dealt (k : nat) (acts : list Z) (p : Z) : list Z :=
  match acts with
  | [] => []
  | a :: rest =>
      (if Z.of_nat k mod _NUM_PLAYERS =? p then [a] else []) ++ hand_dealt (Nat.pred k) rest p
  end.

(** ** SchafkopfObserver.set_from *)

(** The exceptions of [set_from]: [KeyError] from a lookup in [self.dict],
    and the exceptions of list and array indexing. *)
Inductive ObserverErr : Type :=
| KeyError
| Py (e : PyErr).

Inductive outcome (A : Type) : Type :=
| Done (a : A)
| Raise (e : ObserverErr).
Arguments Done {A} a.
Arguments Raise {A} e.

Definition obind {A B} (m : outcome A) (k : A -> outcome B) : outcome B :=
  match m with
  | Done a => k a
  | Raise e => Raise e
  end.

Notation "x <~ m ;; k" := (obind m (fun x => k))
  (at level 61, m at next level, right associativity).

Definition lift {A} (r : result A) : outcome A :=
  match r with
  | Ok a => Done a
  | Err e => Raise (Py e)
  end.

Fixpoint ofor_each {S A} (body : S -> A -> outcome S) (s : S) (l : list A) : outcome S :=
  match l with
  | [] => Done s
  | x :: t => s' <~ body s x ;; ofor_each body s' t
  end.

(** [d[name]] *)
Fixpoint dict_get {V : Type} (d : list (String.string * V)) (name : String.string)
  : outcome V :=
  match d with
  | [] => Raise KeyError
  | (k, x) :: t => if String.eqb k name then Done x else dict_get t name
  end.

(** [name in d] *)
Definition dict_mem {V : Type} (d : list (String.string * V)) (name : String.string) : bool :=
  existsb (fun kv => String.eqb (fst kv) name) d.

(** The cells of an array of shape [shape] that the chain of integer
    indices [idx] selects, as the row-major offset of the first cell and the
    number of cells: one cell when there is an index for every axis, a whole
    sub-array when there are fewer.  Each index is a Python index into its
    axis; an index out of its axis, or an index into a scalar, raises
    [IndexError]. *)
Fixpoint view_cells (shape idx : list Z) : result (Z * Z) :=
  match idx with
  | [] => Ok (0, fold_right Z.mul 1 shape)
  | i :: idx' =>
      match shape with
      | [] => Err IndexError
      | n :: shape' =>
          match PyList.index (Z.to_nat n) i with
          | None => Err IndexError
          | Some k =>
              oc <- view_cells shape' idx' ;;
              Ok (Z.of_nat k * fold_right Z.mul 1 shape' + fst oc, snd oc)
          end
      end
  end.

(** [cnt] consecutive cells of [l], from position [from], set to [x]. *)
Fixpoint fill_range {A} (from cnt : nat) (x : A) (l : list A) : list A :=
  match cnt with
  | O => l
  | S k => fill_range (S from) k x (PyList.set_nth from x l)
  end.

(** [self.dict[name][i]...[j] = 1]: the view shares the tensor's storage,
    so the assignment writes the tensor at the view's start plus the offset
    of the selected cells. *)
Definition view_setitem (obs : SchafkopfObserver) (name : String.string) (idx : list Z)
  : outcome SchafkopfObserver :=
  v <~ dict_get (dict obs) name ;;
  oc <~ lift (view_cells (view_shape v) idx) ;;
  Done (mkObserver (fill_range (Z.to_nat (view_start v + fst oc)) (Z.to_nat (snd oc))
                               (PyFloat.of_Z 1) (tensor obs))
                   (dict obs)).

(** The block of [set_from] that the current and the previous trick share:
    the leader's cell, then for each position that has a card the cell of
    that position and card. *)
Definition set_from_trick (obs : SchafkopfObserver) (leader_name cards_name : String.string)
    (trick : SchafkopfTrick) : outcome SchafkopfObserver :=
  obs <~ view_setitem obs leader_name [_leader trick] ;;
  ofor_each
    (fun obs p =>
       if cards_played trick >? p then
         c <~ lift (PyList.getitem (_cards trick) p) ;;
         view_setitem obs cards_name [p; c]
       else Done obs)
    obs (PyList.range _NUM_PLAYERS).

(** [SchafkopfObserver.set_from].  When an exception is raised part-way the
    Python object keeps the cells already written; the embedding returns
    the exception alone. *)
Definition set_from (obs : SchafkopfObserver) (state : SchafkopfState) (player : Z)
  : outcome SchafkopfObserver :=
  let obs := mkObserver (map (fun _ => PyFloat.of_Z 0) (tensor obs)) (dict obs) in
  obs <~ view_setitem obs "player"%string [player] ;;
  obs <~ (if dict_mem (dict obs) "private_cards"%string then
            ofor_each
              (fun obs p =>
                 ofor_each
                   (fun obs cl =>
                      let '(c, loc) := cl in
                      if loc_value loc =? p
                      then view_setitem obs "private_cards"%string [loc_value loc; c]
                      else Done obs)
                   obs (PyList.enumerate (_card_locations state)))
              obs (PyList.range _NUM_PLAYERS)
          else Done obs) ;;
  obs <~ view_setitem obs "solo_player"%string [0] ;;
  obs <~ (if (0 <? length (_tricks state))%nat then
            cur_trick <~ lift (PyList.getitem (_tricks state) (-1)) ;;
            set_from_trick obs "cur_trick_leader"%string "cur_trick"%string cur_trick
          else Done obs) ;;
  if (1 <? length (_tricks state))%nat then
    prev_trick <~ lift (PyList.getitem (_tricks state) (-2)) ;;
    set_from_trick obs "prev_trick_leader"%string "prev_trick"%string prev_trick
  else Done obs.

(** The observers a program can hold: built by the constructor, then
    updated by [set_from] any number of times. *)
Inductive usable : SchafkopfObserver -> Prop :=
| usable_init (T V : Type) (iig_obs_type : T) (params : option (list (String.string * V)))
    obs :
    SchafkopfObserver_init iig_obs_type params = Ok obs -> usable obs
| usable_set_from obs state player obs' :
    usable obs -> set_from obs state player = Done obs' -> usable obs'.

(** The scalar [obs.dict[name][i]...[j]], as a reader of the observation
    gets it. *)
Definition view_getitem (obs : SchafkopfObserver) (name : String.string) (idx : list Z)
  : outcome float :=
  v <~ dict_get (dict obs) name ;;
  oc <~ lift (view_cells (view_shape v) idx) ;;
  lift (PyList.getitem (tensor obs) (view_start v + fst oc)).

(** The layout the constructor builds. *)
Definition observer_layout : list (String.string * View) :=
  [("player"%string, mkView 0 3 [3]);
   ("private_cards"%string, mkView 3 21 [3; 6]);
   ("solo_player"%string, mkView 21 24 [3]);
   ("cur_trick_leader"%string, mkView 24 27 [3]);
   ("cur_trick"%string, mkView 27 45 [3; 6]);
   ("prev_trick_leader"%string, mkView 45 48 [3]);
   ("prev_trick"%string, mkView 48 66 [3; 6])].

(** The tensor holds a one exactly at the positions in [S], and zeros elsewhere. *)
Definition marks (obs : SchafkopfObserver) (S : nat -> Prop) : Prop :=
  dict obs = observer_layout /\
  length (tensor obs) = 66%nat /\
  forall i, (i < 66)%nat ->
    (nth_error (tensor obs) i = Some (PyFloat.of_Z 1) /\ S i) \/
    (nth_error (tensor obs) i = Some (PyFloat.of_Z 0) /\ ~ S i).

(** An observer with the constructor's layout and a tensor of its size. *)
Definition shaped (obs : SchafkopfObserver) : Prop :=
  dict obs = observer_layout /\ length (tensor obs) = 66%nat.

(** The cells of the trick [t] in a leader view at [lead] and a card view
    at [base]. *)
Definition trick_cells (lead base : nat) (t : SchafkopfTrick) (i : nat) : Prop :=
  i = (lead + Z.to_nat (_leader t))%nat \/
  exists pos c, (pos < 3)%nat /\ nth_error (_cards t) pos = Some c /\
                i = (base + 6 * pos + Z.to_nat c)%nat.

(** The cells [set_from] writes for the state [s] and the seat [k]. *)
Definition cells (s : SchafkopfState) (k : nat) (i : nat) : Prop :=
  i = k \/
  (exists p c L, (p < 3)%nat /\ nth_error (_card_locations s) c = Some L /\
                 loc_value L = Z.of_nat p /\ i = (3 + 6 * p + c)%nat) \/
  i = 21%nat \/
  (exists ts t, _tricks s = ts ++ [t] /\ trick_cells 24 27 t i) \/
  (exists ts t' t, _tricks s = ts ++ [t'; t] /\ trick_cells 45 48 t' i).

(** ** Strings of actions and observations *)

Infix "+++" := String.append (at level 60, right associativity).

(** [str(z)] of an integer: its decimal digits, after a minus sign when it
    is negative. *)
Definition str_int (z : Z) : String.string := DecimalString.NilZero.string_of_int (Z.to_int z).

(** [str(l)] of a list of integers. *)
Definition str_list (l : list Z) : String.string :=
  "["%string +++ String.concat ", "%string (map str_int l) +++ "]"%string.

(** [SchafkopfState._action_to_string] *)
Definition _action_to_string (player action : Z) : String.string :=
  if player =? PlayerId.CHANCE then "D"%string +++ str_int action
  else "P"%string +++ str_int player +++ ":A"%string +++ str_int action.

(** [SchafkopfObserver.string_from] *)
Definition string_from (obs : SchafkopfObserver) (state : SchafkopfState) (player : Z)
  : outcome String.string :=
  let pieces := ["p"%string +++ str_int player] in
  let pieces :=
    if dict_mem (dict obs) "private_cards"%string then
      pieces ++ map (fun cl : Z * CardLocation =>
                       let '(c, loc) := cl in
                       "c"%string +++ str_int c +++ "loc"%string +++ str_int (loc_value loc))
                    (PyList.enumerate (_card_locations state))
    else pieces in
  let pieces := pieces ++ ["solo_player0"%string] in
  pieces <~ (if (0 <? length (_tricks state))%nat then
               cur_trick <~ lift (PyList.getitem (_tricks state) (-1)) ;;
               Done (pieces ++
                     ["cur_trick_leader"%string +++ str_int (_leader cur_trick);
                      "cur_trick_cards"%string +++ str_list (_cards cur_trick)])
             else Done pieces) ;;
  pieces <~ (if (1 <? length (_tricks state))%nat then
               cur_trick <~ lift (PyList.getitem (_tricks state) (-2)) ;;
               Done (pieces ++
                     ["prev_trick_leader"%string +++ str_int (_leader cur_trick);
                      "prev_trick_cards"%string +++ str_list (_cards cur_trick)])
             else Done pieces) ;;
  Done (String.concat " "%string pieces).

(** A character of the decimal writing of an integer. *)
Definition is_num_char (c : Ascii.ascii) : bool :=
  let n := Ascii.N_of_ascii c in
  ((48 <=? n) && (n <=? 57) || (n =? 45))%N.

Fixpoint all_num (s : String.string) : bool :=
  match s with
  | String.EmptyString => true
  | String.String c s' => is_num_char c && all_num s'
  end.

(** The string is empty or starts with a character that is not part of a
    number. *)
Definition ends_number (s : String.string) : Prop :=
  match s with
  | String.EmptyString => True
  | String.String c _ => is_num_char c = false
  end.

(** What [string_from] writes of a trick. *)
Definition trick_shown (t : SchafkopfTrick) : Z * list Z := (_leader t, _cards t).

(** The last two elements of a list, or all of it when it is shorter. *)
Definition last_two {A} (l : list A) : list A := skipn (length l - 2) l.

(** The pieces that follow the first piece in the joined string, each after
    its separating space. *)
Fixpoint spaced (pieces : list String.string) : String.string :=
  match pieces with
  | [] => ""%string
  | p :: t => " "%string +++ p +++ spaced t
  end.

(** The elements of a list of integers after the first, as [str] writes
    them, and the whole list without its brackets. *)
Fixpoint tail_text (l : list Z) : String.string :=
  match l with
  | [] => ""%string
  | x :: t => ", "%string +++ str_int x +++ tail_text t
  end.

Definition list_text (l : list Z) : String.string :=
  match l with
  | [] => ""%string
  | x :: t => str_int x +++ tail_text t
  end.

(** The text of [string_from], piece by piece: the card locations, counted
    from [j], a trick under its name, and the whole observation of a
    player, the card locations and the tricks shown, the current one
    last. *)
Fixpoint locs_text (j : Z) (locs : list CardLocation) : String.string :=
  match locs with
  | [] => ""%string
  | L :: t =>
      " c"%string +++ str_int j +++ "loc"%string +++ str_int (loc_value L)
        +++ locs_text (j + 1) t
  end.

Definition trick_text (leader_name cards_name : String.string) (t : Z * list Z)
  : String.string :=
  " "%string +++ leader_name +++ str_int (fst t) +++
  " "%string +++ cards_name +++ "["%string +++ list_text (snd t) +++ "]"%string.

Definition observation_text (player : Z) (locs : list CardLocation)
    (shown : list (Z * list Z)) : String.string :=
  "p"%string +++ str_int player +++ locs_text 0 locs +++ " solo_player0"%string +++
  match rev shown with
  | [] => ""%string
  | [cur] => trick_text "cur_trick_leader"%string "cur_trick_cards"%string cur
  | cur :: prev :: _ =>
      trick_text "cur_trick_leader"%string "cur_trick_cards"%string cur +++
      trick_text "prev_trick_leader"%string "prev_trick_cards"%string prev
  end.

(** ** Example observations *)

(** The observer the constructor builds without parameters. *)
Definition observer0 : SchafkopfObserver := Eval vm_compute in
    match SchafkopfObserver_init tt (@None (list (String.string * unit))) with
    | Ok obs => obs
    | Err _ => mkObserver [] []
    end.

(** The observations of the state [played5] by seat 1 and by seat 2. *)
Definition observed5 : SchafkopfObserver := Eval vm_compute in
    match set_from observer0 played5 1 with
    | Done obs => obs
    | Raise _ => observer0
    end.

Definition observed5_seat2 : SchafkopfObserver := Eval vm_compute in
    match set_from observer0 played5 2 with
    | Done obs => obs
    | Raise _ => observer0
    end.

(** ** The game on a heap of objects

    The Python objects of a game with their identities: a [SchafkopfState]
    object refers to its four lists and, through [_tricks], to its
    [SchafkopfTrick] objects, each of which refers to its list of cards.  A
    heap is the list of the live objects and an address is a position in it;
    a method takes the heap and returns its result, or the exception it
    raised, with the heap as the call left it.  The methods that only read
    an object ([winner], [points]) are the functions above applied to the
    object's value. *)

Module Heap.

Definition addr : Type := nat.

(** The attributes of a [SchafkopfState] object; [game] is the reference
    handed to the framework's constructor. *)
Record StateObj : Type := mkStateObj {
  game : addr;
  _phase : Phase;
  _card_locations : addr;
  _num_cards_played : Z;
  _tricks : addr;
  _returns : addr;
  _points : addr;
  _max_points : Z;
  _next_player : Z;
  _game_over : bool
}.

(** The attributes of a [SchafkopfTrick] object. *)
Record TrickObj : Type := mkTrickObj {
  _cards : addr;
  _leader : Z;
  _led_suit : option Z
}.

Inductive Obj : Type :=
| StateObject (o : StateObj)
| TrickObject (o : TrickObj)
| CardLocationList (l : list CardLocation)
| FloatList (l : list float)
| IntList (l : list Z)
| TrickList (l : list addr)
| OtherObject.

Definition heap : Type := list Obj.

(** What stops a call: a Python exception, or a reference that does not
    lead to an object of the class the code expects (which the code never
    meets). *)
Inductive Exn : Type :=
| Raised (e : PyErr)
| BadRef.

Definition M (A : Type) : Type := heap -> (A + Exn) * heap.

Definition ret {A} (a : A) : M A := fun h => (inl a, h).

Definition raise {A} (e : Exn) : M A := fun h => (inr e, h).

Definition bind {A B} (m : M A) (k : A -> M B) : M B :=
  fun h =>
    match m h with
    | (inl a, h') => k a h'
    | (inr e, h') => (inr e, h')
    end.

Notation "x <<- m ;; k" := (bind m (fun x => k))
  (at level 61, m at next level, right associativity).

Definition lift {A} (r : result A) : M A :=
  match r with
  | Ok a => ret a
  | Err e => raise (Raised e)
  end.

Fixpoint for_each {A} (body : A -> M unit) (l : list A) : M unit :=
  match l with
  | [] => ret tt
  | x :: t => _ <<- body x ;; for_each body t
  end.

(** A new object, at the first free address. *)
Definition alloc (o : Obj) : M addr := fun h => (inl (length h), h ++ [o]).

(** The object at [a] replaced, in place. *)
Definition store (a : addr) (o : Obj) : M unit :=
  fun h => (inl tt, PyList.set_nth a o h).

Definition load_state (a : addr) : M StateObj :=
  fun h => (match nth_error h a with Some (StateObject o) => inl o | _ => inr BadRef end, h).

Definition load_trick (a : addr) : M TrickObj :=
  fun h => (match nth_error h a with Some (TrickObject o) => inl o | _ => inr BadRef end, h).

Definition load_locs (a : addr) : M (list CardLocation) :=
  fun h => (match nth_error h a with Some (CardLocationList l) => inl l | _ => inr BadRef end, h).

Definition load_floats (a : addr) : M (list float) :=
  fun h => (match nth_error h a with Some (FloatList l) => inl l | _ => inr BadRef end, h).

Definition load_ints (a : addr) : M (list Z) :=
  fun h => (match nth_error h a with Some (IntList l) => inl l | _ => inr BadRef end, h).

Definition load_refs (a : addr) : M (list addr) :=
  fun h => (match nth_error h a with Some (TrickList l) => inl l | _ => inr BadRef end, h).

(** [l[i] = v], [l[i]] and [l.append(x)] on the list object at [a]. *)
Definition locs_setitem (a : addr) (i : Z) (v : CardLocation) : M unit :=
  l <<- load_locs a ;;
  l' <<- lift (PyList.setitem l i v) ;;
  store a (CardLocationList l').

Definition floats_getitem (a : addr) (i : Z) : M float :=
  l <<- load_floats a ;;
  lift (PyList.getitem l i).

Definition floats_setitem (a : addr) (i : Z) (v : float) : M unit :=
  l <<- load_floats a ;;
  l' <<- lift (PyList.setitem l i v) ;;
  store a (FloatList l').

Definition refs_getitem (a : addr) (i : Z) : M addr :=
  l <<- load_refs a ;;
  lift (PyList.getitem l i).

Definition refs_append (a : addr) (x : addr) : M unit :=
  l <<- load_refs a ;;
  store a (TrickList (l ++ [x])).

Definition ints_append (a : addr) (x : Z) : M unit :=
  l <<- load_ints a ;;
  store a (IntList (l ++ [x])).

(** Attribute assignments [self._x = v] on a state object. *)
Definition set_phase (self : addr) (v : Phase) : M unit :=
  o <<- load_state self ;;
  store self (StateObject
    (mkStateObj (game o) v (_card_locations o) (_num_cards_played o) (_tricks o)
                (_returns o) (_points o) (_max_points o) (_next_player o) (_game_over o))).

Definition set_num_cards_played (self : addr) (v : Z) : M unit :=
  o <<- load_state self ;;
  store self (StateObject
    (mkStateObj (game o) (_phase o) (_card_locations o) v (_tricks o)
                (_returns o) (_points o) (_max_points o) (_next_player o) (_game_over o))).

Definition set_next_player (self : addr) (v : Z) : M unit :=
  o <<- load_state self ;;
  store self (StateObject
    (mkStateObj (game o) (_phase o) (_card_locations o) (_num_cards_played o) (_tricks o)
                (_returns o) (_points o) (_max_points o) v (_game_over o))).

Definition set_game_over (self : addr) (v : bool) : M unit :=
  o <<- load_state self ;;
  store self (StateObject
    (mkStateObj (game o) (_phase o) (_card_locations o) (_num_cards_played o) (_tricks o)
                (_returns o) (_points o) (_max_points o) (_next_player o) v)).

(** [SchafkopfTrick.__init__]: a new trick object with a new, empty list
    of cards. *)
Definition SchafkopfTrick_init (leader : Z) : M addr :=
  cards <<- alloc (IntList []) ;;
  alloc (TrickObject (mkTrickObj cards leader None)).

(** [tricks.append(SchafkopfTrick(leader))] *)
Definition append_new_trick (tricks : addr) (leader : Z) : M unit :=
  trick <<- SchafkopfTrick_init leader ;;
  refs_append tricks trick.

(** [SchafkopfTrick.play_card] *)
Definition play_card (self : addr) (card : Z) : M unit :=
  t <<- load_trick self ;;
  cards <<- load_ints (_cards t) ;;
  _ <<- (if (length cards =? 0)%nat
         then store self (TrickObject (mkTrickObj (_cards t) (_leader t)
                                                  (Some (CardSuit card))))
         else ret tt) ;;
  ints_append (_cards t) card.

(** The value of the trick object at [self]. *)
Definition read_trick (self : addr) : M SchafkopfTrick :=
  t <<- load_trick self ;;
  cards <<- load_ints (_cards t) ;;
  ret (mkTrick cards (_leader t) (_led_suit t)).

(** [SchafkopfTrick.points] *)
Definition points (self : addr) : M Z :=
  t <<- read_trick self ;;
  ret (points t).

(** [SchafkopfState.__init__]: four new lists and the new state object. *)
Definition SchafkopfState_init (game : addr) : M addr :=
  card_locations <<- alloc (CardLocationList (repeat Deck (Z.to_nat _NUM_CARDS))) ;;
  tricks <<- alloc (TrickList []) ;;
  returns <<- alloc (FloatList (repeat (PyFloat.of_Z 0) (Z.to_nat _NUM_PLAYERS))) ;;
  points <<- alloc (FloatList (repeat (PyFloat.of_Z 0) (Z.to_nat _NUM_PLAYERS))) ;;
  let max_points :=
    fold_left (fun acc c => acc + CardValue c) (PyList.range _NUM_CARDS) 0 in
  alloc (StateObject (mkStateObj game Deal card_locations 0 tricks returns points
                                 max_points PlayerId.CHANCE false)).

(** [SchafkopfGame.new_initial_state]: [SchafkopfState(self)]. *)
Definition new_initial_state (game : addr) : M addr := SchafkopfState_init game.

(** [SchafkopfState.current_player] *)
Definition current_player (self : addr) : M Z :=
  o <<- load_state self ;;
  ret (if _game_over o then PlayerId.TERMINAL
       else if phase_eqb (_phase o) Deal then PlayerId.CHANCE
       else _next_player o).

(** [SchafkopfState.next_player] *)
Definition next_player (self : addr) : M Z :=
  p <<- current_player self ;;
  ret ((p + 1) mod _NUM_PLAYERS).

(** [SchafkopfState._legal_deal_actions] *)
Definition _legal_deal_actions (self : addr) : M (list Z) :=
  o <<- load_state self ;;
  locs <<- load_locs (_card_locations o) ;;
  ret (cards_at (loc_value Deck) locs).

(** [SchafkopfState.winner] *)
Definition winner (trick : addr) : M Z :=
  t <<- read_trick trick ;;
  lift (winner t).

(** [SchafkopfState._apply_deal_action]; the [print] writes a line and
    reads nothing. *)
Definition _apply_deal_action (self : addr) (card : Z) : M unit :=
  cards_left <<- _legal_deal_actions self ;;
  receiving_player <<-
    lift (CardLocation_of (Z.of_nat (length cards_left) mod _NUM_PLAYERS)) ;;
  o <<- load_state self ;;
  _ <<- locs_setitem (_card_locations o) card receiving_player ;;
  if (length cards_left =? 1)%nat then
    _ <<- set_phase self Play ;;
    set_next_player self 0
  else ret tt.

(** One iteration of the loop that fills [_returns]. *)
Definition set_return (self : addr) (pi : Z) : M unit :=
  o <<- load_state self ;;
  pts <<- floats_getitem (_points o) pi ;;
  q <<- lift (float_div_int (PrimFloat.sub pts (PyFloat.of_Z (_max_points o / 2)))
                            (_max_points o)) ;;
  floats_setitem (_returns o) pi (PyFloat.round q 3).

(** [self._tricks[-1].play_card(card)], [self._card_locations[card] =
    CardLocation.Trick] and [self._num_cards_played += 1]. *)
Definition play_to_trick (self : addr) (card : Z) : M unit :=
  o <<- load_state self ;;
  last <<- refs_getitem (_tricks o) (-1) ;;
  _ <<- play_card last card ;;
  _ <<- locs_setitem (_card_locations o) card Trick ;;
  o' <<- load_state self ;;
  set_num_cards_played self (_num_cards_played o' + 1).

(** [SchafkopfState._apply_action]; the attributes that refer to the lists
    are never assigned after [__init__], so they are read once. *)
Definition _apply_action (self : addr) (card : Z) : M unit :=
  o <<- load_state self ;;
  if phase_eqb (_phase o) Deal then _apply_deal_action self card
  else if _num_cards_played o mod _NUM_PLAYERS =? 0 then
    leader <<- current_player self ;;
    _ <<- append_new_trick (_tricks o) leader ;;
    _ <<- play_to_trick self card ;;
    np <<- next_player self ;;
    set_next_player self np
  else
    _ <<- play_to_trick self card ;;
    o1 <<- load_state self ;;
    if _num_cards_played o1 mod _NUM_PLAYERS =? 0 then
      last <<- refs_getitem (_tricks o1) (-1) ;;
      w <<- winner last ;;
      old <<- floats_getitem (_points o1) w ;;
      last' <<- refs_getitem (_tricks o1) (-1) ;;
      pts <<- points last' ;;
      _ <<- floats_setitem (_points o1) w (PrimFloat.add old (PyFloat.of_Z pts)) ;;
      if _num_cards_played o1 =? _NUM_CARDS then
        _ <<- set_game_over self true ;;
        for_each (set_return self) (PyList.range _NUM_PLAYERS)
      else set_next_player self w
    else
      np <<- next_player self ;;
      set_next_player self np.

(** The value of the state object at [self]: what a reader of its
    attributes sees. *)
Fixpoint snapshot_tricks (h : heap) (refs : list addr) : option (list SchafkopfTrick) :=
  match refs with
  | [] => Some []
  | r :: rest =>
      match nth_error h r with
      | Some (TrickObject t) =>
          match nth_error h (_cards t), snapshot_tricks h rest with
          | Some (IntList cards), Some ts =>
              Some (mkTrick cards (_leader t) (_led_suit t) :: ts)
          | _, _ => None
          end
      | _ => None
      end
  end.

Definition snapshot (h : heap) (self : addr) : option SchafkopfState :=
  match nth_error h self with
  | Some (StateObject o) =>
      match nth_error h (_card_locations o), nth_error h (_tricks o),
            nth_error h (_returns o), nth_error h (_points o) with
      | Some (CardLocationList locs), Some (TrickList refs),
        Some (FloatList rets), Some (FloatList pts) =>
          match snapshot_tricks h refs with
          | Some ts =>
              Some (mkState (_phase o) locs (_num_cards_played o) ts rets pts
                            (_max_points o) (_next_player o) (_game_over o))
          | None => None
          end
      | _, _, _, _ => None
      end
  | _ => None
  end.

(** A replay of a sequence of actions on the state object [ref]: the
    actions still to apply, the snapshots taken after the actions that
    returned, and the exception that stopped the replay, if one did. *)
Record Replay : Type := mkReplay {
  ref : addr;
  todo : list Z;
  log : list (option SchafkopfState);
  raised : option Exn
}.

Definition start (self : addr) (acts : list Z) : Replay := mkReplay self acts [] None.

(** The next action of the replay, applied. *)
Definition advance (p : Replay) (h : heap) : Replay * heap :=
  match raised p, todo p with
  | None, a :: rest =>
      match _apply_action (ref p) a h with
      | (inl _, h') =>
          (mkReplay (ref p) rest (log p ++ [snapshot h' (ref p)]) None, h')
      | (inr e, h') => (mkReplay (ref p) rest (log p) (Some e), h')
      end
  | _, _ => (p, h)
  end.

(** Two replays on one heap, advanced in the order of [schedule]: [true]
    advances the first, [false] the second. *)
Fixpoint interleave (schedule : list bool) (p1 p2 : Replay) (h : heap)
  : Replay * Replay * heap :=
  match schedule with
  | [] => (p1, p2, h)
  | true :: rest => let '(p1', h') := advance p1 h in interleave rest p1' p2 h'
  | false :: rest => let '(p2', h') := advance p2 h in interleave rest p1 p2' h'
  end.

(** The replay has applied all its actions, or was stopped. *)
Definition finished (p : Replay) : Prop := raised p = None -> todo p = [].

End Heap.

(** ** Notions used in the proofs about the heap *)

(** Where the objects of a state are: the state object, its four lists and,
    for each trick in order, the trick object and its list of cards. *)
Record Layout : Type := mkLayout {
  l_self : Heap.addr;
  l_locs : Heap.addr;
  l_tricks : Heap.addr;
  l_rets : Heap.addr;
  l_pts : Heap.addr;
  l_trs : list (Heap.addr * Heap.addr)
}.

Definition trick_addrs (trs : list (Heap.addr * Heap.addr)) : list Heap.addr :=
  map fst trs ++ map snd trs.

Definition footprint (L : Layout) : list Heap.addr :=
  l_self L :: l_locs L :: l_tricks L :: l_rets L :: l_pts L :: trick_addrs (l_trs L).

Definition add_trick (L : Layout) (tc : Heap.addr * Heap.addr) : Layout :=
  mkLayout (l_self L) (l_locs L) (l_tricks L) (l_rets L) (l_pts L) (l_trs L ++ [tc]).

Definition state_obj (L : Layout) (g : Heap.addr) (s : SchafkopfState) : Heap.StateObj :=
  Heap.mkStateObj g (_phase s) (l_locs L) (_num_cards_played s) (l_tricks L)
                  (l_rets L) (l_pts L) (_max_points s) (_next_player s) (_game_over s).

Definition trick_at (h : Heap.heap) (tc : Heap.addr * Heap.addr) (t : SchafkopfTrick)
  : Prop :=
  nth_error h (fst tc)
    = Some (Heap.TrickObject (Heap.mkTrickObj (snd tc) (_leader t) (_led_suit t))) /\
  nth_error h (snd tc) = Some (Heap.IntList (_cards t)).

(** The heap [h] holds the state [s] at the layout [L], for a state object
    made for the game [g], and no two objects of the layout are the same
    object. *)
Definition owns (h : Heap.heap) (L : Layout) (g : Heap.addr) (s : SchafkopfState)
  : Prop :=
  NoDup (footprint L) /\
  nth_error h (l_self L) = Some (Heap.StateObject (state_obj L g s)) /\
  nth_error h (l_locs L) = Some (Heap.CardLocationList (_card_locations s)) /\
  nth_error h (l_tricks L) = Some (Heap.TrickList (map fst (l_trs L))) /\
  nth_error h (l_rets L) = Some (Heap.FloatList (_returns s)) /\
  nth_error h (l_pts L) = Some (Heap.FloatList (_points s)) /\
  Forall2 (trick_at h) (l_trs L) (_tricks s).

(** The call that took [h] to [h'] kept every object of [h] outside [F]. *)
Definition unchanged_outside (F : list Heap.addr) (h h' : Heap.heap) : Prop :=
  (length h <= length h')%nat /\
  forall a, (a < length h)%nat -> ~ In a F -> nth_error h' a = nth_error h a.

(** The objects of [L'] are objects of [L] or were created after [h]. *)
Definition grows (h : Heap.heap) (L L' : Layout) : Prop :=
  l_self L' = l_self L /\
  forall a, In a (footprint L') -> In a (footprint L) \/ (length h <= a)%nat.

(** What a call on the state [s] held at [L] does: it changes no object
    outside the layout, and either returns a value and leaves a state that
    satisfy [Q], or raises an exception that satisfies [E]. *)
Definition spec {A} (m : Heap.M A) (g : Heap.addr) (L : Layout) (s : SchafkopfState)
    (Q : A -> Layout -> SchafkopfState -> Prop) (E : PyErr -> Prop) : Prop :=
  forall h, owns h L g s ->
    exists res h',
      m h = (res, h') /\ unchanged_outside (footprint L) h h' /\
      match res with
      | inl a => exists L' s', owns h' L' g s' /\ grows h L L' /\ Q a L' s'
      | inr (Heap.Raised e) => E e
      | inr Heap.BadRef => False
      end.

(** The replay [p] of [acts] follows the embedding: while it runs, its
    state object holds the state the embedding reaches and its log the
    states before it; once stopped, it holds the embedding's outcome.  [F]
    is where its objects are while it runs. *)
Definition tracks (h : Heap.heap) (acts : list Z) (p : Heap.Replay)
    (F : list Heap.addr) : Prop :=
  (Heap.raised p = None /\
   exists L g s,
     l_self L = Heap.ref p /\ F = footprint L /\ owns h L g s /\
     Heap.log p ++ map Some (fst (replay s (Heap.todo p)))
       = map Some (fst (replay SchafkopfState_init acts)) /\
     snd (replay s (Heap.todo p)) = snd (replay SchafkopfState_init acts)) \/
  (exists e,
     Heap.raised p = Some (Heap.Raised e) /\ F = [] /\
     Heap.log p = map Some (fst (replay SchafkopfState_init acts)) /\
     snd (replay SchafkopfState_init acts) = Some e).

(** ** Example replays on a heap *)

(** A heap with one object of another program, then the objects of two
    initial states made for the same game object (at address 0): the first
    state object is at address 5, the second at address 10. *)
Definition heap0 : Heap.heap := [Heap.OtherObject].

Definition heap2 : Heap.heap := Eval vm_compute in
    snd (Heap.new_initial_state 0%nat (snd (Heap.new_initial_state 0%nat heap0))).

Definition layout1 : Layout := mkLayout 5%nat 1%nat 2%nat 3%nat 4%nat [].

(** A full game, and a sequence whose ninth action is no card. *)
Definition full_game : list Z := [0; 1; 2; 3; 4; 5; 3; 2; 4; 1; 0; 5].

Definition bad_game : list Z := [0; 1; 2; 3; 4; 5; 3; 2; 9; 1].

(** An order in which two replays of twelve actions take their turns. *)
Definition schedule0 : list bool :=
  [true; false; false; true; true; true; false; false; false; false; true; true;
   false; true; true; false; true; false; false; true; true; false; false; true;
   true; false].

(** * Properties *)

(** Arithmetic with the game's constants, including [/] and [mod]. *)
Ltac zmod :=
  unfold _NUM_CARDS, _NUM_SUITS, _NUM_RANKS, _NUM_PLAYERS in *;
  Z.to_euclidean_division_equations; lia.

(** ** Python list indexing *)

Section PyListFacts.
Context {A : Type}.
Implicit Types (l : list A) (n : nat) (x : A).

Lemma index_of_nat len n :
  (n < len)%nat -> PyList.index len (Z.of_nat n) = Some n.
Proof.
  intros H. unfold PyList.index.
  replace (0 <=? Z.of_nat n) with true by (symmetry; apply Z.leb_le; lia).
  replace (Z.of_nat n <? Z.of_nat len) with true by (symmetry; apply Z.ltb_lt; lia).
  simpl. now rewrite Nat2Z.id.
Qed.

Lemma index_last len :
  (0 < len)%nat -> PyList.index len (-1) = Some (len - 1)%nat.
Proof.
  intros H. unfold PyList.index. simpl (0 <=? -1). cbv iota. simpl andb.
  replace (- Z.of_nat len <=? -1) with true by (symmetry; apply Z.leb_le; lia).
  simpl. f_equal. lia.
Qed.

Lemma index_bound len i n : PyList.index len i = Some n -> (n < len)%nat.
Proof.
  unfold PyList.index.
  destruct (0 <=? i) eqn:E1, (i <? Z.of_nat len) eqn:E2; simpl;
    try (intros [= <-]; apply Z.leb_le in E1; apply Z.ltb_lt in E2; lia).
  all: destruct (- Z.of_nat len <=? i) eqn:E3, (i <? 0) eqn:E4; simpl;
    try discriminate;
    intros [= <-]; apply Z.leb_le in E3; apply Z.ltb_lt in E4; lia.
Qed.

Lemma index_in_range len i n :
  0 <= i -> PyList.index len i = Some n -> i = Z.of_nat n.
Proof.
  intros Hi. unfold PyList.index.
  destruct ((0 <=? i) && (i <? Z.of_nat len)).
  - intros [= <-]. lia.
  - replace (i <? 0) with false by (symmetry; apply Z.ltb_ge; lia).
    rewrite andb_false_r. discriminate.
Qed.

Lemma getitem_of_nat l n x :
  nth_error l n = Some x -> PyList.getitem l (Z.of_nat n) = Ok x.
Proof.
  intros H. unfold PyList.getitem.
  rewrite index_of_nat by (apply nth_error_Some; congruence).
  now rewrite H.
Qed.

Lemma setitem_of_nat l n x :
  (n < length l)%nat -> PyList.setitem l (Z.of_nat n) x = Ok (PyList.set_nth n x l).
Proof.
  intros H. unfold PyList.setitem. now rewrite index_of_nat.
Qed.

Lemma length_set_nth n x l : length (PyList.set_nth n x l) = length l.
Proof.
  revert n; induction l as [|h t IH]; intros [|n]; simpl; auto.
Qed.

Lemma nth_error_set_nth_eq n x l :
  (n < length l)%nat -> nth_error (PyList.set_nth n x l) n = Some x.
Proof.
  revert n; induction l as [|h t IH]; intros [|n]; simpl; intros H;
    try lia; auto. apply IH. lia.
Qed.

Lemma nth_error_set_nth_neq n m x l :
  n <> m -> nth_error (PyList.set_nth n x l) m = nth_error l m.
Proof.
  revert n m; induction l as [|h t IH]; intros [|n] [|m] H; simpl; auto.
  congruence.
Qed.

Lemma set_nth_last n x y l :
  n = length l -> PyList.set_nth n y (l ++ [x]) = l ++ [y].
Proof.
  intros ->. induction l as [|h t IH]; simpl; auto. now rewrite IH.
Qed.

Lemma getitem_last l x : PyList.getitem (l ++ [x]) (-1) = Ok x.
Proof.
  unfold PyList.getitem. rewrite index_last by (rewrite length_app; simpl; lia).
  rewrite length_app. simpl.
  replace (length l + 1 - 1)%nat with (length l) by lia.
  rewrite nth_error_app2 by lia. now rewrite Nat.sub_diag.
Qed.

Lemma setitem_last l x y : PyList.setitem (l ++ [x]) (-1) y = Ok (l ++ [y]).
Proof.
  unfold PyList.setitem. rewrite index_last by (rewrite length_app; simpl; lia).
  f_equal. apply set_nth_last. rewrite length_app. simpl. lia.
Qed.

Lemma getitem_nil i : PyList.getitem (@nil A) i = Err IndexError.
Proof.
  unfold PyList.getitem.
  destruct (PyList.index (length (@nil A)) i) as [n|] eqn:E; auto.
  apply index_bound in E. simpl in E. lia.
Qed.

End PyListFacts.

Lemma sum_cons x l : PyList.sum (x :: l) = x + PyList.sum l.
Proof.
  unfold PyList.sum. simpl.
  assert (G : forall l a b, fold_left Z.add l (a + b) = a + fold_left Z.add l b).
  { clear. induction l as [|h t IH]; intros a b; simpl; auto.
    rewrite <- Z.add_assoc. apply IH. }
  replace x with (x + 0) at 1 by lia. apply G.
Qed.

Lemma sum_app l1 l2 : PyList.sum (l1 ++ l2) = PyList.sum l1 + PyList.sum l2.
Proof.
  induction l1 as [|h t IH]; simpl.
  - reflexivity.
  - rewrite !sum_cons, IH. lia.
Qed.

Lemma sum_perm l1 l2 : Permutation l1 l2 -> PyList.sum l1 = PyList.sum l2.
Proof.
  induction 1; rewrite ?sum_cons; lia.
Qed.

(** ** Cards by location *)

Lemma cards_at_from_0 v locs : cards_at v locs = cards_at_from 0 v locs.
Proof. reflexivity. Qed.

Lemma cards_at_from_cons j v L locs :
  cards_at_from j v (L :: locs) =
  if loc_value L =? v then j :: cards_at_from (j + 1) v locs
  else cards_at_from (j + 1) v locs.
Proof.
  unfold cards_at_from. simpl. now destruct (loc_value L =? v).
Qed.

Lemma in_cards_at_from c j v locs :
  In c (cards_at_from j v locs) <->
  exists n L, c = j + Z.of_nat n /\ nth_error locs n = Some L /\ loc_value L = v.
Proof.
  revert j; induction locs as [|L0 t IH]; intros j.
  - split; [intros [] | intros (n & L & _ & H & _); now destruct n].
  - rewrite cards_at_from_cons. split.
    + intros H.
      assert (D : (loc_value L0 = v /\ c = j) \/ In c (cards_at_from (j + 1) v t)).
      { destruct (loc_value L0 =? v) eqn:E; auto.
        destruct H as [<- | H]; auto. left. split; auto. now apply Z.eqb_eq. }
      destruct D as [[E ->] | H'].
      * exists O, L0. repeat split; auto. lia.
      * apply IH in H' as (n & L & -> & Hn & Hv).
        exists (S n), L. repeat split; auto. lia.
    + intros (n & L & -> & Hn & Hv). destruct n as [|n]; simpl in Hn.
      * injection Hn as ->. apply Z.eqb_eq in Hv. rewrite Hv. left. lia.
      * assert (In (j + Z.of_nat (S n)) (cards_at_from (j + 1) v t)).
        { apply IH. exists n, L. repeat split; auto. lia. }
        destruct (loc_value L0 =? v); [right|]; auto.
Qed.

Lemma in_cards_at c v locs :
  In c (cards_at v locs) <->
  exists n L, c = Z.of_nat n /\ nth_error locs n = Some L /\ loc_value L = v.
Proof. rewrite cards_at_from_0. apply in_cards_at_from. Qed.

Lemma NoDup_cards_at_from j v locs : NoDup (cards_at_from j v locs).
Proof.
  revert j; induction locs as [|L t IH]; intros j.
  - constructor.
  - rewrite cards_at_from_cons. destruct (loc_value L =? v); auto.
    constructor; auto. intros H. apply in_cards_at_from in H as (n & _ & E & _). lia.
Qed.

Lemma length_cards_at_from j v locs :
  (length (cards_at_from j v locs) <= length locs)%nat.
Proof.
  revert j; induction locs as [|L t IH]; intros j; simpl; auto.
  rewrite cards_at_from_cons. specialize (IH (j + 1)).
  destruct (loc_value L =? v); simpl; lia.
Qed.

(** Moving the card at position [n] to a location with value [v]. *)
Lemma cards_at_from_arrive j v n L0 L1 locs :
  nth_error locs n = Some L0 -> loc_value L0 <> v -> loc_value L1 = v ->
  Permutation (cards_at_from j v (PyList.set_nth n L1 locs))
              ((j + Z.of_nat n) :: cards_at_from j v locs).
Proof.
  revert j n; induction locs as [|L t IH]; intros j [|n] Hn H0 H1; simpl in Hn;
    try discriminate.
  - injection Hn as ->. simpl. rewrite !cards_at_from_cons.
    apply Z.eqb_eq in H1. apply Z.eqb_neq in H0. rewrite H0, H1.
    simpl Z.of_nat. rewrite Z.add_0_r. reflexivity.
  - simpl PyList.set_nth. rewrite !cards_at_from_cons.
    specialize (IH (j + 1) n Hn H0 H1).
    replace (j + 1 + Z.of_nat n) with (j + Z.of_nat (S n)) in IH by lia.
    destruct (loc_value L =? v); auto.
    rewrite IH. apply perm_swap.
Qed.

(** Moving the card at position [n] away from the location with value [v]. *)
Lemma cards_at_from_leave j v n L0 L1 locs :
  nth_error locs n = Some L0 -> loc_value L0 = v -> loc_value L1 <> v ->
  Permutation (cards_at_from j v locs)
              ((j + Z.of_nat n) :: cards_at_from j v (PyList.set_nth n L1 locs)).
Proof.
  revert j n; induction locs as [|L t IH]; intros j [|n] Hn H0 H1; simpl in Hn;
    try discriminate.
  - injection Hn as ->. simpl. rewrite !cards_at_from_cons.
    apply Z.eqb_eq in H0. apply Z.eqb_neq in H1. rewrite H0, H1.
    simpl Z.of_nat. rewrite Z.add_0_r. reflexivity.
  - simpl PyList.set_nth. rewrite !cards_at_from_cons.
    specialize (IH (j + 1) n Hn H0 H1).
    replace (j + 1 + Z.of_nat n) with (j + Z.of_nat (S n)) in IH by lia.
    destruct (loc_value L =? v); auto.
    rewrite IH. apply perm_swap.
Qed.

(** A move between two other locations leaves the cards at [v] alone. *)
Lemma cards_at_from_other j v n L0 L1 locs :
  nth_error locs n = Some L0 -> loc_value L0 <> v -> loc_value L1 <> v ->
  cards_at_from j v (PyList.set_nth n L1 locs) = cards_at_from j v locs.
Proof.
  revert j n; induction locs as [|L t IH]; intros j [|n] Hn H0 H1; simpl in Hn;
    try discriminate.
  - injection Hn as ->. simpl. rewrite !cards_at_from_cons.
    apply Z.eqb_neq in H0. apply Z.eqb_neq in H1. now rewrite H0, H1.
  - simpl PyList.set_nth. rewrite !cards_at_from_cons.
    rewrite (IH (j + 1) n Hn H0 H1). reflexivity.
Qed.

(** The six locations partition the card identifiers. *)
Lemma cards_at_from_partition j locs :
  Permutation
    (cards_at_from j 0 locs ++ cards_at_from j 1 locs ++ cards_at_from j 2 locs ++
     cards_at_from j 3 locs ++ cards_at_from j 4 locs ++ cards_at_from j 5 locs)
    (map (fun n => j + Z.of_nat n) (seq 0 (length locs))).
Proof.
  revert j; induction locs as [|L t IH]; intros j.
  - reflexivity.
  - simpl length. simpl seq. simpl map.
    rewrite <- seq_shift, map_map.
    simpl Z.of_nat. rewrite Z.add_0_r.
    erewrite map_ext; [|intros n; instantiate (1 := fun n => j + 1 + Z.of_nat n); simpl; lia].
    rewrite <- (IH (j + 1)). rewrite !cards_at_from_cons.
    destruct L; simpl; rewrite <- ?Permutation_middle; reflexivity.
Qed.

(** ** Floats holding small integers *)

Lemma in_range n i : 0 <= i < n -> In i (PyList.range n).
Proof.
  intros H. unfold PyList.range. apply in_map_iff. exists (Z.to_nat i). split.
  - lia.
  - apply in_seq. lia.
Qed.

Lemma of_Z_add_exact a b :
  0 <= a <= 100 -> 0 <= b <= 100 ->
  PrimFloat.add (PyFloat.of_Z a) (PyFloat.of_Z b) = PyFloat.of_Z (a + b).
Proof.
  intros Ha Hb.
  assert (C : forallb (fun x => forallb (fun y =>
                PrimFloat.Leibniz.eqb
                  (PrimFloat.add (PyFloat.of_Z x) (PyFloat.of_Z y))
                  (PyFloat.of_Z (x + y))) (PyList.range 101)) (PyList.range 101) = true)
    by (vm_compute; reflexivity).
  rewrite forallb_forall in C. specialize (C a (in_range 101 a ltac:(lia))).
  rewrite forallb_forall in C. specialize (C b (in_range 101 b ltac:(lia))).
  now apply FloatAxioms.Leibniz.eqb_spec.
Qed.

(** ** The card model *)

Lemma CardRank_bound c : 0 <= CardRank c < 6.
Proof. unfold CardRank, _NUM_RANKS. apply Z.mod_pos_bound. lia. Qed.

Lemma card_suit_rank c : c = 6 * CardSuit c + CardRank c.
Proof. unfold CardSuit, CardRank, _NUM_RANKS. apply Z.div_mod. lia. Qed.

Lemma card_eq a b : CardSuit a = CardSuit b -> CardRank a = CardRank b -> a = b.
Proof.
  intros Hs Hr. rewrite (card_suit_rank a), (card_suit_rank b). lia.
Qed.

Lemma CardValue_bound c : 0 <= CardValue c <= 11.
Proof.
  unfold CardValue. pose proof (CardRank_bound c) as H.
  assert (D : CardRank c = 0 \/ CardRank c = 1 \/ CardRank c = 2 \/
              CardRank c = 3 \/ CardRank c = 4 \/ CardRank c = 5) by lia.
  destruct D as [-> | [-> | [-> | [-> | [-> | ->]]]]]; simpl; lia.
Qed.

Lemma sum_values_bound l :
  0 <= PyList.sum (map CardValue l) <= 11 * Z.of_nat (length l).
Proof.
  induction l as [|c t IH].
  - simpl. unfold PyList.sum. simpl. lia.
  - simpl map. rewrite sum_cons. pose proof (CardValue_bound c).
    simpl length. lia.
Qed.

(** ** The winner of a closed trick *)

Lemma winner_closed t c0 c1 c2 :
  _cards t = [c0; c1; c2] -> NoDup [c0; c1; c2] ->
  exists i c,
    nth_error (_cards t) i = Some c /\
    winner t = Ok (player_at_position t (Z.of_nat i)) /\
    CardSuit c = CardSuit c0 /\
    forall j d, nth_error (_cards t) j = Some d -> j <> i ->
                CardSuit d = CardSuit c0 -> CardRank d < CardRank c.
Proof.
  intros Hc Hnd. unfold winner. rewrite Hc. simpl.
  assert (D01 : CardSuit c0 = CardSuit c1 -> CardRank c0 <> CardRank c1).
  { intros Hs Hr. pose proof (card_eq _ _ Hs Hr) as ->.
    inversion Hnd as [|? ? Hn]. apply Hn. now left. }
  assert (D02 : CardSuit c0 = CardSuit c2 -> CardRank c0 <> CardRank c2).
  { intros Hs Hr. pose proof (card_eq _ _ Hs Hr) as ->.
    inversion Hnd as [|? ? Hn]. apply Hn. right. now left. }
  assert (D12 : CardSuit c1 = CardSuit c2 -> CardRank c1 <> CardRank c2).
  { intros Hs Hr. pose proof (card_eq _ _ Hs Hr) as ->.
    inversion Hnd as [|? ? _ Hnd']. inversion Hnd' as [|? ? Hn]. apply Hn. now left. }
  rewrite Z.eqb_refl.
  replace (CardRank c0 >? CardRank c0) with false
    by (symmetry; rewrite Z.gtb_ltb; apply Z.ltb_ge; lia).
  assert (Fin : forall i c,
    nth_error [c0; c1; c2] i = Some c -> CardSuit c = CardSuit c0 ->
    (forall d, In d [c0; c1; c2] -> d <> c -> CardSuit d = CardSuit c0 ->
               CardRank d < CardRank c) ->
    forall w, w = player_at_position t (Z.of_nat i) ->
    exists i c,
      nth_error [c0; c1; c2] i = Some c /\
      Ok w = Ok (player_at_position t (Z.of_nat i)) /\
      CardSuit c = CardSuit c0 /\
      forall j d, nth_error [c0; c1; c2] j = Some d -> j <> i ->
                  CardSuit d = CardSuit c0 -> CardRank d < CardRank c).
  { intros i c Hi Hs Hmax w ->. exists i, c. repeat split; auto.
    intros j d Hj Hne Hsd. apply Hmax; auto.
    - eapply nth_error_In; eauto.
    - intros ->. apply Hne.
      eapply (proj1 (NoDup_nth_error [c0; c1; c2])); eauto.
      + apply nth_error_Some. congruence.
      + congruence. }
  destruct (CardSuit c1 =? CardSuit c0) eqn:S1;
    [destruct (CardRank c1 >? CardRank c0) eqn:R1|]; simpl;
    rewrite ?S1, ?R1; simpl.
  - (* c1 took the lead *)
    destruct (CardSuit c2 =? CardSuit c1) eqn:S2;
      [destruct (CardRank c2 >? CardRank c1) eqn:R2|]; simpl;
      rewrite ?Z.gtb_ltb in *;
      rewrite ?Z.eqb_eq, ?Z.eqb_neq, ?Z.ltb_lt, ?Z.ltb_ge in *.
    + apply (Fin 2%nat c2); auto; try lia.
      intros d [<- | [<- | [<- | []]]] Hne Hs; lia.
    + apply (Fin 1%nat c1); auto.
      intros d [<- | [<- | [<- | []]]] Hne Hs; lia.
    + apply (Fin 1%nat c1); auto.
      intros d [<- | [<- | [<- | []]]] Hne Hs; lia.
  - (* c1 follows suit below c0 *)
    destruct (CardSuit c2 =? CardSuit c0) eqn:S2;
      [destruct (CardRank c2 >? CardRank c0) eqn:R2|]; simpl;
      rewrite ?Z.gtb_ltb in *;
      rewrite ?Z.eqb_eq, ?Z.eqb_neq, ?Z.ltb_lt, ?Z.ltb_ge in *.
    + apply (Fin 2%nat c2); auto.
      intros d [<- | [<- | [<- | []]]] Hne Hs; lia.
    + apply (Fin 0%nat c0); auto.
      intros d [<- | [<- | [<- | []]]] Hne Hs; lia.
    + apply (Fin 0%nat c0); auto.
      intros d [<- | [<- | [<- | []]]] Hne Hs; lia.
  - (* c1 is off suit *)
    destruct (CardSuit c2 =? CardSuit c0) eqn:S2;
      [destruct (CardRank c2 >? CardRank c0) eqn:R2|]; simpl;
      rewrite ?Z.gtb_ltb in *;
      rewrite ?Z.eqb_eq, ?Z.eqb_neq, ?Z.ltb_lt, ?Z.ltb_ge in *.
    + apply (Fin 2%nat c2); auto.
      intros d [<- | [<- | [<- | []]]] Hne Hs; lia.
    + apply (Fin 0%nat c0); auto.
      intros d [<- | [<- | [<- | []]]] Hne Hs; lia.
    + apply (Fin 0%nat c0); auto.
      intros d [<- | [<- | [<- | []]]] Hne Hs; lia.
Qed.

(** ** What one action does *)

Lemma CardLocation_of_value v :
  0 <= v <= 5 -> exists L, CardLocation_of v = Ok L /\ loc_value L = v.
Proof.
  intros H.
  assert (D : v = 0 \/ v = 1 \/ v = 2 \/ v = 3 \/ v = 4 \/ v = 5) by lia.
  destruct D as [-> | [-> | [-> | [-> | [-> | ->]]]]]; simpl; eauto.
Qed.

Lemma loc_value_inj L L' : loc_value L = loc_value L' -> L = L'.
Proof. destruct L, L'; simpl; intros H; try reflexivity; discriminate. Qed.

(** A deal action on an undealt card. *)
Lemma apply_deal s a :
  _phase s = Deal -> In a (_legal_deal_actions s) ->
  exists n L,
    a = Z.of_nat n /\ nth_error (_card_locations s) n = Some Deck /\
    loc_value L = Z.of_nat (length (_legal_deal_actions s)) mod _NUM_PLAYERS /\
    _apply_action s a =
      Ok (if (length (_legal_deal_actions s) =? 1)%nat
          then set_next_player (set_phase (relocate s n L) Play) 0
          else relocate s n L).
Proof.
  intros Hph Hin. unfold _legal_deal_actions in Hin.
  apply in_cards_at in Hin as (n & L0 & -> & Hn & Hv).
  apply (loc_value_inj L0 Deck) in Hv. subst L0.
  destruct (CardLocation_of_value
              (Z.of_nat (length (_legal_deal_actions s)) mod _NUM_PLAYERS))
    as (L & HL & HLv).
  { pose proof (Z.mod_pos_bound (Z.of_nat (length (_legal_deal_actions s))) _NUM_PLAYERS).
    unfold _NUM_PLAYERS in *. lia. }
  exists n, L. repeat split; auto.
  unfold _apply_action. rewrite Hph. simpl phase_eqb. cbv iota.
  unfold _apply_deal_action. rewrite HL. simpl bind.
  rewrite setitem_of_nat by (apply nth_error_Some; congruence).
  simpl bind. now destruct (length (_legal_deal_actions s) =? 1)%nat.
Qed.

Lemma phase_eqb_Deal ph : phase_eqb ph Deal = false <-> ph <> Deal.
Proof. destruct ph; simpl; split; congruence. Qed.

(** A card led to a new trick. *)
Lemma apply_lead s n :
  _phase s <> Deal -> _num_cards_played s mod _NUM_PLAYERS = 0 ->
  (n < length (_card_locations s))%nat ->
  _apply_action s (Z.of_nat n) =
    Ok (mkState (_phase s) (PyList.set_nth n Trick (_card_locations s))
                (_num_cards_played s + 1)
                (_tricks s ++ [mkTrick [Z.of_nat n] (current_player s)
                                       (Some (CardSuit (Z.of_nat n)))])
                (_returns s) (_points s) (_max_points s)
                ((current_player s + 1) mod _NUM_PLAYERS) (_game_over s)).
Proof.
  intros Hph Hn0 Hn. unfold _apply_action.
  apply phase_eqb_Deal in Hph. rewrite Hph.
  apply Z.eqb_eq in Hn0. rewrite Hn0.
  unfold play_in_last_trick, last_trick. simpl _tricks.
  rewrite getitem_last. simpl bind. rewrite setitem_last. simpl bind.
  unfold move_to_trick. simpl _card_locations.
  rewrite setitem_of_nat by exact Hn. simpl bind.
  unfold next_player, current_player. simpl. rewrite Hph. reflexivity.
Qed.

(** A card played into the open trick [t], which stays open. *)
Lemma apply_follow_open s ts t n :
  _phase s <> Deal -> _num_cards_played s mod _NUM_PLAYERS <> 0 ->
  (_num_cards_played s + 1) mod _NUM_PLAYERS <> 0 ->
  _tricks s = ts ++ [t] ->
  (n < length (_card_locations s))%nat ->
  _apply_action s (Z.of_nat n) =
    Ok (mkState (_phase s) (PyList.set_nth n Trick (_card_locations s))
                (_num_cards_played s + 1)
                (ts ++ [play_card t (Z.of_nat n)])
                (_returns s) (_points s) (_max_points s)
                ((current_player s + 1) mod _NUM_PLAYERS) (_game_over s)).
Proof.
  intros Hph Hn0 Hn1 Hts Hn. unfold _apply_action.
  apply phase_eqb_Deal in Hph. rewrite Hph.
  apply Z.eqb_neq in Hn0. rewrite Hn0.
  unfold play_in_last_trick, last_trick. rewrite Hts.
  rewrite getitem_last. simpl bind. rewrite setitem_last. simpl bind.
  unfold move_to_trick. simpl _card_locations.
  rewrite setitem_of_nat by exact Hn. simpl bind.
  simpl _num_cards_played.
  apply Z.eqb_neq in Hn1. rewrite Hn1.
  unfold next_player, current_player. simpl. rewrite Hph. reflexivity.
Qed.

Lemma set_return_at s i p :
  (i < length (_returns s))%nat -> nth_error (_points s) i = Some p ->
  _max_points s <> 0 ->
  set_return s (Z.of_nat i) =
    Ok (set_returns s (PyList.set_nth i (expected_return (_max_points s) p) (_returns s))).
Proof.
  intros Hi Hp Hm. unfold set_return, float_div_int.
  rewrite (getitem_of_nat _ _ _ Hp). simpl bind.
  apply Z.eqb_neq in Hm. rewrite Hm. simpl bind.
  rewrite setitem_of_nat by exact Hi. reflexivity.
Qed.

(** The loop over the players fills [_returns] from [_points]. *)
Lemma fill_returns s :
  length (_points s) = 3%nat -> length (_returns s) = 3%nat -> _max_points s <> 0 ->
  for_each set_return s (PyList.range _NUM_PLAYERS) =
    Ok (set_returns s (map (expected_return (_max_points s)) (_points s))).
Proof.
  intros Hp Hr Hm. destruct s as [ph locs n ts rets pts mx np go]. simpl in *.
  destruct pts as [|p0 [|p1 [|p2 [|]]]]; try discriminate.
  destruct rets as [|r0 [|r1 [|r2 [|]]]]; try discriminate.
  change (PyList.range _NUM_PLAYERS) with [Z.of_nat 0; Z.of_nat 1; Z.of_nat 2].
  unfold for_each.
  rewrite (set_return_at _ 0%nat p0) by (simpl; auto; lia). simpl bind.
  rewrite (set_return_at _ 1%nat p1) by (simpl; auto; lia). simpl bind.
  rewrite (set_return_at _ 2%nat p2) by (simpl; auto; lia). simpl bind.
  reflexivity.
Qed.

(** A card played into the open trick [t], closing it. *)
Lemma apply_follow_close s ts t n w old :
  _phase s <> Deal -> _num_cards_played s mod _NUM_PLAYERS <> 0 ->
  (_num_cards_played s + 1) mod _NUM_PLAYERS = 0 ->
  _tricks s = ts ++ [t] ->
  (n < length (_card_locations s))%nat ->
  winner (play_card t (Z.of_nat n)) = Ok (Z.of_nat w) ->
  nth_error (_points s) w = Some old ->
  let s3 :=
    mkState (_phase s) (PyList.set_nth n Trick (_card_locations s))
            (_num_cards_played s + 1)
            (ts ++ [play_card t (Z.of_nat n)])
            (_returns s)
            (PyList.set_nth w
               (PrimFloat.add old (PyFloat.of_Z (points (play_card t (Z.of_nat n)))))
               (_points s))
            (_max_points s) (_next_player s) (_game_over s) in
  _apply_action s (Z.of_nat n) =
    if _num_cards_played s + 1 =? _NUM_CARDS
    then for_each set_return (set_game_over s3 true) (PyList.range _NUM_PLAYERS)
    else Ok (set_next_player s3 (Z.of_nat w)).
Proof.
  intros Hph Hn0 Hn1 Hts Hn Hw Hold s3. unfold _apply_action.
  apply phase_eqb_Deal in Hph. rewrite Hph.
  apply Z.eqb_neq in Hn0. rewrite Hn0.
  unfold play_in_last_trick, last_trick. rewrite Hts.
  rewrite getitem_last. simpl bind. rewrite setitem_last. simpl bind.
  unfold move_to_trick. simpl _card_locations.
  rewrite setitem_of_nat by exact Hn. simpl bind.
  simpl _num_cards_played.
  apply Z.eqb_eq in Hn1. rewrite Hn1.
  simpl _tricks. rewrite getitem_last. simpl bind.
  rewrite Hw. simpl bind. simpl _points.
  rewrite (getitem_of_nat _ _ _ Hold). simpl bind.
  rewrite setitem_of_nat by (apply nth_error_Some; congruence).
  simpl bind. reflexivity.
Qed.

(** ** The invariant of reachable states *)

Lemma played_app ts1 ts2 : played (ts1 ++ ts2) = played ts1 ++ played ts2.
Proof. unfold played. now rewrite map_app, concat_app. Qed.

Lemma played_single t : played [t] = _cards t.
Proof. unfold played. simpl. apply app_nil_r. Qed.

Lemma map_set_nth {A B} (f : A -> B) n x l :
  map f (PyList.set_nth n x l) = PyList.set_nth n (f x) (map f l).
Proof.
  revert n; induction l as [|h t IH]; intros [|n]; simpl; auto. now rewrite IH.
Qed.

Lemma sum_set_nth n x d l :
  nth_error l n = Some x ->
  PyList.sum (PyList.set_nth n (x + d) l) = PyList.sum l + d.
Proof.
  revert n; induction l as [|h t IH]; intros [|n] H; simpl in H; try discriminate.
  - injection H as ->. simpl. rewrite !sum_cons. lia.
  - simpl. rewrite !sum_cons, (IH n H). lia.
Qed.

Lemma Forall_set_nth {A} (P : A -> Prop) n x l :
  Forall P l -> P x -> Forall P (PyList.set_nth n x l).
Proof.
  intros Hl Hx. revert n; induction Hl as [|h t Hh Ht IH]; intros [|n]; simpl;
    constructor; auto.
Qed.

Lemma sum_nonneg_nth l n x :
  Forall (fun z => 0 <= z) l -> nth_error l n = Some x -> 0 <= x <= PyList.sum l.
Proof.
  intros Hl. revert n; induction Hl as [|h t Hh Ht IH]; intros [|n] H; simpl in H;
    try discriminate; rewrite sum_cons.
  - injection H as ->.
    assert (0 <= PyList.sum t).
    { clear -Ht. induction Ht; rewrite ?sum_cons; [reflexivity | lia]. }
    lia.
  - specialize (IH n H). lia.
Qed.

(** The winner of a three-card trick is always a seat. *)
Lemma winner_seat t :
  closed t -> exists w, winner t = Ok (Z.of_nat w) /\ (w < 3)%nat.
Proof.
  unfold closed. intros H.
  destruct (_cards t) as [|c0 [|c1 [|c2 [|]]]] eqn:E; try discriminate.
  assert (P : forall i, exists w, player_at_position t i = Z.of_nat w /\ (w < 3)%nat).
  { intros i. unfold player_at_position, _NUM_PLAYERS.
    pose proof (Z.mod_pos_bound (_leader t + i) 3 ltac:(lia)).
    exists (Z.to_nat ((_leader t + i) mod 3)). lia. }
  unfold winner. rewrite E. simpl.
  repeat match goal with
           | |- context [if ?b then _ else _] => destruct b; simpl
           end;
    match goal with
    | |- exists w, Ok (player_at_position t ?i) = _ /\ _ =>
        destruct (P i) as (w & -> & Hw); exists w; auto
    end.
Qed.

Lemma Inv_init : Inv SchafkopfState_init.
Proof.
  constructor; try reflexivity. simpl.
  constructor; try reflexivity.
  - vm_compute. split; apply Nat.le_refl || (repeat constructor).
  - intros p Hp. assert (D : p = 0 \/ p = 1 \/ p = 2) by lia.
    destruct D as [-> | [-> | ->]]; reflexivity.
Qed.

(** A legal action of a player is a card of the hand of the player to move. *)
Lemma legal_play_in_hand s acts a :
  _phase s <> Deal -> _game_over s = false ->
  legal_actions s = Ok acts -> In a acts ->
  0 <= _next_player s /\ In a (player_cards s (_next_player s)).
Proof.
  intros Hph Hgo Hl Hin. unfold legal_actions, is_terminal in Hl. rewrite Hgo in Hl.
  unfold _legal_actions, current_player in Hl. rewrite Hgo in Hl.
  apply phase_eqb_Deal in Hph. rewrite Hph in Hl.
  destruct (0 <=? _next_player s) eqn:E; simpl in Hl; try discriminate.
  apply Z.leb_le in E. split; auto.
  destruct (_num_cards_played s =? 0); [congruence|].
  destruct (_num_cards_played s mod _NUM_PLAYERS =? 0); [congruence|].
  destruct (last_trick s) as [t|]; simpl in Hl; try discriminate.
  injection Hl as <-.
  destruct (0 <? length _)%nat; auto.
  apply filter_In in Hin. tauto.
Qed.

Lemma legal_deal s acts a :
  _phase s = Deal -> _game_over s = false ->
  legal_actions s = Ok acts -> In a acts -> In a (_legal_deal_actions s).
Proof.
  intros Hph Hgo Hl Hin. unfold legal_actions, is_terminal in Hl. rewrite Hgo in Hl.
  unfold _legal_actions in Hl. rewrite Hph in Hl. simpl in Hl. congruence.
Qed.

Lemma dealt_to_next k p :
  (2 <= k <= 6)%nat -> 0 <= p < 3 ->
  dealt_to (k - 1) p =
    if Z.of_nat k mod _NUM_PLAYERS =? p then S (dealt_to k p) else dealt_to k p.
Proof.
  intros Hk Hp.
  assert (Dk : k = 2%nat \/ k = 3%nat \/ k = 4%nat \/ k = 5%nat \/ k = 6%nat) by lia.
  assert (Dp : p = 0 \/ p = 1 \/ p = 2) by lia.
  destruct Dk as [-> | [-> | [-> | [-> | ->]]]];
    destruct Dp as [-> | [-> | ->]]; reflexivity.
Qed.

Lemma Inv_deal_step s a s' :
  Inv s -> _phase s = Deal -> In a (_legal_deal_actions s) ->
  _apply_action s a = Ok s' -> Inv s'.
Proof.
  intros [Hlocs Hpts Hrets Hmax Hh3 Hph] HD Hin Hap.
  rewrite HD in Hph. destruct Hph as [Hn Hts Hgo Htr Hp0 Hr0 Hk Hhands].
  destruct (apply_deal s a HD Hin) as (n & L & -> & Hnth & HL & Heq).
  rewrite Heq in Hap. clear Heq.
  set (k := length (_legal_deal_actions s)) in *.
  assert (HLr : 0 <= loc_value L < 3).
  { rewrite HL. apply Z.mod_pos_bound. reflexivity. }
  assert (Hdeck : Permutation (_legal_deal_actions s)
                    (Z.of_nat n :: cards_at (loc_value Deck)
                                     (PyList.set_nth n L (_card_locations s)))).
  { unfold _legal_deal_actions. rewrite !cards_at_from_0.
    apply (cards_at_from_leave 0 _ n Deck L); auto. simpl. lia. }
  assert (Hklen : k = S (length (cards_at (loc_value Deck)
                                    (PyList.set_nth n L (_card_locations s))))).
  { unfold k. now rewrite (Permutation_length Hdeck). }
  assert (Hother : forall v, v <> loc_value L -> v <> loc_value Deck ->
            cards_at v (PyList.set_nth n L (_card_locations s)) =
            cards_at v (_card_locations s)).
  { intros v H1 H2. rewrite !cards_at_from_0.
    apply (cards_at_from_other 0 v n Deck L); auto. }
  assert (Hhand : forall p, 0 <= p < 3 ->
            length (cards_at p (PyList.set_nth n L (_card_locations s))) =
            if loc_value L =? p then S (dealt_to k p) else dealt_to k p).
  { intros p Hp. destruct (loc_value L =? p) eqn:E.
    - apply Z.eqb_eq in E. rewrite !cards_at_from_0.
      rewrite (Permutation_length
                 (cards_at_from_arrive 0 p n Deck L _ Hnth
                    ltac:(simpl; lia) E)).
      simpl. f_equal. rewrite <- Hhands by exact Hp. reflexivity.
    - apply Z.eqb_neq in E. rewrite Hother by (simpl; lia).
      rewrite <- Hhands by exact Hp. reflexivity. }
  change (loc_value Deck) with 4 in *. change (loc_value Trick) with 5 in *.
  change (loc_value Hand3) with 3 in *.
  destruct (k =? 1)%nat eqn:Ek; injection Hap as <-.
  - (* the last card: the play begins *)
    apply Nat.eqb_eq in Ek.
    constructor; simpl; auto.
    + now rewrite length_set_nth.
    + rewrite Hother by (simpl; lia). exact Hh3.
    + constructor; simpl; auto.
      * unfold _legal_deal_actions. simpl.
        apply length_zero_iff_nil. lia.
      * rewrite Hother by (simpl; lia). rewrite Htr, Hts. reflexivity.
      * rewrite Hts. constructor.
      * exists [], [], [0; 0; 0]. rewrite Hts, Hn, Hp0.
        repeat split; auto. repeat constructor; lia.
      * rewrite Hgo, Hn. reflexivity.
      * lia.
      * rewrite Hgo. exact Hr0.
  - (* more cards to deal *)
    apply Nat.eqb_neq in Ek.
    constructor; simpl; auto.
    + now rewrite length_set_nth.
    + rewrite Hother by (simpl; lia). exact Hh3.
    + rewrite HD. constructor; simpl; auto.
      * rewrite Hother by (simpl; lia). exact Htr.
      * unfold _legal_deal_actions. simpl. lia.
      * intros p Hp. unfold player_cards, _legal_deal_actions. simpl.
        rewrite (Hhand p Hp).
        replace (length (cards_at 4 (PyList.set_nth n L (_card_locations s))))
          with (k - 1)%nat by lia.
        rewrite dealt_to_next by (auto; lia). now rewrite HL.
Qed.

#[local] Arguments Z.mul : simpl never.
#[local] Arguments Z.add : simpl never.
#[local] Arguments Z.modulo : simpl never.
#[local] Arguments Z.of_nat : simpl never.

Lemma length_played_closed cl :
  Forall closed cl -> length (played cl) = (3 * length cl)%nat.
Proof.
  induction 1 as [|t ts Ht Hts IH]; [reflexivity|].
  change (played (t :: ts)) with (_cards t ++ played ts).
  rewrite length_app, IH, Ht. simpl. lia.
Qed.

Lemma player_at_position_next t i :
  (player_at_position t i + 1) mod _NUM_PLAYERS = player_at_position t (i + 1).
Proof.
  unfold player_at_position. rewrite Z.add_mod_idemp_l by (unfold _NUM_PLAYERS; lia).
  f_equal. lia.
Qed.

(** A play action on a card of the hand of the player to move. *)
Lemma Inv_play_step s a :
  Inv s -> _phase s = Play -> _game_over s = false ->
  In a (player_cards s (_next_player s)) ->
  exists n L s',
    a = Z.of_nat n /\ nth_error (_card_locations s) n = Some L /\
    loc_value L = _next_player s /\
    _apply_action s a = Ok s' /\ Inv s' /\ play_effect s n s'.
Proof.
  intros [Hlocs Hpts Hrets Hmax Hh3 Hph] HP Hgo Hin.
  rewrite HP in Hph.
  destruct Hph as [Hdeck Hperm Hwf (cl & op & zp & Hts & Hcl & Hop & Hn & Hzp & Hzp0 & Hsum)
                   Hover Hnext Hret].
  specialize (Hnext Hgo). rewrite Hgo in Hret.
  apply in_cards_at in Hin as (n & L & -> & Hnth & HLv).
  exists n, L.
  assert (Hlt : (n < length (_card_locations s))%nat)
    by (apply nth_error_Some; congruence).
  assert (Hnd : _phase s <> Deal) by congruence.
  assert (Hcur : current_player s = _next_player s).
  { unfold current_player. now rewrite Hgo, HP. }
  change (loc_value Trick) with 5 in *. change (loc_value Hand3) with 3 in *.
  unfold _legal_deal_actions in Hdeck. change (loc_value Deck) with 4 in *.
  assert (Htrick' : Permutation (cards_at 5 (PyList.set_nth n Trick (_card_locations s)))
                      (played (_tricks s) ++ [Z.of_nat n])).
  { rewrite cards_at_from_0.
    rewrite (cards_at_from_arrive 0 5 n L Trick _ Hnth ltac:(lia) eq_refl).
    rewrite <- Hperm. apply Permutation_cons_append. }
  assert (Hdeck' : cards_at 4 (PyList.set_nth n Trick (_card_locations s)) = []).
  { rewrite <- Hdeck, !cards_at_from_0.
    apply (cards_at_from_other 0 4 n L Trick); auto; simpl; lia. }
  assert (Hh3' : cards_at 3 (PyList.set_nth n Trick (_card_locations s)) = []).
  { rewrite <- Hh3, !cards_at_from_0.
    apply (cards_at_from_other 0 3 n L Trick); auto; simpl; lia. }
  assert (Hlen6 : (length (played (_tricks s)) < 6)%nat).
  { pose proof (Permutation_length Htrick') as E. rewrite length_app in E. simpl in E.
    pose proof (length_cards_at_from 0 5 (PyList.set_nth n Trick (_card_locations s))) as B.
    rewrite length_set_nth, Hlocs in B. rewrite <- cards_at_from_0 in B. lia. }
  pose proof (length_played_closed cl Hcl) as Hlcl.
  rewrite Hts, played_app, length_app in Hlen6.
  destruct op as [|t [|t2 op]]; [| |contradiction].
  - (* leading a new trick *)
    rewrite app_nil_r in Hts.
    change (length (played [])) with 0%nat in Hn, Hlen6.
    assert (Hmod : _num_cards_played s mod _NUM_PLAYERS = 0)
      by zmod.
    eexists. split; [reflexivity|]. split; [exact Hnth|]. split; [exact HLv|].
    split; [apply (apply_lead s n Hnd Hmod Hlt)|].
    split; [|constructor; simpl; auto].
    + constructor; simpl; auto.
      * now rewrite length_set_nth.
      * rewrite HP. constructor; simpl; auto.
        -- rewrite played_app, played_single. simpl. exact Htrick'.
        -- apply Forall_app. split; auto. repeat constructor.
           ++ simpl. rewrite Hcur. lia.
           ++ simpl. rewrite Hcur. lia.
           ++ simpl. eauto.
        -- exists cl, [mkTrick [Z.of_nat n] (current_player s) (Some (CardSuit (Z.of_nat n)))], zp.
           rewrite Hts. repeat split; simpl; auto; try lia.
        -- rewrite Hgo. symmetry. apply Z.eqb_neq. zmod.
        -- intros _. apply Z.mod_pos_bound. reflexivity.
        -- now rewrite Hgo.
    + rewrite played_app, played_single. reflexivity.
    + eexists (_tricks s), _, []. split; [reflexivity|]. split; [reflexivity|].
      simpl. unfold player_at_position. simpl. rewrite Hcur, Z.add_0_r.
      split; [|now split]. apply Z.mod_small. exact Hnext.
  - (* following in the open trick [t] *)
    destruct Hop as [Hlen Hnp]. rewrite played_single in Hn, Hlen6.
    assert (Hmod : _num_cards_played s mod _NUM_PLAYERS <> 0)
      by zmod.
    rewrite Hts in Hwf. apply Forall_app in Hwf as [Hwfcl Hwft].
    inversion Hwft as [|? ? [Hlead (c0 & rest & Hc0 & Hled)] _]; subst.
    assert (Hwf' : trick_wf (play_card t (Z.of_nat n))).
    { split; simpl; auto. exists c0, (rest ++ [Z.of_nat n]). rewrite Hc0. simpl.
      split; auto. }
    assert (Hlen' : length (_cards (play_card t (Z.of_nat n))) = S (length (_cards t))).
    { simpl. rewrite length_app. simpl. lia. }
    destruct (Nat.eq_dec (length (_cards t)) 1) as [H1 | H1].
    + (* the trick stays open *)
      assert (Hmod1 : (_num_cards_played s + 1) mod _NUM_PLAYERS <> 0)
        by zmod.
      eexists. split; [reflexivity|]. split; [exact Hnth|]. split; [exact HLv|].
      split; [apply (apply_follow_open s cl t n Hnd Hmod Hmod1 Hts Hlt)|].
      split; [|constructor; simpl; auto].
      * constructor; simpl; auto.
        -- now rewrite length_set_nth.
        -- rewrite HP. constructor; simpl; auto.
           ++ rewrite played_app, played_single. simpl.
              rewrite Hts, played_app, played_single in Htrick'.
              rewrite app_assoc. exact Htrick'.
           ++ apply Forall_app. split; auto.
           ++ exists cl, [play_card t (Z.of_nat n)], zp.
              repeat split; auto; try lia.
              ** simpl _next_player.
                 rewrite Hcur, Hnp, player_at_position_next, Hlen'.
                 unfold player_at_position. simpl _leader. f_equal. lia.
              ** rewrite played_single. lia.
           ++ rewrite Hgo. symmetry. apply Z.eqb_neq. zmod.
           ++ intros _. apply Z.mod_pos_bound. reflexivity.
           ++ now rewrite Hgo.
      * rewrite Hts, !played_app, !played_single. simpl.
        now rewrite app_assoc.
      * exists cl, (play_card t (Z.of_nat n)), (_cards t).
        split; [reflexivity|]. split; [reflexivity|]. rewrite H1. simpl.
        rewrite Hcur. split; [|now split].
        rewrite Hnp, H1. reflexivity.
    + (* the trick closes *)
      assert (H2 : length (_cards t) = 2%nat) by lia.
      assert (Hmod1 : (_num_cards_played s + 1) mod _NUM_PLAYERS = 0)
        by zmod.
      assert (Hclosed : closed (play_card t (Z.of_nat n))) by (unfold closed; lia).
      destruct (winner_seat _ Hclosed) as (w & Hw & Hw3).
      destruct (nth_error zp w) as [zw|] eqn:Hzw.
      2:{ apply nth_error_None in Hzw. rewrite Hzp, length_map in Hpts. lia. }
      assert (Hold : nth_error (_points s) w = Some (PyFloat.of_Z zw)).
      { rewrite Hzp. now apply map_nth_error. }
      pose proof (apply_follow_close s cl t n w _ Hnd Hmod Hmod1 Hts Hlt Hw Hold) as Hap.
      cbv zeta in Hap.
      pose proof (sum_nonneg_nth zp w zw Hzp0 Hzw) as Bzw.
      pose proof (sum_values_bound (played cl)) as Bcl.
      pose proof (sum_values_bound (_cards (play_card t (Z.of_nat n)))) as Bt.
      rewrite Hlen', H2 in Bt.
      assert (Hexact : PrimFloat.add (PyFloat.of_Z zw)
                         (PyFloat.of_Z (points (play_card t (Z.of_nat n)))) =
                       PyFloat.of_Z (zw + points (play_card t (Z.of_nat n)))).
      { apply of_Z_add_exact; unfold points; lia. }
      rewrite Hexact in Hap.
      assert (Hzp' : PyList.set_nth w
                       (PyFloat.of_Z (zw + points (play_card t (Z.of_nat n))))
                       (_points s) =
                     map PyFloat.of_Z
                       (PyList.set_nth w (zw + points (play_card t (Z.of_nat n))) zp)).
      { now rewrite map_set_nth, Hzp. }
      assert (Hshape : forall s1,
        _tricks s1 = cl ++ [play_card t (Z.of_nat n)] ->
        _num_cards_played s1 = _num_cards_played s + 1 ->
        _points s1 = PyList.set_nth w
                       (PyFloat.of_Z (zw + points (play_card t (Z.of_nat n))))
                       (_points s) ->
        exists cl' op' zp',
          _tricks s1 = cl' ++ op' /\ Forall closed cl' /\ open_ok s1 op' /\
          _num_cards_played s1 =
            3 * Z.of_nat (length cl') + Z.of_nat (length (played op')) /\
          _points s1 = map PyFloat.of_Z zp' /\ Forall (fun z => 0 <= z) zp' /\
          PyList.sum zp' = PyList.sum (map CardValue (played cl'))).
      { intros s1 E1 E2 E3.
        exists (cl ++ [play_card t (Z.of_nat n)]), [],
               (PyList.set_nth w (zw + points (play_card t (Z.of_nat n))) zp).
        repeat split; auto.
        - now rewrite app_nil_r.
        - apply Forall_app. split; auto.
        - rewrite E2, Hn, length_app. simpl. lia.
        - now rewrite E3.
        - apply Forall_set_nth; auto. unfold points. lia.
        - rewrite (sum_set_nth _ _ _ _ Hzw), Hsum, played_app, played_single,
            map_app, sum_app. reflexivity. }
      destruct (_num_cards_played s + 1 =? _NUM_CARDS) eqn:E6.
      * (* the last trick: the game is over *)
        rewrite fill_returns in Hap; simpl; try (rewrite ?length_set_nth; auto; lia).
        eexists. split; [reflexivity|]. split; [exact Hnth|]. split; [exact HLv|].
        split; [exact Hap|].
        split; [|constructor; simpl; auto].
        -- constructor; simpl; auto.
           ++ now rewrite length_set_nth.
           ++ now rewrite length_set_nth.
           ++ now rewrite length_map, length_set_nth.
           ++ rewrite HP. constructor; simpl; auto.
              ** rewrite played_app, played_single. simpl.
                 rewrite Hts, played_app, played_single in Htrick'.
                 rewrite app_assoc. exact Htrick'.
              ** apply Forall_app. split; auto.
              ** apply (Hshape (mkState _ _ _ _ _ _ _ _ _)); reflexivity.
              ** now rewrite Hmax.
        -- rewrite Hts, !played_app, !played_single. simpl.
           now rewrite app_assoc.
        -- exists cl, (play_card t (Z.of_nat n)), (_cards t).
           split; [reflexivity|]. split; [reflexivity|]. rewrite H2. simpl.
           split; [rewrite Hnp, H2; reflexivity|].
           exists w, (PyFloat.of_Z zw). rewrite Hexact.
           repeat split; auto; discriminate.
      * (* the winner leads the next trick *)
        eexists. split; [reflexivity|]. split; [exact Hnth|]. split; [exact HLv|].
        split; [exact Hap|].
        split; [|constructor; simpl; auto].
        -- constructor; simpl; auto.
           ++ now rewrite length_set_nth.
           ++ now rewrite length_set_nth.
           ++ rewrite HP. constructor; simpl; auto.
              ** rewrite played_app, played_single. simpl.
                 rewrite Hts, played_app, played_single in Htrick'.
                 rewrite app_assoc. exact Htrick'.
              ** apply Forall_app. split; auto.
              ** apply (Hshape (mkState _ _ _ _ _ _ _ _ _)); reflexivity.
              ** rewrite Hgo. symmetry. exact E6.
              ** intros _. lia.
              ** now rewrite Hgo.
        -- rewrite Hts, !played_app, !played_single. simpl.
           now rewrite app_assoc.
        -- exists cl, (play_card t (Z.of_nat n)), (_cards t).
           split; [reflexivity|]. split; [reflexivity|]. rewrite H2. simpl.
           split; [rewrite Hnp, H2; reflexivity|].
           exists w, (PyFloat.of_Z zw). rewrite Hexact.
           repeat split; auto; discriminate.
Qed.

Lemma deal_step_effect s a :
  _phase s = Deal -> In a (_legal_deal_actions s) ->
  exists n s', a = Z.of_nat n /\ _apply_action s a = Ok s' /\ deal_effect s n s'.
Proof.
  intros HD Hin.
  destruct (apply_deal s a HD Hin) as (n & L & -> & Hnth & HL & Heq).
  exists n. eexists. split; [reflexivity|]. split; [exact Heq|].
  assert (HLr : 0 <= loc_value L < 3).
  { rewrite HL. apply Z.mod_pos_bound. reflexivity. }
  assert (Hlocs : forall b : bool,
            _card_locations (if b then set_next_player (set_phase (relocate s n L) Play) 0
                             else relocate s n L) =
            PyList.set_nth n L (_card_locations s)) by (intros []; reflexivity).
  constructor; auto.
  - exists L. repeat split; auto; try lia.
    rewrite <- HL. destruct L; simpl in *; try reflexivity; lia.
  - unfold _legal_deal_actions. rewrite Hlocs, !cards_at_from_0.
    apply (cards_at_from_leave 0 _ n Deck L); auto. simpl. lia.
  - now destruct (length (_legal_deal_actions s) =? 1)%nat.
  - intros ->. reflexivity.
  - now destruct (length (_legal_deal_actions s) =? 1)%nat.
Qed.

(** A legal action is a deal of an undealt card or a play of a card from
    the hand of the player to move. *)
Lemma step_cases s a acts :
  Inv s -> legal_actions s = Ok acts -> In a acts ->
  (_phase s = Deal /\ In a (_legal_deal_actions s)) \/
  (_phase s = Play /\ _game_over s = false /\
   0 <= _next_player s < 3 /\ In a (player_cards s (_next_player s))).
Proof.
  intros HI Hl Hin.
  destruct (_game_over s) eqn:Hgo.
  { unfold legal_actions, is_terminal in Hl. rewrite Hgo in Hl.
    injection Hl as <-. destruct Hin. }
  destruct (_phase s) eqn:HP.
  - left. split; auto. eapply legal_deal; eauto.
  - right. repeat split; auto;
      try (apply (pi_next s); [pose proof (inv_phase s HI) as H; now rewrite HP in H | auto]).
    eapply legal_play_in_hand; eauto. congruence.
  - pose proof (inv_phase s HI) as H. rewrite HP in H. destruct H.
Qed.

(** Every legal action can be applied. *)
Lemma step_total s a acts :
  Inv s -> legal_actions s = Ok acts -> In a acts ->
  exists s', _apply_action s a = Ok s'.
Proof.
  intros HI Hl Hin.
  destruct (step_cases s a acts HI Hl Hin) as [[HD Hd] | (HP & Hgo & _ & Hh)].
  - destruct (deal_step_effect s a HD Hd) as (n & s' & _ & H & _). eauto.
  - destruct (Inv_play_step s a HI HP Hgo Hh) as (n & L & s' & _ & _ & _ & H & _). eauto.
Qed.

Lemma Inv_step s a s' : Inv s -> step s a s' -> Inv s'.
Proof.
  intros HI [acts Hl Hin Hap].
  destruct (step_cases s a acts HI Hl Hin) as [[HD Hd] | (HP & Hgo & _ & Hh)].
  - eapply Inv_deal_step; eauto.
  - destruct (Inv_play_step s a HI HP Hgo Hh) as (n & L & s1 & _ & _ & _ & H & HI' & _).
    congruence.
Qed.

Lemma reachable_Inv s : reachable s -> Inv s.
Proof.
  induction 1 as [|s a s' _ IH Hstep].
  - apply Inv_init.
  - eapply Inv_step; eauto.
Qed.

(** The driver and the step relation agree. *)
Lemma apply_legal_action_step s a s' : apply_legal_action s a = Ok s' <-> step s a s'.
Proof.
  unfold apply_legal_action. split.
  - destruct (legal_actions s) as [acts|] eqn:Hl; simpl; try discriminate.
    destruct (existsb (Z.eqb a) acts) eqn:E; try discriminate.
    intros Hap. apply existsb_exists in E as (x & Hx & Hax).
    apply Z.eqb_eq in Hax. subst x. econstructor; eauto.
  - intros [acts Hl Hin Hap]. rewrite Hl. simpl.
    replace (existsb (Z.eqb a) acts) with true; auto.
    symmetry. apply existsb_exists. exists a. split; auto. apply Z.eqb_refl.
Qed.

Lemma play_from_reachable acts : forall s s',
  reachable s -> play_from s acts = Ok s' -> reachable s'.
Proof.
  induction acts as [|a acts IH]; intros s s' Hr H; simpl in H.
  - now injection H as <-.
  - unfold play_from in H. simpl in H.
    destruct (apply_legal_action s a) as [s1|] eqn:E; simpl in H; try discriminate.
    apply (IH s1 s'); auto.
    apply (reachable_step s a s1 Hr). apply apply_legal_action_step. exact E.
Qed.

Lemma play_step_effect s a s' :
  Inv s -> step s a s' -> _phase s = Play ->
  exists n L,
    a = Z.of_nat n /\ nth_error (_card_locations s) n = Some L /\
    loc_value L = _next_player s /\ 0 <= _next_player s < 3 /\
    _game_over s = false /\ Inv s' /\ play_effect s n s'.
Proof.
  intros HI [acts Hl Hin Hap] HP.
  destruct (step_cases s a acts HI Hl Hin) as [[HD _] | (_ & Hgo & Hnext & Hh)];
    [congruence|].
  destruct (Inv_play_step s a HI HP Hgo Hh) as (n & L & s1 & -> & Hn & HL & H & HI' & He).
  exists n, L. rewrite Hap in H. injection H as <-.
  split; [reflexivity|]. split; [exact Hn|]. split; [exact HL|].
  split; [exact Hnext|]. split; [exact Hgo|]. split; assumption.
Qed.

Lemma deal_step s a s' :
  Inv s -> step s a s' -> _phase s = Deal ->
  exists n, a = Z.of_nat n /\ deal_effect s n s'.
Proof.
  intros HI [acts Hl Hin Hap] HD.
  destruct (step_cases s a acts HI Hl Hin) as [[_ Hd] | (HP & _)]; [|congruence].
  destruct (deal_step_effect s a HD Hd) as (n & s1 & -> & H & He).
  exists n. rewrite Hap in H. injection H as <-. auto.
Qed.

Lemma last_trick_app s ts t : _tricks s = ts ++ [t] -> last_trick s = Ok t.
Proof. intros H. unfold last_trick. rewrite H. apply getitem_last. Qed.

(** In a reachable state the cards in the tricks are pairwise distinct. *)
Lemma NoDup_played s : Inv s -> _phase s = Play -> NoDup (played (_tricks s)).
Proof.
  intros HI HP. pose proof (inv_phase s HI) as H. rewrite HP in H.
  eapply Permutation_NoDup; [apply (pi_trick s H)|].
  rewrite cards_at_from_0. apply NoDup_cards_at_from.
Qed.

Lemma NoDup_last_trick s ts t :
  Inv s -> _phase s = Play -> _tricks s = ts ++ [t] -> NoDup (_cards t).
Proof.
  intros HI HP Hts. pose proof (NoDup_played s HI HP) as H.
  rewrite Hts, played_app, played_single in H.
  now apply NoDup_app_remove_l in H.
Qed.

(** The last trick of a play state is closed exactly when the play count
    is a multiple of three. *)
Lemma last_trick_closed s ts t :
  Inv s -> _phase s = Play -> _tricks s = ts ++ [t] ->
  _num_cards_played s mod _NUM_PLAYERS = 0 -> closed t.
Proof.
  intros HI HP Hts Hmod. pose proof (inv_phase s HI) as H. rewrite HP in H.
  destruct (pi_shape s H) as (cl & op & zp & Hcl & Hall & Hop & Hn & _).
  destruct op as [|t1 [|t2 op]]; [| |contradiction].
  - rewrite app_nil_r in Hcl. rewrite Hcl in Hts. subst cl.
    apply Forall_app in Hall as [_ Hall]. now inversion Hall.
  - destruct Hop as [Hlen _]. rewrite played_single in Hn. zmod.
Qed.

(** ** The game on a heap of objects *)

Lemma nth_error_lt {A} (l : list A) n x : nth_error l n = Some x -> (n < length l)%nat.
Proof. intros H. apply nth_error_Some. congruence. Qed.

Lemma nth_error_after {A} (h l : list A) k :
  nth_error (h ++ l) (length h + k) = nth_error l k.
Proof. rewrite nth_error_app2 by lia. f_equal. lia. Qed.

Lemma nth_error_before {A} (h l : list A) a x :
  nth_error h a = Some x -> nth_error (h ++ l) a = Some x.
Proof.
  intros H. rewrite nth_error_app1; auto. now apply nth_error_lt with x.
Qed.

Lemma unchanged_refl F h : unchanged_outside F h h.
Proof. split; auto. Qed.

Lemma unchanged_store F a o h :
  In a F -> unchanged_outside F h (PyList.set_nth a o h).
Proof.
  intros Ha. split.
  - now rewrite length_set_nth.
  - intros b _ Hb. apply nth_error_set_nth_neq. intros ->. contradiction.
Qed.

Lemma unchanged_alloc F h l : unchanged_outside F h (h ++ l).
Proof.
  split.
  - rewrite length_app. lia.
  - intros a Ha _. now apply nth_error_app1.
Qed.

Lemma unchanged_trans F h1 h2 h3 :
  unchanged_outside F h1 h2 -> unchanged_outside F h2 h3 -> unchanged_outside F h1 h3.
Proof.
  intros [L1 U1] [L2 U2]. split; [lia|].
  intros a Ha Hn. rewrite U2, U1; auto. lia.
Qed.

Lemma grows_refl h L : grows h L L.
Proof. split; auto. Qed.

Lemma tricks_frame h h' trs ts :
  Forall2 (trick_at h) trs ts ->
  (forall a, In a (trick_addrs trs) -> nth_error h' a = nth_error h a) ->
  Forall2 (trick_at h') trs ts.
Proof.
  unfold trick_addrs.
  induction 1 as [|tc t trs ts [H1 H2] _ IH]; intros Hsame; constructor.
  - split; rewrite Hsame; auto; apply in_or_app; simpl; auto.
  - apply IH. intros a Ha. apply Hsame.
    apply in_app_or in Ha as [Ha|Ha]; apply in_or_app; simpl; auto.
Qed.

Lemma tricks_lt h trs ts a :
  Forall2 (trick_at h) trs ts -> In a (trick_addrs trs) -> (a < length h)%nat.
Proof.
  unfold trick_addrs.
  induction 1 as [|tc t trs ts [H1 H2] _ IH]; simpl; intros Ha.
  - contradiction.
  - destruct Ha as [<-|Ha]; [now apply nth_error_lt in H1|].
    apply in_app_or in Ha as [Ha|[<-|Ha]].
    + apply IH, in_or_app; auto.
    + now apply nth_error_lt in H2.
    + apply IH, in_or_app; auto.
Qed.

Lemma owns_lt h L g s a : owns h L g s -> In a (footprint L) -> (a < length h)%nat.
Proof.
  intros (_ & H1 & H2 & H3 & H4 & H5 & H6) Ha.
  unfold footprint in Ha. simpl in Ha.
  destruct Ha as [<-|[<-|[<-|[<-|[<-|Ha]]]]];
    try (eapply nth_error_lt; eassumption).
  eapply tricks_lt; eauto.
Qed.

(** A call that leaves the objects of a state alone leaves the state. *)
Lemma owns_frame h h' L g s :
  owns h L g s ->
  (forall a, In a (footprint L) -> nth_error h' a = nth_error h a) ->
  owns h' L g s.
Proof.
  intros (H0 & H1 & H2 & H3 & H4 & H5 & H6) Hsame.
  unfold owns. repeat split; auto;
    try (rewrite Hsame; [assumption | unfold footprint; simpl; auto 10]).
  apply tricks_frame with h; auto.
  intros a Ha. apply Hsame. unfold footprint. simpl. auto 10.
Qed.

Lemma owns_unchanged F h h' L g s :
  owns h L g s -> unchanged_outside F h h' ->
  (forall a, In a (footprint L) -> ~ In a F) ->
  owns h' L g s.
Proof.
  intros Ho [_ U] Hd. apply owns_frame with h; auto.
  intros a Ha. apply U; auto. eapply owns_lt; eauto.
Qed.

Lemma snapshot_tricks_owned h trs ts :
  Forall2 (trick_at h) trs ts -> Heap.snapshot_tricks h (map fst trs) = Some ts.
Proof.
  induction 1 as [|tc t trs ts [H1 H2] _ IH]; simpl; auto.
  rewrite H1. simpl. rewrite H2, IH. now destruct t.
Qed.

(** The state a layout holds is the state a reader of the object sees. *)
Lemma owns_snapshot h L g s : owns h L g s -> Heap.snapshot h (l_self L) = Some s.
Proof.
  intros (_ & H1 & H2 & H3 & H4 & H5 & H6).
  unfold Heap.snapshot. rewrite H1. simpl. rewrite H2, H3, H4, H5.
  rewrite (snapshot_tricks_owned h _ _ H6). now destruct s.
Qed.

(** *** Rules for calls *)

Lemma spec_bind {A B} (m : Heap.M A) (k : A -> Heap.M B) g L s
    (Q1 : A -> Layout -> SchafkopfState -> Prop) (E1 : PyErr -> Prop) Q E :
  spec m g L s Q1 E1 ->
  (forall e, E1 e -> E e) ->
  (forall a L' s', Q1 a L' s' -> l_self L' = l_self L -> spec (k a) g L' s' Q E) ->
  spec (Heap.bind m k) g L s Q E.
Proof.
  intros Hm HE Hk h Ho.
  destruct (Hm h Ho) as (res & h1 & Em & U1 & Hres).
  unfold Heap.bind. rewrite Em.
  destruct res as [a|[e|]].
  - destruct Hres as (L1 & s1 & Ho1 & [Hself G1] & HQ1).
    destruct (Hk a L1 s1 HQ1 Hself h1 Ho1) as (res2 & h2 & Ek & U2 & Hres2).
    exists res2, h2. split; [exact Ek|].
    assert (U : unchanged_outside (footprint L) h h2).
    { destruct U1 as [L1' U1], U2 as [L2' U2]. split; [lia|].
      intros b Hb Hn. rewrite U2, U1; auto; [lia|].
      intros Hin. destruct (G1 b Hin); [contradiction|lia]. }
    split; [exact U|].
    destruct res2 as [b|[e|]]; auto.
    destruct Hres2 as (L2 & s2 & Ho2 & [Hself2 G2] & HQ2).
    exists L2, s2. split; [exact Ho2|]. split; [|exact HQ2].
    split; [congruence|].
    intros c Hc. destruct (G2 c Hc) as [Hc1|Hc1].
    + apply G1; auto.
    + right. destruct U1. lia.
  - exists (inr (Heap.Raised e)), h1. auto.
  - contradiction.
Qed.

Lemma spec_weaken {A} (m : Heap.M A) g L s
    (Q1 : A -> Layout -> SchafkopfState -> Prop) (E1 : PyErr -> Prop)
    (Q : A -> Layout -> SchafkopfState -> Prop) (E : PyErr -> Prop) :
  spec m g L s Q1 E1 ->
  (forall e, E1 e -> E e) ->
  (forall a L' s', Q1 a L' s' -> Q a L' s') ->
  spec m g L s Q E.
Proof.
  intros Hm HE HQ h Ho.
  destruct (Hm h Ho) as (res & h1 & Em & U1 & Hres).
  exists res, h1. split; auto. split; auto.
  destruct res as [a|[e|]]; auto.
  destruct Hres as (L1 & s1 & Ho1 & G1 & HQ1). exists L1, s1. auto.
Qed.

Lemma spec_ret {A} (a : A) g L s :
  spec (Heap.ret a) g L s (fun a' L' s' => a' = a /\ L' = L /\ s' = s) (fun _ => False).
Proof.
  intros h Ho. exists (inl a), h. split; [reflexivity|].
  split; [apply unchanged_refl|]. exists L, s. split; auto. split; auto.
  apply grows_refl.
Qed.

Lemma spec_lift {A} (r : result A) g L s :
  spec (Heap.lift r) g L s (fun a L' s' => r = Ok a /\ L' = L /\ s' = s)
       (fun e => r = Err e).
Proof.
  destruct r as [a|e]; simpl.
  - eapply spec_weaken; [apply spec_ret | intros ? [] |].
    intros a' L' s' (-> & -> & ->). auto.
  - intros h Ho. exists (inr (Heap.Raised e)), h. split; [reflexivity|].
    split; [apply unchanged_refl|]. auto.
Qed.

Lemma footprint_distinct L :
  NoDup (footprint L) ->
  (l_self L <> l_locs L /\ l_self L <> l_tricks L /\ l_self L <> l_rets L /\
   l_self L <> l_pts L /\ l_locs L <> l_tricks L /\ l_locs L <> l_rets L /\
   l_locs L <> l_pts L /\ l_tricks L <> l_rets L /\ l_tricks L <> l_pts L /\
   l_rets L <> l_pts L) /\
  (forall a, In a (trick_addrs (l_trs L)) ->
     l_self L <> a /\ l_locs L <> a /\ l_tricks L <> a /\ l_rets L <> a /\ l_pts L <> a) /\
  NoDup (trick_addrs (l_trs L)).
Proof.
  unfold footprint. intros H.
  inversion_clear H as [|? ? N1 H1]. inversion_clear H1 as [|? ? N2 H2].
  inversion_clear H2 as [|? ? N3 H3]. inversion_clear H3 as [|? ? N4 H4].
  inversion_clear H4 as [|? ? N5 H5]. simpl in *.
  split; [|split; [|exact H5]].
  - repeat split; intros E; rewrite E in *; tauto.
  - intros a Ha. repeat split; intros E; rewrite E in *; tauto.
Qed.

Ltac apart :=
  match goal with
  | H : NoDup (footprint ?L) |- _ =>
      let D := fresh "D" in let T := fresh "T" in let N := fresh "N" in
      destruct (footprint_distinct L H)
        as ((? & ? & ? & ? & ? & ? & ? & ? & ? & ?) & T & N)
  end.

Ltac other := first [assumption | apply not_eq_sym; assumption].

(** *** The attributes and lists of a state object *)

Lemma owns_store_self h L g s s' :
  owns h L g s ->
  _card_locations s' = _card_locations s -> _tricks s' = _tricks s ->
  _returns s' = _returns s -> _points s' = _points s ->
  owns (PyList.set_nth (l_self L) (Heap.StateObject (state_obj L g s')) h) L g s'.
Proof.
  intros (H0 & H1 & H2 & H3 & H4 & H5 & H6) E1 E2 E3 E4. apart.
  unfold owns. rewrite E1, E2, E3, E4.
  split; [exact H0|]. split.
  { apply nth_error_set_nth_eq. now apply nth_error_lt in H1. }
  repeat split; try (rewrite nth_error_set_nth_neq by other; assumption).
  apply tricks_frame with h; auto.
  intros a Ha. apply nth_error_set_nth_neq. now apply T.
Qed.

Lemma owns_store_locs h L g s l :
  owns h L g s ->
  owns (PyList.set_nth (l_locs L) (Heap.CardLocationList l) h) L g
       (set_card_locations s l).
Proof.
  intros (H0 & H1 & H2 & H3 & H4 & H5 & H6). apart.
  unfold owns. simpl. split; [exact H0|].
  split; [rewrite nth_error_set_nth_neq by other; exact H1|].
  split; [apply nth_error_set_nth_eq; now apply nth_error_lt in H2|].
  repeat split; try (rewrite nth_error_set_nth_neq by other; assumption).
  apply tricks_frame with h; auto.
  intros a Ha. apply nth_error_set_nth_neq. now apply T.
Qed.

Lemma owns_store_rets h L g s l :
  owns h L g s ->
  owns (PyList.set_nth (l_rets L) (Heap.FloatList l) h) L g (set_returns s l).
Proof.
  intros (H0 & H1 & H2 & H3 & H4 & H5 & H6). apart.
  unfold owns. simpl. split; [exact H0|].
  split; [rewrite nth_error_set_nth_neq by other; exact H1|].
  split; [rewrite nth_error_set_nth_neq by other; exact H2|].
  split; [rewrite nth_error_set_nth_neq by other; exact H3|].
  split; [apply nth_error_set_nth_eq; now apply nth_error_lt in H4|].
  split; [rewrite nth_error_set_nth_neq by other; exact H5|].
  apply tricks_frame with h; auto.
  intros a Ha. apply nth_error_set_nth_neq. now apply T.
Qed.

Lemma owns_store_pts h L g s l :
  owns h L g s ->
  owns (PyList.set_nth (l_pts L) (Heap.FloatList l) h) L g (set_points s l).
Proof.
  intros (H0 & H1 & H2 & H3 & H4 & H5 & H6). apart.
  unfold owns. simpl. split; [exact H0|].
  split; [rewrite nth_error_set_nth_neq by other; exact H1|].
  split; [rewrite nth_error_set_nth_neq by other; exact H2|].
  split; [rewrite nth_error_set_nth_neq by other; exact H3|].
  split; [rewrite nth_error_set_nth_neq by other; exact H4|].
  split; [apply nth_error_set_nth_eq; now apply nth_error_lt in H5|].
  apply tricks_frame with h; auto.
  intros a Ha. apply nth_error_set_nth_neq. now apply T.
Qed.

Lemma in_footprint_self L : In (l_self L) (footprint L).
Proof. unfold footprint. simpl. auto. Qed.

Lemma in_footprint_locs L : In (l_locs L) (footprint L).
Proof. unfold footprint. simpl. auto. Qed.

Lemma in_footprint_tricks L : In (l_tricks L) (footprint L).
Proof. unfold footprint. simpl. auto. Qed.

Lemma in_footprint_rets L : In (l_rets L) (footprint L).
Proof. unfold footprint. simpl. auto. Qed.

Lemma in_footprint_pts L : In (l_pts L) (footprint L).
Proof. unfold footprint. simpl. auto 10. Qed.

Lemma in_footprint_trick L a : In a (trick_addrs (l_trs L)) -> In a (footprint L).
Proof. unfold footprint. simpl. auto 10. Qed.

Lemma spec_load_state g L s :
  spec (Heap.load_state (l_self L)) g L s
       (fun o L' s' => o = state_obj L g s /\ L' = L /\ s' = s) (fun _ => False).
Proof.
  intros h Ho. pose proof Ho as (_ & H1 & _).
  exists (inl (state_obj L g s)), h. unfold Heap.load_state. rewrite H1.
  split; [reflexivity|]. split; [apply unchanged_refl|].
  exists L, s. split; auto. split; auto. apply grows_refl.
Qed.

Lemma spec_store_self g L s s' :
  _card_locations s' = _card_locations s -> _tricks s' = _tricks s ->
  _returns s' = _returns s -> _points s' = _points s ->
  spec (Heap.store (l_self L) (Heap.StateObject (state_obj L g s'))) g L s
       (fun _ L1 s1 => L1 = L /\ s1 = s') (fun _ => False).
Proof.
  intros E1 E2 E3 E4 h Ho.
  exists (inl tt), (PyList.set_nth (l_self L) (Heap.StateObject (state_obj L g s')) h).
  split; [reflexivity|].
  split; [apply unchanged_store, in_footprint_self|].
  exists L, s'. split; [now apply owns_store_self with s|].
  split; [apply grows_refl | auto].
Qed.

Ltac load_self :=
  eapply spec_bind;
  [ apply spec_load_state | intros ? []
  | let o := fresh "o" in let L' := fresh "L" in let s' := fresh "s" in
    intros o L' s' (-> & -> & ->) _; cbn [Heap.game Heap._phase Heap._card_locations
      Heap._num_cards_played Heap._tricks Heap._returns Heap._points Heap._max_points
      Heap._next_player Heap._game_over state_obj] ].

Lemma spec_set_phase g L s v :
  spec (Heap.set_phase (l_self L) v) g L s
       (fun _ L' s' => L' = L /\ s' = set_phase s v) (fun _ => False).
Proof.
  unfold Heap.set_phase. load_self.
  now apply (spec_store_self g L s (set_phase s v)).
Qed.

Lemma spec_set_num_cards_played g L s v :
  spec (Heap.set_num_cards_played (l_self L) v) g L s
       (fun _ L' s' => L' = L /\ s' = set_num_cards_played s v) (fun _ => False).
Proof.
  unfold Heap.set_num_cards_played. load_self.
  now apply (spec_store_self g L s (set_num_cards_played s v)).
Qed.

Lemma spec_set_next_player g L s v :
  spec (Heap.set_next_player (l_self L) v) g L s
       (fun _ L' s' => L' = L /\ s' = set_next_player s v) (fun _ => False).
Proof.
  unfold Heap.set_next_player. load_self.
  now apply (spec_store_self g L s (set_next_player s v)).
Qed.

Lemma spec_set_game_over g L s v :
  spec (Heap.set_game_over (l_self L) v) g L s
       (fun _ L' s' => L' = L /\ s' = set_game_over s v) (fun _ => False).
Proof.
  unfold Heap.set_game_over. load_self.
  now apply (spec_store_self g L s (set_game_over s v)).
Qed.

Lemma spec_current_player g L s :
  spec (Heap.current_player (l_self L)) g L s
       (fun p L' s' => p = current_player s /\ L' = L /\ s' = s) (fun _ => False).
Proof.
  unfold Heap.current_player. load_self.
  eapply spec_weaken; [apply spec_ret | intros ? [] |].
  intros a L1 s1 (-> & -> & ->). auto.
Qed.

Lemma spec_next_player g L s :
  spec (Heap.next_player (l_self L)) g L s
       (fun p L' s' => p = next_player s /\ L' = L /\ s' = s) (fun _ => False).
Proof.
  unfold Heap.next_player.
  eapply spec_bind; [apply spec_current_player | intros ? [] |].
  intros p L1 s1 (-> & -> & ->) _.
  eapply spec_weaken; [apply spec_ret | intros ? [] |].
  intros a L2 s2 (-> & -> & ->). auto.
Qed.

Lemma spec_locs_setitem g L s i v :
  spec (Heap.locs_setitem (l_locs L) i v) g L s
       (fun _ L' s' => L' = L /\
          exists l, PyList.setitem (_card_locations s) i v = Ok l /\
                    s' = set_card_locations s l)
       (fun e => PyList.setitem (_card_locations s) i v = Err e).
Proof.
  intros h Ho. pose proof Ho as (_ & _ & H2 & _).
  unfold Heap.locs_setitem, Heap.bind, Heap.load_locs. rewrite H2.
  destruct (PyList.setitem (_card_locations s) i v) as [l|e]; simpl.
  - exists (inl tt), (PyList.set_nth (l_locs L) (Heap.CardLocationList l) h).
    split; [reflexivity|].
    split; [apply unchanged_store, in_footprint_locs|].
    exists L, (set_card_locations s l). split; [now apply owns_store_locs|].
    split; [apply grows_refl | eauto].
  - exists (inr (Heap.Raised e)), h. split; [reflexivity|].
    split; [apply unchanged_refl | auto].
Qed.

Lemma spec_points_getitem g L s i :
  spec (Heap.floats_getitem (l_pts L) i) g L s
       (fun x L' s' => PyList.getitem (_points s) i = Ok x /\ L' = L /\ s' = s)
       (fun e => PyList.getitem (_points s) i = Err e).
Proof.
  intros h Ho. pose proof Ho as (_ & _ & _ & _ & _ & H5 & _).
  unfold Heap.floats_getitem, Heap.bind, Heap.load_floats. rewrite H5.
  destruct (PyList.getitem (_points s) i) as [x|e]; simpl.
  - exists (inl x), h. split; [reflexivity|]. split; [apply unchanged_refl|].
    exists L, s. split; auto. split; [apply grows_refl | auto].
  - exists (inr (Heap.Raised e)), h. split; [reflexivity|].
    split; [apply unchanged_refl | auto].
Qed.

Lemma spec_points_setitem g L s i v :
  spec (Heap.floats_setitem (l_pts L) i v) g L s
       (fun _ L' s' => L' = L /\
          exists l, PyList.setitem (_points s) i v = Ok l /\ s' = set_points s l)
       (fun e => PyList.setitem (_points s) i v = Err e).
Proof.
  intros h Ho. pose proof Ho as (_ & _ & _ & _ & _ & H5 & _).
  unfold Heap.floats_setitem, Heap.bind, Heap.load_floats. rewrite H5.
  destruct (PyList.setitem (_points s) i v) as [l|e]; simpl.
  - exists (inl tt), (PyList.set_nth (l_pts L) (Heap.FloatList l) h).
    split; [reflexivity|].
    split; [apply unchanged_store, in_footprint_pts|].
    exists L, (set_points s l). split; [now apply owns_store_pts|].
    split; [apply grows_refl | eauto].
  - exists (inr (Heap.Raised e)), h. split; [reflexivity|].
    split; [apply unchanged_refl | auto].
Qed.

Lemma spec_returns_setitem g L s i v :
  spec (Heap.floats_setitem (l_rets L) i v) g L s
       (fun _ L' s' => L' = L /\
          exists l, PyList.setitem (_returns s) i v = Ok l /\ s' = set_returns s l)
       (fun e => PyList.setitem (_returns s) i v = Err e).
Proof.
  intros h Ho. pose proof Ho as (_ & _ & _ & _ & H4 & _).
  unfold Heap.floats_setitem, Heap.bind, Heap.load_floats. rewrite H4.
  destruct (PyList.setitem (_returns s) i v) as [l|e]; simpl.
  - exists (inl tt), (PyList.set_nth (l_rets L) (Heap.FloatList l) h).
    split; [reflexivity|].
    split; [apply unchanged_store, in_footprint_rets|].
    exists L, (set_returns s l). split; [now apply owns_store_rets|].
    split; [apply grows_refl | eauto].
  - exists (inr (Heap.Raised e)), h. split; [reflexivity|].
    split; [apply unchanged_refl | auto].
Qed.

(** *** The tricks of a state object *)

Lemma last_case {A} (l : list A) : l = [] \/ exists l' x, l = l' ++ [x].
Proof.
  induction l as [|x l' _] using rev_ind; [left|right]; eauto.
Qed.

Lemma tricks_last h trs tc ts t :
  Forall2 (trick_at h) (trs ++ [tc]) (ts ++ [t]) ->
  Forall2 (trick_at h) trs ts /\ trick_at h tc t.
Proof.
  intros H. apply Forall2_app_inv_l in H as (l1 & l2 & H1 & H2 & E).
  inversion H2 as [|? t' ? ? Ht H3]; subst. inversion H3; subst.
  apply app_inj_tail in E as [-> ->]. auto.
Qed.

Lemma trick_addrs_last trs a c x :
  In x (trick_addrs (trs ++ [(a, c)])) <-> x = a \/ x = c \/ In x (trick_addrs trs).
Proof.
  unfold trick_addrs. rewrite !map_app, !in_app_iff. simpl. intuition.
Qed.

Lemma NoDup_trick_addrs_last trs a c :
  NoDup (trick_addrs (trs ++ [(a, c)])) ->
  a <> c /\ ~ In a (trick_addrs trs) /\ ~ In c (trick_addrs trs).
Proof.
  unfold trick_addrs. rewrite !map_app. simpl. intros H.
  assert (P : Permutation ((map fst trs ++ [a]) ++ map snd trs ++ [c])
                          (a :: c :: map fst trs ++ map snd trs)).
  { rewrite <- app_assoc. simpl. apply Permutation_sym, Permutation_cons_app.
    rewrite app_assoc. apply Permutation_cons_append. }
  apply (Permutation_NoDup P) in H.
  inversion_clear H as [|? ? Na H1]. inversion_clear H1 as [|? ? Nc _].
  simpl in Na. split; [|split; [|exact Nc]].
  - intros E. apply Na. left. now symmetry.
  - intros Hin. apply Na. now right.
Qed.

(** The open trick of a state replaced by one of another value, at the
    same two objects. *)
Lemma owns_last_trick h h' L g s trs a c ts t t' :
  owns h L g s -> l_trs L = trs ++ [(a, c)] -> _tricks s = ts ++ [t] ->
  (forall b, b <> a -> b <> c -> nth_error h' b = nth_error h b) ->
  trick_at h' (a, c) t' ->
  owns h' L g (set_tricks s (ts ++ [t'])).
Proof.
  intros (H0 & H1 & H2 & H3 & H4 & H5 & H6) EL Es Hsame Ht'. apart.
  rewrite EL, Es in H6. apply tricks_last in H6 as [H6 _].
  rewrite EL in N. apply NoDup_trick_addrs_last in N as (Nac & Na & Nc).
  assert (Ta : In a (trick_addrs (l_trs L))) by (rewrite EL; apply trick_addrs_last; auto).
  assert (Tc : In c (trick_addrs (l_trs L))) by (rewrite EL; apply trick_addrs_last; auto).
  apply T in Ta, Tc.
  unfold owns. simpl. split; [exact H0|].
  repeat split; try (rewrite Hsame by tauto; assumption).
  rewrite EL. apply Forall2_app; [|constructor; [exact Ht'|constructor]].
  apply tricks_frame with h; auto.
  intros b Hb. apply Hsame; intros ->; contradiction.
Qed.

Lemma spec_tricks_last g L s :
  spec (Heap.refs_getitem (l_tricks L) (-1)) g L s
       (fun a L' s' => L' = L /\ s' = s /\
          exists trs c ts t, l_trs L = trs ++ [(a, c)] /\ _tricks s = ts ++ [t])
       (fun e => e = IndexError /\ _tricks s = []).
Proof.
  intros h Ho. pose proof Ho as (_ & _ & _ & H3 & _ & _ & H6).
  unfold Heap.refs_getitem, Heap.bind, Heap.load_refs. rewrite H3.
  destruct (last_case (l_trs L)) as [E|(trs & [a c] & E)]; rewrite E in *.
  - inversion H6 as [Ets|]. simpl map. rewrite getitem_nil. simpl.
    exists (inr (Heap.Raised IndexError)), h. split; [reflexivity|].
    split; [apply unchanged_refl | auto].
  - destruct (last_case (_tricks s)) as [Es|(ts & t & Es)]; rewrite Es in H6.
    { apply Forall2_length in H6. rewrite length_app in H6. simpl in H6. lia. }
    rewrite map_app. simpl map. rewrite getitem_last. simpl.
    exists (inl a), h. split; [reflexivity|]. split; [apply unchanged_refl|].
    exists L, s. split; auto. split; [apply grows_refl|].
    split; auto. split; auto. exists trs, c, ts, t. auto.
Qed.

Lemma spec_play_card g L s trs a c ts t card :
  l_trs L = trs ++ [(a, c)] -> _tricks s = ts ++ [t] ->
  spec (Heap.play_card a card) g L s
       (fun _ L' s' => L' = L /\ s' = set_tricks s (ts ++ [play_card t card]))
       (fun _ => False).
Proof.
  intros EL Es h Ho. pose proof Ho as (H0 & _ & _ & _ & _ & _ & H6).
  rewrite EL, Es in H6. apply tricks_last in H6 as [_ [Ha Hc]]. simpl in Ha, Hc.
  apart. rewrite EL in N. apply NoDup_trick_addrs_last in N as (Nac & _).
  assert (Fa : In a (footprint L)).
  { apply in_footprint_trick. rewrite EL. apply trick_addrs_last. auto. }
  assert (Fc : In c (footprint L)).
  { apply in_footprint_trick. rewrite EL. apply trick_addrs_last. auto. }
  unfold Heap.play_card, Heap.bind, Heap.load_trick, Heap.load_ints. rewrite Ha.
  cbn [Heap._cards Heap._leader Heap._led_suit]. rewrite Hc.
  destruct (length (_cards t) =? 0)%nat eqn:El.
  - unfold Heap.store at 1, Heap.ints_append, Heap.bind, Heap.load_ints, Heap.store.
    rewrite nth_error_set_nth_neq, Hc by exact Nac.
    eexists (inl tt), _. split; [reflexivity|]. split.
    { eapply unchanged_trans; apply unchanged_store; assumption. }
    exists L, (set_tricks s (ts ++ [play_card t card])).
    split; [|split; [apply grows_refl | auto]].
    apply owns_last_trick with h trs a c t; auto.
    + intros b Hb1 Hb2. now rewrite !nth_error_set_nth_neq by other.
    + split; simpl.
      * rewrite nth_error_set_nth_neq by other. rewrite El.
        apply nth_error_set_nth_eq. now apply nth_error_lt in Ha.
      * apply nth_error_set_nth_eq. rewrite length_set_nth.
        now apply nth_error_lt in Hc.
  - unfold Heap.ret, Heap.ints_append, Heap.bind, Heap.load_ints, Heap.store.
    rewrite Hc.
    eexists (inl tt), _. split; [reflexivity|]. split.
    { apply unchanged_store; assumption. }
    exists L, (set_tricks s (ts ++ [play_card t card])).
    split; [|split; [apply grows_refl | auto]].
    apply owns_last_trick with h trs a c t; auto.
    + intros b Hb1 Hb2. now rewrite !nth_error_set_nth_neq by other.
    + split; simpl.
      * rewrite nth_error_set_nth_neq by other. now rewrite El.
      * apply nth_error_set_nth_eq. now apply nth_error_lt in Hc.
Qed.

Lemma spec_read_trick g L s trs a c ts t :
  l_trs L = trs ++ [(a, c)] -> _tricks s = ts ++ [t] ->
  spec (Heap.read_trick a) g L s
       (fun t' L' s' => t' = t /\ L' = L /\ s' = s) (fun _ => False).
Proof.
  intros EL Es h Ho. pose proof Ho as (_ & _ & _ & _ & _ & _ & H6).
  rewrite EL, Es in H6. apply tricks_last in H6 as [_ [Ha Hc]]. simpl in Ha, Hc.
  unfold Heap.read_trick, Heap.bind, Heap.load_trick, Heap.load_ints. rewrite Ha.
  cbn [Heap._cards Heap._leader Heap._led_suit]. rewrite Hc.
  exists (inl t), h. split; [now destruct t|]. split; [apply unchanged_refl|].
  exists L, s. split; auto. split; [apply grows_refl | auto].
Qed.

Lemma spec_winner g L s trs a c ts t :
  l_trs L = trs ++ [(a, c)] -> _tricks s = ts ++ [t] ->
  spec (Heap.winner a) g L s
       (fun w L' s' => winner t = Ok w /\ L' = L /\ s' = s)
       (fun e => winner t = Err e).
Proof.
  intros EL Es. unfold Heap.winner.
  eapply spec_bind; [eapply spec_read_trick; eassumption | intros ? [] |].
  intros t' L' s' (-> & -> & ->) _. apply spec_lift.
Qed.

Lemma spec_points g L s trs a c ts t :
  l_trs L = trs ++ [(a, c)] -> _tricks s = ts ++ [t] ->
  spec (Heap.points a) g L s
       (fun x L' s' => x = points t /\ L' = L /\ s' = s) (fun _ => False).
Proof.
  intros EL Es. unfold Heap.points.
  eapply spec_bind; [eapply spec_read_trick; eassumption | intros ? [] |].
  intros t' L' s' (-> & -> & ->) _. apply spec_ret.
Qed.

Lemma footprint_add_trick L a c :
  Permutation (a :: c :: footprint L) (footprint (add_trick L (a, c))).
Proof.
  unfold footprint, add_trick, trick_addrs. simpl. rewrite !map_app. simpl.
  set (F := map fst (l_trs L)). set (S := map snd (l_trs L)).
  change (Permutation
            (a :: c :: [l_self L; l_locs L; l_tricks L; l_rets L; l_pts L] ++ F ++ S)
            ([l_self L; l_locs L; l_tricks L; l_rets L; l_pts L]
               ++ (F ++ [a]) ++ S ++ [c])).
  set (X := [l_self L; l_locs L; l_tricks L; l_rets L; l_pts L]).
  replace ((F ++ [a]) ++ S ++ [c]) with (F ++ a :: S ++ [c])
    by (now rewrite <- app_assoc).
  rewrite (app_assoc X F (a :: S ++ [c])). apply Permutation_cons_app.
  replace ((X ++ F) ++ S ++ [c]) with ((X ++ F ++ S) ++ [c])
    by (now rewrite <- !app_assoc).
  apply Permutation_cons_append.
Qed.

(** [self._tricks.append(SchafkopfTrick(leader))]: two new objects, which
    join the layout. *)
Lemma spec_append_new_trick g L s leader :
  spec (Heap.append_new_trick (l_tricks L) leader) g L s
       (fun _ L' s' => (exists tc, L' = add_trick L tc) /\
          s' = set_tricks s (_tricks s ++ [SchafkopfTrick_init leader]))
       (fun _ => False).
Proof.
  intros h Ho. pose proof Ho as (H0 & H1 & H2 & H3 & H4 & H5 & H6). apart.
  assert (Hlt : forall b, In b (footprint L) -> (b < length h)%nat)
    by (intros b; apply owns_lt with g s; exact Ho).
  cbv beta iota delta [Heap.append_new_trick Heap.SchafkopfTrick_init Heap.bind
    Heap.alloc Heap.refs_append Heap.load_refs Heap.store].
  rewrite (nth_error_before _ _ _ _ (nth_error_before _ _ _ _ H3)).
  rewrite length_app. simpl length.
  set (a := (length h + 1)%nat). set (c := length h).
  set (h' := PyList.set_nth _ _ _).
  exists (inl tt), h'. split; [reflexivity|].
  assert (Hold : forall b, (b < length h)%nat -> b <> l_tricks L ->
                           nth_error h' b = nth_error h b).
  { intros b Hb Hn. unfold h'. rewrite nth_error_set_nth_neq by other.
    rewrite <- app_assoc. now apply nth_error_app1. }
  split.
  { split.
    - unfold h'. rewrite length_set_nth, !length_app. lia.
    - intros b Hb Hn. apply Hold; auto. intros ->. apply Hn, in_footprint_tricks. }
  exists (add_trick L (a, c)), (set_tricks s (_tricks s ++ [SchafkopfTrick_init leader])).
  assert (Hat : (l_tricks L < length h)%nat) by (apply Hlt, in_footprint_tricks).
  split; [|split; [|split; eauto]].
  - unfold owns. cbn [add_trick l_self l_locs l_tricks l_rets l_pts l_trs].
    split.
    { apply (Permutation_NoDup (footprint_add_trick L a c)).
      constructor; [|constructor; [|exact H0]].
      - intros [E|Hin]; [unfold a, c in E; lia|].
        apply Hlt in Hin. unfold a in Hin. lia.
      - intros Hin. apply Hlt in Hin. unfold c in Hin. lia. }
    split.
    { rewrite Hold; [exact H1 | apply Hlt, in_footprint_self | other]. }
    split.
    { simpl. rewrite Hold; [exact H2 | apply Hlt, in_footprint_locs | other]. }
    split.
    { rewrite map_app. simpl map. unfold h'. apply nth_error_set_nth_eq.
      rewrite !length_app. lia. }
    split.
    { simpl. rewrite Hold; [exact H4 | apply Hlt, in_footprint_rets | other]. }
    split.
    { simpl. rewrite Hold; [exact H5 | apply Hlt, in_footprint_pts | other]. }
    simpl _tricks. apply Forall2_app.
    + apply tricks_frame with h; auto. intros b Hb.
      apply Hold; [apply Hlt; now apply in_footprint_trick|].
      apply not_eq_sym. now apply T.
    + constructor; [|constructor]. split; simpl.
      * unfold h'. rewrite nth_error_set_nth_neq by (unfold a; lia).
        unfold a. rewrite <- app_assoc.
        rewrite (nth_error_after h _ 1). reflexivity.
      * unfold h'. rewrite nth_error_set_nth_neq by (unfold c; lia).
        unfold c. rewrite <- app_assoc.
        rewrite <- (Nat.add_0_r (length h)) at 2.
        rewrite (nth_error_after h _ 0). reflexivity.
  - split; [reflexivity|]. intros b Hb.
    apply (Permutation_in _ (Permutation_sym (footprint_add_trick L a c))) in Hb.
    destruct Hb as [<-|[<-|Hb]]; auto; right; unfold a, c; lia.
Qed.

(** *** The methods of a state object *)

Ltac projections :=
  cbn [Heap.game Heap._phase Heap._card_locations Heap._num_cards_played Heap._tricks
       Heap._returns Heap._points Heap._max_points Heap._next_player Heap._game_over
       state_obj l_self l_locs l_tricks l_rets l_pts l_trs add_trick
       _phase _card_locations _num_cards_played _tricks _returns _points _max_points
       _next_player _game_over set_phase set_card_locations set_num_cards_played
       set_tricks set_returns set_points set_next_player set_game_over].

Lemma spec_legal_deal_actions g L s :
  spec (Heap._legal_deal_actions (l_self L)) g L s
       (fun a L' s' => a = _legal_deal_actions s /\ L' = L /\ s' = s) (fun _ => False).
Proof.
  unfold Heap._legal_deal_actions. load_self.
  intros h Ho. pose proof Ho as (_ & _ & H2 & _).
  unfold Heap.bind, Heap.load_locs, Heap.ret. rewrite H2.
  eexists (inl _), h. split; [reflexivity|]. split; [apply unchanged_refl|].
  exists L, s. split; auto. split; [apply grows_refl | auto].
Qed.

Lemma spec_apply_deal_action g L s card :
  spec (Heap._apply_deal_action (l_self L) card) g L s
       (fun _ L' s' => L' = L /\ _apply_deal_action s card = Ok s')
       (fun e => _apply_deal_action s card = Err e).
Proof.
  unfold Heap._apply_deal_action, _apply_deal_action. cbv zeta.
  eapply spec_bind; [apply spec_legal_deal_actions | intros ? [] |].
  intros cl L1 s1 (-> & -> & ->) _.
  eapply spec_bind; [apply spec_lift | intros e He; now rewrite He |].
  intros rp L1 s1 (Hrp & -> & ->) _. rewrite Hrp. cbn [bind].
  load_self.
  eapply spec_bind; [apply spec_locs_setitem | intros e He; now rewrite He |].
  intros [] L1 s1 (-> & l & Hl & ->) _. rewrite Hl. cbn [bind].
  destruct (length (_legal_deal_actions s) =? 1)%nat.
  - eapply spec_bind; [apply spec_set_phase | intros ? [] |].
    intros [] L1 s1 (-> & ->) _.
    eapply spec_weaken; [apply spec_set_next_player | intros ? [] |].
    intros [] L1 s1 (-> & ->). auto.
  - eapply spec_weaken; [apply spec_ret | intros ? [] |].
    intros [] L1 s1 (_ & -> & ->). auto.
Qed.

Lemma spec_set_return g L s pi :
  spec (Heap.set_return (l_self L) pi) g L s
       (fun _ L' s' => L' = L /\ set_return s pi = Ok s')
       (fun e => set_return s pi = Err e).
Proof.
  unfold Heap.set_return, set_return. load_self.
  eapply spec_bind; [apply spec_points_getitem | intros e He; now rewrite He |].
  intros pts L1 s1 (Hpts & -> & ->) _. rewrite Hpts. cbn [bind].
  eapply spec_bind; [apply spec_lift | intros e He; now rewrite He |].
  intros q L1 s1 (Hq & -> & ->) _. rewrite Hq. cbn [bind].
  eapply spec_weaken; [apply spec_returns_setitem | intros e He; now rewrite He |].
  intros [] L1 s1 (-> & l & Hl & ->). rewrite Hl. auto.
Qed.

Lemma spec_fill_returns g L l : forall s,
  spec (Heap.for_each (Heap.set_return (l_self L)) l) g L s
       (fun _ L' s' => L' = L /\ for_each set_return s l = Ok s')
       (fun e => for_each set_return s l = Err e).
Proof.
  induction l as [|pi l IH]; intros s; simpl.
  - eapply spec_weaken; [apply spec_ret | intros ? [] |].
    intros [] L1 s1 (_ & -> & ->). auto.
  - eapply spec_bind; [apply spec_set_return | intros e He; now rewrite He |].
    intros [] L1 s1 (-> & Hs1) _. rewrite Hs1. cbn [bind]. apply IH.
Qed.

Lemma spec_play_to_trick g L s card :
  spec (Heap.play_to_trick (l_self L) card) g L s
       (fun _ L' s' => L' = L /\
          exists s1, play_in_last_trick s card = Ok s1 /\ move_to_trick s1 card = Ok s')
       (fun e => play_in_last_trick s card = Err e \/
          exists s1, play_in_last_trick s card = Ok s1 /\ move_to_trick s1 card = Err e).
Proof.
  unfold Heap.play_to_trick. load_self.
  eapply spec_bind; [apply spec_tricks_last | |].
  { intros e [-> Ets]. left. unfold play_in_last_trick, last_trick.
    now rewrite Ets, getitem_nil. }
  intros a L1 s1 (-> & -> & trs & c & ts & t & EL & Es) _.
  assert (Hplay : play_in_last_trick s card
                  = Ok (set_tricks s (ts ++ [play_card t card]))).
  { unfold play_in_last_trick, last_trick.
    rewrite Es, getitem_last. cbn [bind]. now rewrite setitem_last. }
  eapply spec_bind; [eapply spec_play_card; eassumption | intros ? [] |].
  intros [] L1 s1 (-> & ->) _.
  eapply spec_bind; [apply spec_locs_setitem | |].
  { intros e He. right. eexists. split; [exact Hplay|].
    unfold move_to_trick. now rewrite He. }
  intros [] L1 s1 (-> & l & Hl & ->) _.
  load_self.
  eapply spec_weaken; [apply spec_set_num_cards_played | intros ? [] |].
  intros [] L1 s1 (-> & ->). split; auto.
  eexists. split; [exact Hplay|]. unfold move_to_trick. now rewrite Hl.
Qed.

(** [_apply_action] on the object does what the embedding says of its
    state, exceptions included, and touches no object but its own. *)
Lemma spec_apply_action g L s card :
  spec (Heap._apply_action (l_self L) card) g L s
       (fun _ L' s' => _apply_action s card = Ok s')
       (fun e => _apply_action s card = Err e).
Proof.
  unfold Heap._apply_action, _apply_action. load_self.
  destruct (phase_eqb (_phase s) Deal).
  { eapply spec_weaken; [apply spec_apply_deal_action | auto |].
    intros [] L1 s1 (-> & H). exact H. }
  destruct (_num_cards_played s mod _NUM_PLAYERS =? 0).
  - eapply spec_bind; [apply spec_current_player | intros ? [] |].
    intros p L1 s1 (-> & -> & ->) _.
    eapply spec_bind; [apply spec_append_new_trick | intros ? [] |].
    intros [] L1 s1 ([tc ->] & ->) _.
    eapply spec_bind;
      [apply (spec_play_to_trick g (add_trick L tc)) | |].
    { intros e [He|(s1 & Hs1 & He)].
      - now rewrite He.
      - rewrite Hs1. cbn [bind]. now rewrite He. }
    intros [] L1 s2 (-> & s1 & Hs1 & Hs2) _.
    rewrite Hs1. cbn [bind]. rewrite Hs2. cbn [bind].
    eapply spec_bind;
      [apply (spec_next_player g (add_trick L tc)) | intros ? [] |].
    intros np L1 s3 (-> & -> & ->) _.
    eapply spec_weaken;
      [apply (spec_set_next_player g (add_trick L tc)) | intros ? [] |].
    intros [] L1 s3 (-> & ->). reflexivity.
  - eapply spec_bind; [apply spec_play_to_trick | |].
    { intros e [He|(s1 & Hs1 & He)].
      - now rewrite He.
      - rewrite Hs1. cbn [bind]. now rewrite He. }
    intros [] L1 s2 (-> & s1 & Hs1 & Hs2) _.
    rewrite Hs1. cbn [bind]. rewrite Hs2. cbn [bind].
    load_self.
    destruct (_num_cards_played s2 mod _NUM_PLAYERS =? 0).
    + eapply spec_bind; [apply spec_tricks_last | |].
      { intros e [-> Ets]. unfold last_trick. now rewrite Ets, getitem_nil. }
      intros a L1 s3 (-> & -> & trs & c & ts & t & EL & Es) _.
      unfold last_trick. rewrite Es, getitem_last. cbn [bind].
      eapply spec_bind; [eapply spec_winner; eassumption | intros e He; now rewrite He |].
      intros w L1 s3 (Hw & -> & ->) _. rewrite Hw. cbn [bind].
      eapply spec_bind; [apply spec_points_getitem | intros e He; now rewrite He |].
      intros old L1 s3 (Hold & -> & ->) _. rewrite Hold. cbn [bind].
      eapply spec_bind; [apply spec_tricks_last | |].
      { intros e [_ Ets]. rewrite Es in Ets. now destruct ts. }
      intros a' L1 s3 (-> & -> & trs' & c' & ts' & t' & EL' & Es') _.
      assert (a' = a /\ t' = t) as [-> ->].
      { rewrite EL in EL'. apply app_inj_tail in EL' as [_ [= <- _]].
        rewrite Es in Es'. apply app_inj_tail in Es' as [_ <-]. auto. }
      eapply spec_bind; [eapply spec_points; eassumption | intros ? [] |].
      intros pts L1 s3 (-> & -> & ->) _.
      eapply spec_bind; [apply spec_points_setitem | intros e He; now rewrite He |].
      intros [] L1 s3 (-> & l & Hl & ->) _. rewrite Hl. cbn [bind]. cbv zeta.
      projections.
      destruct (_num_cards_played s2 =? _NUM_CARDS).
      * eapply spec_bind; [apply spec_set_game_over | intros ? [] |].
        intros [] L1 s3 (-> & ->) _.
        eapply spec_weaken; [apply spec_fill_returns | auto |].
        intros [] L1 s3 (-> & H). exact H.
      * eapply spec_weaken; [apply spec_set_next_player | intros ? [] |].
        intros [] L1 s3 (-> & ->). reflexivity.
    + eapply spec_bind; [apply spec_next_player | intros ? [] |].
      intros np L1 s3 (-> & -> & ->) _.
      eapply spec_weaken; [apply spec_set_next_player | intros ? [] |].
      intros [] L1 s3 (-> & ->). reflexivity.
Qed.

(** *** Replays *)

Lemma replay_cons_ok s a rest s' :
  _apply_action s a = Ok s' ->
  fst (replay s (a :: rest)) = s' :: fst (replay s' rest) /\
  snd (replay s (a :: rest)) = snd (replay s' rest).
Proof. intros H. simpl. rewrite H. now destruct (replay s' rest). Qed.

Lemma replay_cons_err s a rest e :
  _apply_action s a = Err e -> replay s (a :: rest) = ([], Some e).
Proof. intros H. simpl. now rewrite H. Qed.

Lemma tracks_lt h acts p F a : tracks h acts p F -> In a F -> (a < length h)%nat.
Proof.
  intros [(_ & L & g & s & _ & -> & Ho & _)|(e & _ & -> & _)] Ha.
  - eapply owns_lt; eauto.
  - contradiction.
Qed.

(** A replay is not disturbed by calls on objects that are not its own. *)
Lemma tracks_unchanged h h' acts p F G :
  tracks h acts p F -> unchanged_outside G h h' ->
  (forall a, In a F -> ~ In a G) ->
  tracks h' acts p F.
Proof.
  intros [(Hr & L & g & s & Hself & -> & Ho & Hlog)|H] U Hd; [left|right; exact H].
  split; [exact Hr|]. exists L, g, s.
  split; [exact Hself|]. split; [reflexivity|]. split; [|exact Hlog].
  eapply owns_unchanged; eauto.
Qed.

(** One more action of a replay. *)
Lemma tracks_advance h acts p F p' h' :
  tracks h acts p F -> Heap.advance p h = (p', h') ->
  exists F',
    tracks h' acts p' F' /\ unchanged_outside F h h' /\
    (forall a, In a F' -> In a F \/ (length h <= a)%nat).
Proof.
  intros Ht Ha. pose proof Ht as [(Hr & L & g & s & Hself & -> & Ho & Hlog & Herr)|H].
  - unfold Heap.advance in Ha. rewrite Hr in Ha.
    destruct (Heap.todo p) as [|a rest] eqn:Etodo.
    { injection Ha as <- <-. exists (footprint L).
      split; [exact Ht|]. split; [apply unchanged_refl | auto]. }
    destruct (spec_apply_action g L s a h Ho) as (res & h1 & Eq & U & Hres).
    rewrite Hself in Eq. rewrite Eq in Ha.
    destruct res as [[]|[e|]]; [| |contradiction].
    + destruct Hres as (L' & s' & Ho' & [Hself' G] & Hs').
      injection Ha as <- <-. exists (footprint L').
      split; [|split; [exact U | exact G]].
      left. cbn [Heap.raised Heap.ref Heap.todo Heap.log]. split; [reflexivity|].
      exists L', g, s'. split; [congruence|]. split; [reflexivity|].
      split; [exact Ho'|].
      destruct (replay_cons_ok s a rest s' Hs') as [E1 E2].
      rewrite E1 in Hlog. rewrite E2 in Herr.
      rewrite <- Hself, <- Hself', (owns_snapshot _ _ _ _ Ho').
      rewrite <- app_assoc. simpl. auto.
    + injection Ha as <- <-. exists [].
      split; [|split; [exact U | intros ? []]].
      right. exists e. cbn [Heap.raised Heap.ref Heap.todo Heap.log].
      rewrite (replay_cons_err s a rest e Hres) in Hlog, Herr. simpl in Hlog, Herr.
      rewrite app_nil_r in Hlog. auto.
  - destruct H as (e & Hr & -> & Hlog).
    unfold Heap.advance in Ha. rewrite Hr in Ha. injection Ha as <- <-.
    exists []. split; [exact Ht|]. split; [apply unchanged_refl | auto].
Qed.

(** Two replays with no object in common, advanced in any order. *)
Lemma interleave_tracks acts schedule : forall p1 p2 h F1 F2 q1 q2 h',
  tracks h acts p1 F1 -> tracks h acts p2 F2 ->
  (forall a, In a F1 -> ~ In a F2) ->
  Heap.interleave schedule p1 p2 h = (q1, q2, h') ->
  exists G1 G2, tracks h' acts q1 G1 /\ tracks h' acts q2 G2.
Proof.
  induction schedule as [|[|] schedule IH]; intros p1 p2 h F1 F2 q1 q2 h' T1 T2 Hd Hrun.
  - injection Hrun as <- <- <-. eauto.
  - simpl in Hrun. destruct (Heap.advance p1 h) as [p1' h1] eqn:Ea.
    destruct (tracks_advance h acts p1 F1 p1' h1 T1 Ea) as (F1' & T1' & U & G).
    apply (IH p1' p2 h1 F1' F2 q1 q2 h'); auto.
    + apply tracks_unchanged with h F1; auto. intros a Ha2 Ha1. now apply (Hd a).
    + intros a Ha1 Ha2. destruct (G a Ha1) as [Hin|Hge].
      * now apply (Hd a).
      * apply (tracks_lt h acts p2 F2 a T2) in Ha2. lia.
  - simpl in Hrun. destruct (Heap.advance p2 h) as [p2' h1] eqn:Ea.
    destruct (tracks_advance h acts p2 F2 p2' h1 T2 Ea) as (F2' & T2' & U & G).
    apply (IH p1 p2' h1 F1 F2' q1 q2 h'); auto.
    + apply tracks_unchanged with h F2; auto.
    + intros a Ha1 Ha2. destruct (G a Ha2) as [Hin|Hge].
      * now apply (Hd a).
      * apply (tracks_lt h acts p1 F1 a T1) in Ha1. lia.
Qed.

Lemma tracks_prefix h acts p F :
  tracks h acts p F ->
  exists rest, Heap.log p ++ rest = map Some (fst (replay SchafkopfState_init acts)).
Proof.
  intros [(_ & L & g & s & _ & _ & _ & Hlog & _)|(e & _ & _ & Hlog & _)].
  - eauto.
  - exists []. now rewrite app_nil_r.
Qed.

Lemma tracks_finished h acts p F :
  tracks h acts p F -> Heap.finished p ->
  Heap.log p = map Some (fst (replay SchafkopfState_init acts)) /\
  Heap.raised p = option_map Heap.Raised (snd (replay SchafkopfState_init acts)).
Proof.
  intros [(Hr & L & g & s & _ & _ & _ & Hlog & Herr)|(e & Hr & _ & Hlog & Herr)] Hf.
  - rewrite (Hf Hr) in Hlog, Herr. simpl in Hlog, Herr.
    rewrite app_nil_r in Hlog. rewrite <- Herr. auto.
  - rewrite Herr. auto.
Qed.

(** [new_initial_state] makes its objects anew. *)
Lemma new_initial_state_owns g h :
  exists r h' L,
    Heap.new_initial_state g h = (inl r, h') /\
    unchanged_outside [] h h' /\
    l_self L = r /\ owns h' L g SchafkopfState_init /\
    (forall a, In a (footprint L) -> (length h <= a)%nat).
Proof.
  set (o1 := Heap.CardLocationList (repeat Deck (Z.to_nat _NUM_CARDS))).
  set (o2 := Heap.TrickList []).
  set (o3 := Heap.FloatList (repeat (PyFloat.of_Z 0) (Z.to_nat _NUM_PLAYERS))).
  set (n := length h).
  set (o5 := Heap.StateObject
               (Heap.mkStateObj g Deal n 0 (n + 1)%nat (n + 2)%nat (n + 3)%nat
                  (fold_left (fun acc c => acc + CardValue c) (PyList.range _NUM_CARDS) 0)
                  PlayerId.CHANCE false)).
  exists (n + 4)%nat, (h ++ [o1; o2; o3; o3; o5]),
    (mkLayout (n + 4)%nat n (n + 1)%nat (n + 2)%nat (n + 3)%nat []).
  split.
  { cbv beta iota zeta delta [Heap.new_initial_state Heap.SchafkopfState_init Heap.bind
                         Heap.alloc].
    rewrite !length_app. simpl length. fold n.
    replace (n + 1 + 1)%nat with (n + 2)%nat by lia.
    replace (n + 2 + 1)%nat with (n + 3)%nat by lia.
    replace (n + 3 + 1)%nat with (n + 4)%nat by lia.
    rewrite <- !app_assoc. reflexivity. }
  split; [apply unchanged_alloc|]. split; [reflexivity|]. split.
  - unfold owns, footprint, trick_addrs.
    cbn [l_self l_locs l_tricks l_rets l_pts l_trs map app].
    split.
    { repeat (constructor; [simpl; lia|]). constructor. }
    unfold n.
    rewrite (nth_error_after h _ 4), (nth_error_after h _ 1),
      (nth_error_after h _ 2), (nth_error_after h _ 3).
    rewrite nth_error_app2, Nat.sub_diag by lia.
    repeat split. constructor.
  - unfold footprint, trick_addrs. simpl. intros a Ha. lia.
Qed.

(** * The claims *)

(** C9: a non-empty parameter configuration makes the Observer constructor
    raise [ValueError]; the constructor takes no game state, so the error
    comes before any state is read.  With no configuration ([None] or the
    empty dict) the constructor succeeds: the flat tensor has 66 zero
    entries and the seven named views tile it in order. *)
Theorem observer_init_configuration :
  (forall (T V : Type) (iig_obs_type : T) (p : String.string * V)
          (ps : list (String.string * V)),
      SchafkopfObserver_init iig_obs_type (Some (p :: ps)) = Err ValueError) /\
  (forall (T V : Type) (iig_obs_type : T),
      let layout :=
        [("player"%string, mkView 0 3 [3]);
         ("private_cards"%string, mkView 3 21 [3; 6]);
         ("solo_player"%string, mkView 21 24 [3]);
         ("cur_trick_leader"%string, mkView 24 27 [3]);
         ("cur_trick"%string, mkView 27 45 [3; 6]);
         ("prev_trick_leader"%string, mkView 45 48 [3]);
         ("prev_trick"%string, mkView 48 66 [3; 6])] in
      SchafkopfObserver_init (V := V) iig_obs_type None =
        Ok (mkObserver (repeat (PyFloat.of_Z 0) 66) layout) /\
      SchafkopfObserver_init (V := V) iig_obs_type (Some []) =
        Ok (mkObserver (repeat (PyFloat.of_Z 0) 66) layout)).
Proof.
  split.
  - reflexivity.
  - intros T V o layout. split; vm_compute; reflexivity.
Qed.

(** C10: determinism, on the objects themselves.  One transition: whatever
    else the heap holds, wherever the objects of a state are and whichever
    game object the state was made for, [_apply_action] on a state object
    that holds [s] returns or raises as the function [_apply_action s card]
    of the embedding says, leaves the object holding the state that function
    gives, and changes no object that is not the state's own.  Replays: two
    calls of [new_initial_state], on any heap and for any game objects, give
    two different objects that hold the initial state; when one sequence of
    actions is applied to both, their calls interleaved in any order, each
    object goes through the states the embedding computes from the sequence
    alone, so the two replays see the same states (phase, card locations,
    play count, tricks, points, next player and the rest) and the same
    returns after every action, and raise the same exception at the same
    action if they raise. *)
Theorem replay_deterministic :
  (forall h L g s card,
     owns h L g s ->
     exists res h',
       Heap._apply_action (l_self L) card h = (res, h') /\
       unchanged_outside (footprint L) h h' /\
       match _apply_action s card with
       | Ok s' => res = inl tt /\ Heap.snapshot h' (l_self L) = Some s'
       | Err e => res = inr (Heap.Raised e)
       end) /\
  (forall h0 game1 game2 acts,
   exists r1 h1 r2 h2,
     Heap.new_initial_state game1 h0 = (inl r1, h1) /\
     Heap.new_initial_state game2 h1 = (inl r2, h2) /\
     r1 <> r2 /\
     Heap.snapshot h2 r1 = Some SchafkopfState_init /\
     Heap.snapshot h2 r2 = Some SchafkopfState_init /\
     forall schedule p1 p2 h,
       Heap.interleave schedule (Heap.start r1 acts) (Heap.start r2 acts) h2
         = (p1, p2, h) ->
       (exists rest,
          Heap.log p1 ++ rest = map Some (fst (replay SchafkopfState_init acts))) /\
       (exists rest,
          Heap.log p2 ++ rest = map Some (fst (replay SchafkopfState_init acts))) /\
       (Heap.finished p1 -> Heap.finished p2 ->
        Heap.log p1 = Heap.log p2 /\
        map (option_map returns) (Heap.log p1)
          = map (option_map returns) (Heap.log p2) /\
        Heap.raised p1 = Heap.raised p2 /\
        Heap.log p1 = map Some (fst (replay SchafkopfState_init acts)) /\
        Heap.raised p1
          = option_map Heap.Raised (snd (replay SchafkopfState_init acts)))).
Proof.
  split.
  - intros h L g s card Ho.
    destruct (spec_apply_action g L s card h Ho) as (res & h' & Eq & U & Hres).
    exists res, h'. split; [exact Eq|]. split; [exact U|].
    destruct res as [[]|[e|]]; [| |contradiction].
    + destruct Hres as (L' & s' & Ho' & [Hself _] & ->).
      split; [reflexivity|]. rewrite <- Hself. now apply owns_snapshot with g.
    + now rewrite Hres.
  - intros h0 game1 game2 acts.
    destruct (new_initial_state_owns game1 h0)
      as (r1 & h1 & L1 & E1 & _ & Hs1 & Ho1 & _).
    destruct (new_initial_state_owns game2 h1)
      as (r2 & h2 & L2 & E2 & U2 & Hs2 & Ho2 & Hnew).
    exists r1, h1, r2, h2. split; [exact E1|]. split; [exact E2|].
    assert (Hd : forall a, In a (footprint L1) -> ~ In a (footprint L2)).
    { intros a Ha1 Ha2. apply (owns_lt h1 L1 game1 _ a Ho1) in Ha1.
      apply Hnew in Ha2. lia. }
    assert (Ho1' : owns h2 L1 game1 SchafkopfState_init).
    { apply owns_unchanged with [] h1; auto. }
    split.
    { intros E. apply (Hd r1).
      - rewrite <- Hs1. apply in_footprint_self.
      - rewrite E, <- Hs2. apply in_footprint_self. }
    split; [rewrite <- Hs1; now apply owns_snapshot with game1|].
    split; [rewrite <- Hs2; now apply owns_snapshot with game2|].
    intros schedule p1 p2 h Hrun.
    assert (T1 : tracks h2 acts (Heap.start r1 acts) (footprint L1)).
    { left. split; [reflexivity|]. exists L1, game1, SchafkopfState_init. simpl. auto. }
    assert (T2 : tracks h2 acts (Heap.start r2 acts) (footprint L2)).
    { left. split; [reflexivity|]. exists L2, game2, SchafkopfState_init. simpl. auto. }
    destruct (interleave_tracks acts schedule _ _ _ _ _ p1 p2 h T1 T2 Hd Hrun)
      as (G1 & G2 & T1' & T2').
    split; [now apply tracks_prefix with h G1|].
    split; [now apply tracks_prefix with h G2|].
    intros F1 F2.
    destruct (tracks_finished h acts p1 G1 T1' F1) as [A1 B1].
    destruct (tracks_finished h acts p2 G2 T2' F2) as [A2 B2].
    rewrite A1, A2, B1, B2. auto.
Qed.

(** C3: in a closed trick of three distinct cards the winner is the seat at
    the position of the card that follows the led suit (the suit of the
    first card) with a rank strictly above every other card of that suit, so
    a card of another suit never wins; when a play closes a trick of a game,
    that trick's points are added to the winner's entry of [_points]; and
    the seat [player_at_position] gives for a position is the player who
    played the card there. *)
Theorem winner_takes_trick :
  (forall t, length (_cards t) = 3%nat -> NoDup (_cards t) ->
     exists i c first,
       nth_error (_cards t) 0 = Some first /\
       nth_error (_cards t) i = Some c /\
       winner t = Ok (player_at_position t (Z.of_nat i)) /\
       CardSuit c = CardSuit first /\
       forall j d, nth_error (_cards t) j = Some d -> j <> i ->
                   CardSuit d = CardSuit first -> CardRank d < CardRank c) /\
  (forall s a s', reachable s -> step s a s' -> _phase s = Play ->
     (_num_cards_played s + 1) mod _NUM_PLAYERS = 0 ->
     exists t first w old,
       last_trick s' = Ok t /\ length (_cards t) = 3%nat /\ NoDup (_cards t) /\
       nth_error (_cards t) 0 = Some first /\ _led_suit t = Some (CardSuit first) /\
       winner t = Ok (Z.of_nat w) /\
       nth_error (_points s) w = Some old /\
       _points s' = PyList.set_nth w (PrimFloat.add old (PyFloat.of_Z (points t)))
                                   (_points s)) /\
  (forall s a s', reachable s -> step s a s' -> _phase s = Play ->
     exists t i,
       last_trick s' = Ok t /\ nth_error (_cards t) i = Some a /\
       S i = length (_cards t) /\
       player_at_position t (Z.of_nat i) = current_player s).
Proof.
  split; [|split].
  - intros t Hlen Hnd.
    destruct (_cards t) as [|c0 [|c1 [|c2 [|]]]] eqn:E; try discriminate.
    destruct (winner_closed t c0 c1 c2 E Hnd) as (i & c & H1 & H2 & H3 & H4).
    rewrite E in H1, H4. exists i, c, c0. repeat split; auto.
  - intros s a s' Hr Hstep HP Hmod. apply reachable_Inv in Hr.
    destruct (play_step_effect s a s' Hr Hstep HP)
      as (n & L & -> & _ & _ & _ & _ & HI' & [HP' _ Hcount _ (ts & t' & pre & Hts & Hc & _ & Hif)]).
    assert (Hcl : closed t').
    { apply (last_trick_closed s' ts t' HI' HP' Hts). now rewrite Hcount. }
    assert (Hpre : length pre = 2%nat).
    { unfold closed in Hcl. rewrite Hc, length_app in Hcl. simpl in Hcl. lia. }
    rewrite Hpre in Hif. simpl in Hif. destruct Hif as (w & old & Hw & Hold & Hpts & _).
    pose proof (inv_phase s' HI') as HPI. rewrite HP' in HPI.
    pose proof (pi_wf s' HPI) as Hwf. rewrite Hts in Hwf.
    apply Forall_app in Hwf as [_ Hwf].
    inversion Hwf as [|? ? [_ (c0 & rest & Hc0 & Hled)] _]; subst.
    exists t', c0, w, old. repeat split; auto.
    + now apply last_trick_app with ts.
    + now apply NoDup_last_trick with s' ts.
    + now rewrite Hc0.
  - intros s a s' Hr Hstep HP. apply reachable_Inv in Hr.
    destruct (play_step_effect s a s' Hr Hstep HP)
      as (n & L & -> & _ & _ & _ & Hgo & HI' & [HP' _ _ _ (ts & t' & pre & Hts & Hc & Hseat & _)]).
    exists t', (length pre). repeat split.
    + now apply last_trick_app with ts.
    + rewrite Hc, nth_error_app2, Nat.sub_diag by lia. reflexivity.
    + rewrite Hc, length_app. simpl. lia.
    + rewrite Hseat. unfold current_player. now rewrite Hgo, HP.
Qed.

Lemma play_card_cards t cards :
  _cards (fold_left play_card cards t) = _cards t ++ cards.
Proof.
  revert t. induction cards as [|c cards IH]; intros t; simpl.
  - now rewrite app_nil_r.
  - rewrite IH. simpl. now rewrite <- app_assoc.
Qed.

Lemma play_card_led_suit t cards :
  _cards t <> [] -> _led_suit (fold_left play_card cards t) = _led_suit t.
Proof.
  revert t. induction cards as [|c cards IH]; intros t Hne; simpl; auto.
  rewrite IH.
  - simpl. destruct (_cards t); [contradiction|reflexivity].
  - simpl. now destruct (_cards t).
Qed.

(** C4: in the Play phase, for any state and any seat (the player to move
    among them), the legal actions are the whole hand when the play count is
    a multiple of three; otherwise, with the suit the last trick records as
    led, they are the cards of the hand in that suit if there are any and the
    whole hand if there are none.  The suit a trick records is the suit of
    the first card played to it, and in a game the player to move is a seat
    and the open trick has such a first card. *)
Theorem legal_actions_follow_suit :
  (forall s p, _phase s = Play -> 0 <= p ->
     let hand := player_cards s p in
     (_num_cards_played s mod _NUM_PLAYERS = 0 -> _legal_actions s p = Ok hand) /\
     (forall t suit,
        _num_cards_played s mod _NUM_PLAYERS <> 0 ->
        last_trick s = Ok t -> _led_suit t = Some suit ->
        let same_suit := filter (fun c => CardSuit c =? suit) hand in
        (same_suit <> [] -> _legal_actions s p = Ok same_suit) /\
        (same_suit = [] -> _legal_actions s p = Ok hand))) /\
  (forall leader first rest,
     let t := fold_left play_card (first :: rest) (SchafkopfTrick_init leader) in
     _cards t = first :: rest /\ first_card t = Ok first /\
     _led_suit t = Some (CardSuit first)) /\
  (forall s, reachable s -> _phase s = Play -> _game_over s = false ->
     0 <= current_player s /\
     (_num_cards_played s mod _NUM_PLAYERS <> 0 ->
      exists t first,
        last_trick s = Ok t /\ nth_error (_cards t) 0 = Some first /\
        _led_suit t = Some (CardSuit first))).
Proof.
  split; [|split].
  - intros s p HP Hp hand.
    unfold _legal_actions. rewrite HP. simpl phase_eqb. cbv iota.
    replace (0 <=? p) with true by (symmetry; now apply Z.leb_le).
    simpl bind. fold hand. split.
    + intros Hmod. apply Z.eqb_eq in Hmod. rewrite Hmod.
      now destruct (_num_cards_played s =? 0).
    + intros t suit Hmod Hlast Hled.
      replace (_num_cards_played s =? 0) with false
        by (symmetry; apply Z.eqb_neq; intros E; apply Hmod; now rewrite E).
      apply Z.eqb_neq in Hmod. rewrite Hmod, Hlast. simpl bind. rewrite Hled.
      assert (F : filter (fun c => option_Z_eqb (CardSuit c) (Some suit)) hand =
                  filter (fun c => CardSuit c =? suit) hand)
        by (apply filter_ext; intros c; reflexivity).
      rewrite F. clear F. split.
      * intros Hne.
        destruct (filter (fun c => CardSuit c =? suit) hand);
          [now contradiction Hne | reflexivity].
      * intros ->. reflexivity.
  - intros leader first rest t. unfold t. simpl fold_left.
    assert (Hc : _cards (fold_left play_card rest
                           (play_card (SchafkopfTrick_init leader) first))
                 = first :: rest) by (now rewrite play_card_cards).
    split; [exact Hc|]. split.
    + unfold first_card. now rewrite Hc.
    + rewrite play_card_led_suit; [reflexivity | discriminate].
  - intros s Hr HP Hgo. apply reachable_Inv in Hr.
    pose proof (inv_phase s Hr) as HPI. rewrite HP in HPI.
    pose proof (pi_next s HPI Hgo) as Hnext.
    split.
    { unfold current_player. rewrite Hgo, HP. simpl. lia. }
    intros Hmod.
    destruct (pi_shape s HPI) as (cl & op & zp & Hts & _ & Hop & Hn & _).
    destruct op as [|t [|t2 op]]; [| |contradiction].
    { exfalso. apply Hmod. change (length (played [])) with 0%nat in Hn. zmod. }
    pose proof (pi_wf s HPI) as Hwf. rewrite Hts in Hwf.
    apply Forall_app in Hwf as [_ Hwf].
    inversion Hwf as [|? ? [_ (c0 & rest & Hc0 & Hled)] _]; subst.
    exists t, c0. rewrite (last_trick_app s cl t Hts), Hc0. auto.
Qed.

Lemma getitem_set_nth_other {A} (l : list A) n x c :
  0 <= c -> c <> Z.of_nat n ->
  PyList.getitem (PyList.set_nth n x l) c = PyList.getitem l c.
Proof.
  intros Hc Hne. unfold PyList.getitem. rewrite length_set_nth.
  destruct (PyList.index (length l) c) as [m|] eqn:E; auto.
  apply index_in_range in E; auto.
  rewrite nth_error_set_nth_neq; auto. intros ->. auto.
Qed.

Lemma getitem_set_nth_same {A} (l : list A) n x :
  (n < length l)%nat -> PyList.getitem (PyList.set_nth n x l) (Z.of_nat n) = Ok x.
Proof.
  intros H. apply getitem_of_nat. now apply nth_error_set_nth_eq.
Qed.

Lemma range_seq n : PyList.range (Z.of_nat n) = map (fun i => 0 + Z.of_nat i) (seq 0 n).
Proof. unfold PyList.range. rewrite Nat2Z.id. apply map_ext. intros i. lia. Qed.

(** One legal action moves exactly the card it names, to another location. *)
Lemma step_relocates s a s' :
  Inv s -> step s a s' ->
  exists n L0 L1,
    a = Z.of_nat n /\ nth_error (_card_locations s) n = Some L0 /\
    _card_locations s' = PyList.set_nth n L1 (_card_locations s) /\
    L0 <> Trick /\ L1 <> L0 /\ L1 <> Deck.
Proof.
  intros HI Hstep. destruct (_phase s) eqn:HP.
  - destruct (deal_step s a s' HI Hstep HP) as (n & -> & [Hfrom (L & _ & _ & HL & Hlocs) _ _ _ _]).
    exists n, Deck, L. repeat split; auto; try discriminate;
      destruct L; simpl in HL; try lia; discriminate.
  - destruct (play_step_effect s a s' HI Hstep HP)
      as (n & L & -> & Hn & HL & Hnext & _ & _ & [_ Hlocs _ _ _]).
    exists n, L, Trick. repeat split; auto; try discriminate;
      destruct L; simpl in HL; try lia; discriminate.
  - pose proof (inv_phase s HI) as H. rewrite HP in H. destruct H.
Qed.

(** C5: in every reachable state the location vector has one entry per
    card, none of them the unused fourth hand, and the three hands, the deck
    and the trick pile together hold each card identifier of [0, 6) exactly
    once; every legal action can be applied and changes the location of the
    card it names and of no other card. *)
Theorem card_conservation :
  forall s, reachable s ->
    length (_card_locations s) = Z.to_nat _NUM_CARDS /\
    (forall c, 0 <= c < _NUM_CARDS ->
       exists L, PyList.getitem (_card_locations s) c = Ok L /\ L <> Hand3) /\
    Permutation
      (player_cards s 0 ++ player_cards s 1 ++ player_cards s 2 ++
       _legal_deal_actions s ++ cards_at (loc_value Trick) (_card_locations s))
      (PyList.range _NUM_CARDS) /\
    (forall acts a, legal_actions s = Ok acts -> In a acts ->
       exists s',
         _apply_action s a = Ok s' /\ 0 <= a < _NUM_CARDS /\
         PyList.getitem (_card_locations s') a <> PyList.getitem (_card_locations s) a /\
         forall c, 0 <= c < _NUM_CARDS -> c <> a ->
           PyList.getitem (_card_locations s') c = PyList.getitem (_card_locations s) c).
Proof.
  intros s Hr. apply reachable_Inv in Hr.
  pose proof (inv_locs s Hr) as Hlen. pose proof (inv_hand3 s Hr) as Hh3.
  split; [exact Hlen|]. split; [|split].
  - intros c Hc. change _NUM_CARDS with 6 in Hc.
    destruct (nth_error (_card_locations s) (Z.to_nat c)) as [L|] eqn:E.
    2:{ apply nth_error_None in E. lia. }
    exists L. split.
    + replace c with (Z.of_nat (Z.to_nat c)) at 1 by lia. now apply getitem_of_nat.
    + intros ->. assert (H : In c (cards_at (loc_value Hand3) (_card_locations s))).
      { apply in_cards_at. exists (Z.to_nat c), Hand3. repeat split; auto. lia. }
      rewrite Hh3 in H. destruct H.
  - pose proof (cards_at_from_partition 0 (_card_locations s)) as P.
    repeat match type of P with
           | context [cards_at_from 0 ?v ?l] =>
               change (cards_at_from 0 v l) with (cards_at v l) in P
           end.
    change (loc_value Hand3) with 3 in Hh3.
    rewrite Hh3, Hlen in P. simpl app in P.
    change _NUM_CARDS with (Z.of_nat 6). rewrite range_seq. exact P.
  - intros acts a Hl Hin.
    destruct (step_total s a acts Hr Hl Hin) as (s' & Hap).
    exists s'. split; [exact Hap|].
    destruct (step_relocates s a s' Hr (step_intro s a s' acts Hl Hin Hap))
      as (n & L0 & L1 & -> & Hn & Hlocs & _ & Hne & _).
    assert (Hlt : (n < length (_card_locations s))%nat)
      by (apply nth_error_Some; congruence).
    rewrite Hlocs. repeat split.
    + lia.
    + change _NUM_CARDS with 6. lia.
    + rewrite getitem_set_nth_same by exact Hlt.
      rewrite (getitem_of_nat _ _ _ Hn). congruence.
    + intros c Hc Hca. apply getitem_set_nth_other; auto. lia.
Qed.

(** C8: in every reachable state the cards at the [Trick] location are the
    cards of the tricks played so far, closed tricks included, and there are
    as many as the play count says; a play action appends its card to the
    played cards and puts it at the [Trick] location, and no action ever
    takes a card away from that location. *)
Theorem played_cards_stay_in_trick :
  forall s, reachable s ->
    Permutation (cards_at (loc_value Trick) (_card_locations s)) (played (_tricks s)) /\
    Z.of_nat (length (cards_at (loc_value Trick) (_card_locations s))) =
      _num_cards_played s /\
    forall a s', step s a s' ->
      (forall c, PyList.getitem (_card_locations s) c = Ok Trick ->
                 PyList.getitem (_card_locations s') c = Ok Trick) /\
      (_phase s = Play ->
         PyList.getitem (_card_locations s') a = Ok Trick /\
         played (_tricks s') = played (_tricks s) ++ [a] /\
         _num_cards_played s' = _num_cards_played s + 1) /\
      (_phase s = Deal ->
         played (_tricks s') = played (_tricks s) /\
         _num_cards_played s' = _num_cards_played s).
Proof.
  intros s Hr. apply reachable_Inv in Hr.
  assert (Hperm : Permutation (cards_at (loc_value Trick) (_card_locations s))
                              (played (_tricks s))).
  { pose proof (inv_phase s Hr) as H. destruct (_phase s).
    - rewrite (di_trick s H), (di_tricks s H). reflexivity.
    - apply (pi_trick s H).
    - destruct H. }
  split; [exact Hperm|]. split.
  - rewrite (Permutation_length Hperm).
    pose proof (inv_phase s Hr) as H. destruct (_phase s).
    + rewrite (di_tricks s H), (di_played s H). reflexivity.
    + destruct (pi_shape s H) as (cl & op & zp & Hts & Hcl & _ & Hn & _).
      rewrite Hts, played_app, length_app, (length_played_closed cl Hcl), Hn. lia.
    + destruct H.
  - intros a s' Hstep.
    destruct (step_relocates s a s' Hr Hstep)
      as (n & L0 & L1 & -> & Hn & Hlocs & HL0 & _ & _).
    split; [|split].
    + intros c Hc. rewrite Hlocs. unfold PyList.getitem in *.
      rewrite length_set_nth.
      destruct (PyList.index (length (_card_locations s)) c) as [m|]; try discriminate.
      rewrite nth_error_set_nth_neq; auto.
      intros ->. rewrite Hn in Hc. congruence.
    + intros HP.
      destruct (play_step_effect s (Z.of_nat n) s' Hr Hstep HP)
        as (n' & L & E & _ & _ & _ & _ & _ & [_ Hlocs' Hcount Hplayed _]).
      apply Nat2Z.inj in E. subst n'. rewrite Hlocs'. repeat split; auto.
      apply getitem_set_nth_same. apply nth_error_Some. congruence.
    + intros HD.
      destruct (deal_step s (Z.of_nat n) s' Hr Hstep HD) as (n' & _ & [_ _ _ _ _ [Hts Hc]]).
      now rewrite Hts, Hc.
Qed.

(** Hand sizes after one deal. *)
Lemma cards_at_deal p n L locs :
  nth_error locs n = Some Deck -> 0 <= loc_value L < 3 -> 0 <= p < 3 ->
  length (cards_at p (PyList.set_nth n L locs)) =
    if loc_value L =? p then S (length (cards_at p locs)) else length (cards_at p locs).
Proof.
  intros Hn HL Hp. rewrite !cards_at_from_0. destruct (loc_value L =? p) eqn:E.
  - apply Z.eqb_eq in E.
    now rewrite (Permutation_length
                   (cards_at_from_arrive 0 p n Deck L _ Hn ltac:(simpl; lia) E)).
  - apply Z.eqb_neq in E.
    now rewrite (cards_at_from_other 0 p n Deck L _ Hn ltac:(simpl; lia) E).
Qed.

(** Dealing out the whole deck, in any order. *)
Lemma deal_all acts : forall s,
  Inv s -> _phase s = Deal -> Permutation acts (_legal_deal_actions s) ->
  exists s',
    play_from s acts = Ok s' /\ _phase s' = Play /\ _next_player s' = 0 /\
    _legal_deal_actions s' = [] /\
    forall p, 0 <= p < _NUM_PLAYERS -> length (player_cards s' p) = 2%nat.
Proof.
  induction acts as [|a rest IH]; intros s HI HD Hperm.
  - pose proof (inv_phase s HI) as H. rewrite HD in H.
    pose proof (di_deck s H) as Hk. rewrite <- (Permutation_length Hperm) in Hk.
    simpl in Hk. lia.
  - assert (Hin : In a (_legal_deal_actions s)).
    { eapply Permutation_in; [exact Hperm | now left]. }
    pose proof (inv_phase s HI) as HDI. rewrite HD in HDI.
    destruct (deal_step_effect s a HD Hin) as (n & s1 & -> & Hap & He).
    assert (Hstep : apply_legal_action s (Z.of_nat n) = Ok s1).
    { apply apply_legal_action_step. apply step_intro with (_legal_deal_actions s); auto.
      unfold legal_actions, is_terminal, _legal_actions.
      now rewrite (di_over s HDI), HD. }
    assert (HI1 : Inv s1) by (eapply Inv_deal_step; eauto).
    unfold play_from. simpl for_each. rewrite Hstep. simpl bind.
    assert (Hrest : Permutation rest (_legal_deal_actions s1)).
    { apply Permutation_cons_inv with (Z.of_nat n).
      rewrite Hperm. apply (de_deck s n s1 He). }
    pose proof (Permutation_length Hperm) as Hk. simpl in Hk.
    destruct rest as [|b rest].
    + (* the last card *)
      pose proof (de_phase s n s1 He) as HP1. rewrite <- Hk in HP1. simpl in HP1.
      exists s1. split; [reflexivity|]. split; [exact HP1|].
      split; [apply (de_next s n s1 He); auto|].
      split; [now apply Permutation_nil|].
      intros p Hp. change _NUM_PLAYERS with 3 in Hp.
      destruct (de_locs s n s1 He) as (L & HL & _ & HLr & Hlocs).
      unfold player_cards. rewrite Hlocs.
      rewrite (cards_at_deal p n L _ (de_from s n s1 He) HLr Hp).
      fold (player_cards s p). rewrite (di_hands s HDI p Hp), <- Hk.
      rewrite <- Hk in HL. destruct L; try discriminate.
      assert (D : p = 0 \/ p = 1 \/ p = 2) by lia.
      destruct D as [-> | [-> | ->]]; reflexivity.
    + (* more cards to deal *)
      pose proof (de_phase s n s1 He) as HP1. rewrite <- Hk in HP1. simpl in HP1.
      apply (IH s1 HI1 HP1 Hrest).
Qed.

(** C6: a deal action in the Deal phase sends its card to the hand whose
    index is the number of undealt cards modulo 3, and the deal of the last
    undealt card starts the Play phase with seat 0 to move; dealing the six
    cards in any order leaves every player with exactly two cards. *)
Theorem deal_round_robin :
  (forall s c, _phase s = Deal -> In c (_legal_deal_actions s) ->
     let k := length (_legal_deal_actions s) in
     exists L s',
       CardLocation_of (Z.of_nat k mod _NUM_PLAYERS) = Ok L /\
       loc_value L = Z.of_nat k mod _NUM_PLAYERS /\
       _apply_action s c = Ok s' /\
       PyList.getitem (_card_locations s') c = Ok L /\
       In c (player_cards s' (Z.of_nat k mod _NUM_PLAYERS)) /\
       (k = 1%nat -> _phase s' = Play /\ _next_player s' = 0) /\
       (k <> 1%nat -> _phase s' = Deal)) /\
  (forall acts, Permutation acts (PyList.range _NUM_CARDS) ->
     exists s',
       play_from SchafkopfState_init acts = Ok s' /\
       _phase s' = Play /\ _next_player s' = 0 /\ _legal_deal_actions s' = [] /\
       forall p, 0 <= p < _NUM_PLAYERS -> length (player_cards s' p) = 2%nat).
Proof.
  split.
  - intros s c HD Hin k.
    destruct (deal_step_effect s c HD Hin)
      as (n & s' & -> & Hap & [Hfrom (L & HL & HLv & HLr & Hlocs) _ Hph Hnext _]).
    fold k in HL, HLv, Hph, Hnext.
    assert (Hlt : (n < length (_card_locations s))%nat)
      by (apply nth_error_Some; congruence).
    exists L, s'.
    split; [exact HL|]. split; [exact HLv|]. split; [exact Hap|].
    split; [|split; [|split]].
    + rewrite Hlocs. now apply getitem_set_nth_same.
    + unfold player_cards. apply in_cards_at. exists n, L. repeat split; auto.
      rewrite Hlocs. now apply nth_error_set_nth_eq.
    + intros Hk. rewrite Hk in Hph. split; [exact Hph | now apply Hnext].
    + intros Hk. apply Nat.eqb_neq in Hk. now rewrite Hk in Hph.
  - intros acts Hperm. apply deal_all.
    + apply Inv_init.
    + reflexivity.
    + exact Hperm.
Qed.

Lemma map_snd_const {A B} (p : B) (l : list A) :
  map snd (map (fun c => (c, p)) l) = repeat p (length l).
Proof. induction l as [|x t IH]; simpl; [reflexivity | now rewrite IH]. Qed.

Lemma in_deck s c :
  In c (_legal_deal_actions s) <->
  0 <= c /\ PyList.getitem (_card_locations s) c = Ok Deck.
Proof.
  unfold _legal_deal_actions. rewrite in_cards_at. split.
  - intros (n & L & -> & Hn & HL). apply (loc_value_inj L Deck) in HL. subst L.
    split; [lia | now apply getitem_of_nat].
  - intros [Hc Hg]. unfold PyList.getitem in Hg.
    destruct (PyList.index (length (_card_locations s)) c) as [m|] eqn:E;
      try discriminate.
    apply index_in_range in E; auto.
    destruct (nth_error (_card_locations s) m) as [L|] eqn:Hm; try discriminate.
    injection Hg as ->. exists m, Deck. auto.
Qed.

(** C7: in a Deal-phase state of a game there is an undealt card; the legal
    actions are the cards located at [Deck]; [chance_outcomes] pairs each of
    these k cards with the float 1/k; and the float sum of the
    probabilities is within 2^-52 of 1. *)
Theorem chance_outcomes_uniform :
  forall s, reachable s -> _phase s = Deal ->
    let cards := _legal_deal_actions s in
    let k := length cards in
    let p := PrimFloat.div (PyFloat.of_Z 1) (PyFloat.of_Z (Z.of_nat k)) in
    (0 < k)%nat /\
    (forall c, In c cards <->
               0 <= c /\ PyList.getitem (_card_locations s) c = Ok Deck) /\
    legal_actions s = Ok cards /\
    (forall player, _legal_actions s player = Ok cards) /\
    chance_outcomes s = Ok (map (fun c => (c, p)) cards) /\
    PrimFloat.leb
      (PrimFloat.abs
         (PrimFloat.sub (PyFloat.sum (map snd (map (fun c => (c, p)) cards)))
                        (PyFloat.of_Z 1)))
      0x1p-52%float = true.
Proof.
  intros s Hr HD cards k p. apply reachable_Inv in Hr.
  pose proof (inv_phase s Hr) as H. rewrite HD in H.
  pose proof (di_deck s H) as Hk. pose proof (di_over s H) as Hgo.
  fold cards in Hk. fold k in Hk.
  assert (Hleg : forall player, _legal_actions s player = Ok cards).
  { intros player. unfold _legal_actions. now rewrite HD. }
  split; [lia|]. split; [apply in_deck|]. split; [|split; [exact Hleg|split]].
  - unfold legal_actions, is_terminal. rewrite Hgo. apply Hleg.
  - unfold chance_outcomes, is_chance_node, current_player. rewrite Hgo, HD.
    simpl. fold cards. fold k.
    replace (k =? 0)%nat with false by (symmetry; apply Nat.eqb_neq; lia).
    reflexivity.
  - rewrite map_snd_const. fold k. unfold p.
    assert (D : k = 1%nat \/ k = 2%nat \/ k = 3%nat \/ k = 4%nat \/ k = 5%nat \/ k = 6%nat)
      by lia.
    destruct D as [-> | [-> | [-> | [-> | [-> | ->]]]]]; vm_compute; reflexivity.
Qed.

(** The state a game ends in. *)
Lemma terminal_points s :
  Inv s -> _game_over s = true ->
  _num_cards_played s = 6 /\
  exists z0 z1 z2,
    _points s = [PyFloat.of_Z z0; PyFloat.of_Z z1; PyFloat.of_Z z2] /\
    0 <= z0 /\ 0 <= z1 /\ 0 <= z2 /\ z0 + z1 + z2 = 30 /\
    _returns s = map (expected_return 30) (_points s).
Proof.
  intros HI Hgo. pose proof (inv_phase s HI) as H.
  destruct (_phase s) eqn:HP;
    [rewrite (di_over s H) in Hgo; discriminate | | destruct H].
  pose proof (pi_over s H) as Hover. rewrite Hgo in Hover.
  symmetry in Hover. apply Z.eqb_eq in Hover. change _NUM_CARDS with 6 in Hover.
  split; [exact Hover|].
  destruct (pi_shape s H) as (cl & op & zp & Hts & Hcl & Hop & Hn & Hzp & Hzp0 & Hsum).
  pose proof (length_played_closed cl Hcl) as Hlcl.
  assert (Hop' : op = []).
  { destruct op as [|t [|t2 op]]; [reflexivity | | contradiction].
    destruct Hop as [Hlen _]. rewrite played_single in Hn. lia. }
  subst op. rewrite app_nil_r in Hts. change (length (played [])) with 0%nat in Hn.
  pose proof (pi_trick s H) as Hperm. rewrite Hts in Hperm.
  change (loc_value Trick) with 5 in Hperm.
  pose proof (cards_at_from_partition 0 (_card_locations s)) as P.
  repeat match type of P with
         | context [cards_at_from 0 ?v ?l] =>
             change (cards_at_from 0 v l) with (cards_at v l) in P
         end.
  rewrite (inv_locs s HI) in P.
  pose proof (Permutation_length P) as PL. rewrite !length_app in PL.
  pose proof (Permutation_length Hperm) as PT. simpl in PL.
  assert (E0 : cards_at 0 (_card_locations s) = []) by (apply length_zero_iff_nil; lia).
  assert (E1 : cards_at 1 (_card_locations s) = []) by (apply length_zero_iff_nil; lia).
  assert (E2 : cards_at 2 (_card_locations s) = []) by (apply length_zero_iff_nil; lia).
  assert (E3 : cards_at 3 (_card_locations s) = []) by (apply length_zero_iff_nil; lia).
  assert (E4 : cards_at 4 (_card_locations s) = []) by (apply length_zero_iff_nil; lia).
  rewrite E0, E1, E2, E3, E4 in P. simpl app in P.
  assert (Hval : PyList.sum (map CardValue (played cl)) = 30).
  { rewrite <- (sum_perm _ _ (Permutation_map CardValue Hperm)).
    rewrite (sum_perm _ _ (Permutation_map CardValue P)). reflexivity. }
  pose proof (inv_points s HI) as Hlp. rewrite Hzp, length_map in Hlp.
  destruct zp as [|z0 [|z1 [|z2 [|]]]]; try discriminate.
  exists z0, z1, z2. rewrite !sum_cons in Hsum.
  inversion Hzp0 as [|? ? A0 Hzp1]; subst. inversion Hzp1 as [|? ? A1 Hzp2]; subst.
  inversion Hzp2 as [|? ? A2 _]; subst.
  repeat split; auto.
  - change (PyList.sum []) with 0 in Hsum. lia.
  - rewrite (pi_returns s H), Hgo. now rewrite Hzp.
Qed.

(** C2: at the transition that ends a game all six cards have been played,
    the players' points are three integers that sum to 30 (and so does
    their float sum), [_max_points] is 30 with integer half 15, and the
    return of each player is [round((points - 15) / 30, 3)]. *)
Theorem terminal_points_and_returns :
  forall s a s', reachable s -> step s a s' -> _game_over s' = true ->
    _game_over s = false /\
    _num_cards_played s' = _NUM_CARDS /\
    _max_points s' = 30 /\ _max_points s' / 2 = 15 /\
    (exists z0 z1 z2,
        _points s' = [PyFloat.of_Z z0; PyFloat.of_Z z1; PyFloat.of_Z z2] /\
        0 <= z0 /\ 0 <= z1 /\ 0 <= z2 /\ z0 + z1 + z2 = 30) /\
    PyFloat.sum (_points s') = PyFloat.of_Z 30 /\
    returns s' =
      map (fun p => PyFloat.round
                      (PrimFloat.div (PrimFloat.sub p (PyFloat.of_Z 15))
                                     (PyFloat.of_Z 30)) 3)
          (_points s').
Proof.
  intros s a s' Hr Hstep Hgo. apply reachable_Inv in Hr.
  pose proof (Inv_step s a s' Hr Hstep) as HI'.
  destruct (terminal_points s' HI' Hgo)
    as (Hn & z0 & z1 & z2 & Hp & H0 & H1 & H2 & Hsum & Hret).
  split.
  { destruct (_game_over s) eqn:E; auto. destruct Hstep as [acts Hl Hin _].
    unfold legal_actions, is_terminal in Hl. rewrite E in Hl.
    injection Hl as <-. destruct Hin. }
  split; [exact Hn|]. rewrite (inv_max s' HI').
  split; [reflexivity|]. split; [reflexivity|].
  split; [exists z0, z1, z2; auto|]. split.
  - rewrite Hp. unfold PyFloat.sum. simpl fold_left.
    rewrite !of_Z_add_exact by lia. f_equal. lia.
  - exact Hret.
Qed.

Lemma terminal_sum_checked z0 z1 :
  0 <= z0 -> 0 <= z1 -> 0 <= 30 - z0 - z1 -> terminal_sum_check z0 z1 = true.
Proof.
  intros H0 H1 H2.
  assert (C : forallb (fun x => forallb (terminal_sum_check x) (PyList.range 31))
                      (PyList.range 31) = true) by (vm_compute; reflexivity).
  rewrite forallb_forall in C. specialize (C z0 (in_range 31 z0 ltac:(lia))).
  rewrite forallb_forall in C. exact (C z1 (in_range 31 z1 ltac:(lia))).
Qed.

(** C1: the returns stored when a game ends do not sum to approximately
    zero: their float sum is within 2^-9 of -1/2, so its magnitude exceeds
    1/4, for every complete game. *)
Theorem returns_sum_is_minus_half :
  forall s a s', reachable s -> step s a s' -> _game_over s' = true ->
    PrimFloat.leb (PrimFloat.abs (PrimFloat.add (PyFloat.sum (returns s')) 0.5%float))
                  0x1p-9%float = true /\
    PrimFloat.ltb 0x1p-2%float (PrimFloat.abs (PyFloat.sum (returns s'))) = true.
Proof.
  intros s a s' Hr Hstep Hgo. apply reachable_Inv in Hr.
  pose proof (Inv_step s a s' Hr Hstep) as HI'.
  destruct (terminal_points s' HI' Hgo)
    as (Hn & z0 & z1 & z2 & Hp & H0 & H1 & H2 & Hsum & Hret).
  pose proof (terminal_sum_checked z0 z1 H0 H1 ltac:(lia)) as C.
  unfold terminal_sum_check in C.
  replace (30 - z0 - z1 <? 0) with false in C by (symmetry; apply Z.ltb_ge; lia).
  replace (30 - z0 - z1) with z2 in C by lia.
  unfold returns. rewrite Hret, Hp.
  apply andb_true_iff in C. exact C.
Qed.

(** * The theorems on the example game *)

Lemma reachable_after acts s :
  play_from SchafkopfState_init acts = Ok s -> reachable s.
Proof. apply play_from_reachable. constructor. Qed.

Lemma reachable_dealt3 : reachable dealt3.
Proof. apply (reachable_after [0; 1; 2]). vm_compute. reflexivity. Qed.

Lemma reachable_played2 : reachable played2.
Proof. apply (reachable_after [0; 1; 2; 3; 4; 5; 3; 2]). vm_compute. reflexivity. Qed.

Lemma reachable_played5 : reachable played5.
Proof.
  apply (reachable_after [0; 1; 2; 3; 4; 5; 3; 2; 4; 1; 0]). vm_compute. reflexivity.
Qed.

Lemma step_played3 : step played2 4 played3.
Proof. apply apply_legal_action_step. vm_compute. reflexivity. Qed.

Lemma step_played6 : step played5 5 played6.
Proof. apply apply_legal_action_step. vm_compute. reflexivity. Qed.

(** The complete example game ends with returns -0.5, -0.267 and 0.267,
    which sum to -1/2. *)
Lemma returns_sum_is_minus_half_witness :
  reachable played5 /\ step played5 5 played6 /\ _game_over played6 = true /\
  PrimFloat.leb
    (PrimFloat.abs (PrimFloat.add (PyFloat.sum (returns played6)) 0.5%float))
    0x1p-9%float = true /\
  PrimFloat.ltb 0x1p-2%float (PrimFloat.abs (PyFloat.sum (returns played6))) = true.
Proof.
  split; [exact reachable_played5|]. split; [exact step_played6|].
  split; [reflexivity|].
  apply (returns_sum_is_minus_half played5 5 played6).
  - exact reachable_played5.
  - exact step_played6.
  - reflexivity.
Defined.

Lemma terminal_points_and_returns_witness :
  reachable played5 /\ step played5 5 played6 /\ _game_over played6 = true /\
  PyFloat.sum (_points played6) = PyFloat.of_Z 30 /\
  returns played6 =
    map (fun p => PyFloat.round
                    (PrimFloat.div (PrimFloat.sub p (PyFloat.of_Z 15))
                                   (PyFloat.of_Z 30)) 3)
        (_points played6).
Proof.
  split; [exact reachable_played5|]. split; [exact step_played6|].
  split; [reflexivity|].
  destruct (terminal_points_and_returns played5 5 played6
              reachable_played5 step_played6 eq_refl)
    as (_ & _ & _ & _ & _ & Hsum & Hret).
  split; [exact Hsum | exact Hret].
Defined.

Lemma winner_takes_trick_witness :
  (let t := mkTrick [3; 2; 4] 0 (Some 0) in
   length (_cards t) = 3%nat /\ NoDup (_cards t) /\
   exists i c first,
     nth_error (_cards t) 0 = Some first /\
     nth_error (_cards t) i = Some c /\
     winner t = Ok (player_at_position t (Z.of_nat i)) /\
     CardSuit c = CardSuit first /\
     forall j d, nth_error (_cards t) j = Some d -> j <> i ->
                 CardSuit d = CardSuit first -> CardRank d < CardRank c) /\
  (reachable played2 /\ step played2 4 played3 /\ _phase played2 = Play /\
   (_num_cards_played played2 + 1) mod _NUM_PLAYERS = 0 /\
   exists t w old,
     last_trick played3 = Ok t /\ winner t = Ok (Z.of_nat w) /\
     nth_error (_points played2) w = Some old /\
     _points played3 =
       PyList.set_nth w (PrimFloat.add old (PyFloat.of_Z (points t))) (_points played2)) /\
  (exists t i, last_trick played3 = Ok t /\ nth_error (_cards t) i = Some 4 /\
               player_at_position t (Z.of_nat i) = current_player played2).
Proof.
  destruct winner_takes_trick as (W1 & W2 & W3).
  assert (Hnd : NoDup [3; 2; 4]) by (repeat constructor; simpl; lia).
  split; [|split].
  - split; [reflexivity|]. split; [exact Hnd|].
    exact (W1 (mkTrick [3; 2; 4] 0 (Some 0)) eq_refl Hnd).
  - split; [exact reachable_played2|]. split; [exact step_played3|].
    split; [reflexivity|]. split; [reflexivity|].
    destruct (W2 played2 4 played3 reachable_played2 step_played3 eq_refl eq_refl)
      as (t & first & w & old & H1 & _ & _ & _ & _ & H2 & H3 & H4).
    exists t, w, old. auto.
  - destruct (W3 played2 4 played3 reachable_played2 step_played3 eq_refl)
      as (t & i & H1 & H2 & _ & H3).
    exists t, i. auto.
Defined.

Lemma legal_actions_follow_suit_witness :
  (_phase two_suits = Play /\ current_player two_suits = 1 /\
   _num_cards_played two_suits mod _NUM_PLAYERS <> 0 /\
   last_trick two_suits = Ok (play_card (SchafkopfTrick_init 0) 1) /\
   player_cards two_suits 1 = [0; 5; 6; 11] /\
   _legal_actions two_suits 1 = Ok [0; 5] /\
   player_cards two_suits 2 = [7; 8; 9; 10] /\
   _legal_actions two_suits 2 = Ok [7; 8; 9; 10]) /\
  (reachable played2 /\ _phase played2 = Play /\ _game_over played2 = false /\
   _num_cards_played played2 mod _NUM_PLAYERS <> 0 /\
   exists t first,
     last_trick played2 = Ok t /\ nth_error (_cards t) 0 = Some first /\
     _led_suit t = Some (CardSuit first)).
Proof.
  destruct legal_actions_follow_suit as (W1 & _ & W3).
  split.
  - split; [reflexivity|]. split; [reflexivity|].
    split; [vm_compute; discriminate|]. split; [reflexivity|].
    split; [reflexivity|].
    destruct (W1 two_suits 1 eq_refl ltac:(lia)) as [_ H1].
    destruct (H1 (play_card (SchafkopfTrick_init 0) 1) 0
                 ltac:(vm_compute; discriminate) eq_refl eq_refl) as [H1a _].
    destruct (W1 two_suits 2 eq_refl ltac:(lia)) as [_ H2].
    destruct (H2 (play_card (SchafkopfTrick_init 0) 1) 0
                 ltac:(vm_compute; discriminate) eq_refl eq_refl) as [_ H2b].
    split; [exact (H1a ltac:(vm_compute; discriminate))|].
    split; [reflexivity|].
    exact (H2b eq_refl).
  - split; [exact reachable_played2|]. split; [reflexivity|]. split; [reflexivity|].
    split; [vm_compute; discriminate|].
    destruct (W3 played2 reachable_played2 eq_refl eq_refl) as [_ H].
    exact (H ltac:(vm_compute; discriminate)).
Defined.

Lemma card_conservation_witness :
  reachable played2 /\
  Permutation
    (player_cards played2 0 ++ player_cards played2 1 ++ player_cards played2 2 ++
     _legal_deal_actions played2 ++ cards_at (loc_value Trick) (_card_locations played2))
    (PyList.range _NUM_CARDS) /\
  exists s',
    _apply_action played2 4 = Ok s' /\
    PyList.getitem (_card_locations s') 4 <> PyList.getitem (_card_locations played2) 4.
Proof.
  split; [exact reachable_played2|].
  destruct (card_conservation played2 reachable_played2) as (_ & _ & HP & Hstep).
  split; [exact HP|].
  destruct (Hstep [1; 4] 4 ltac:(vm_compute; reflexivity) ltac:(simpl; auto))
    as (s' & H1 & _ & H2 & _).
  exists s'. auto.
Defined.

Lemma deal_round_robin_witness :
  (_phase dealt3 = Deal /\ In 3 (_legal_deal_actions dealt3) /\
   exists L s',
     CardLocation_of (Z.of_nat (length (_legal_deal_actions dealt3)) mod _NUM_PLAYERS)
       = Ok L /\
     _apply_action dealt3 3 = Ok s' /\
     PyList.getitem (_card_locations s') 3 = Ok L) /\
  (Permutation [0; 1; 2; 3; 4; 5] (PyList.range _NUM_CARDS) /\
   play_from SchafkopfState_init [0; 1; 2; 3; 4; 5] = Ok dealt6 /\
   _phase dealt6 = Play /\ _next_player dealt6 = 0 /\
   forall p, 0 <= p < _NUM_PLAYERS -> length (player_cards dealt6 p) = 2%nat).
Proof.
  destruct deal_round_robin as (D1 & D2).
  assert (Hin : In 3 (_legal_deal_actions dealt3)) by (simpl; auto).
  assert (Hperm : Permutation [0; 1; 2; 3; 4; 5] (PyList.range _NUM_CARDS))
    by apply Permutation_refl.
  split.
  - split; [reflexivity|]. split; [exact Hin|].
    destruct (D1 dealt3 3 eq_refl Hin) as (L & s' & H1 & _ & H2 & H3 & _).
    exists L, s'. auto.
  - split; [exact Hperm|].
    destruct (D2 [0; 1; 2; 3; 4; 5] Hperm) as (s' & H1 & H2 & H3 & _ & H4).
    assert (E : s' = dealt6) by (vm_compute in H1; now injection H1).
    rewrite E in H1, H2, H3, H4. auto.
Defined.

Lemma chance_outcomes_uniform_witness :
  reachable dealt3 /\ _phase dealt3 = Deal /\
  chance_outcomes dealt3 =
    Ok (map (fun c => (c, PrimFloat.div (PyFloat.of_Z 1) (PyFloat.of_Z 3))) [3; 4; 5]).
Proof.
  split; [exact reachable_dealt3|]. split; [reflexivity|].
  destruct (chance_outcomes_uniform dealt3 reachable_dealt3 eq_refl)
    as (_ & _ & _ & _ & H & _).
  exact H.
Defined.

Lemma played_cards_stay_in_trick_witness :
  reachable played2 /\ step played2 4 played3 /\
  Permutation (cards_at (loc_value Trick) (_card_locations played2))
              (played (_tricks played2)) /\
  Z.of_nat (length (cards_at (loc_value Trick) (_card_locations played2))) =
    _num_cards_played played2 /\
  forall c, PyList.getitem (_card_locations played2) c = Ok Trick ->
            PyList.getitem (_card_locations played3) c = Ok Trick.
Proof.
  split; [exact reachable_played2|]. split; [exact step_played3|].
  destruct (played_cards_stay_in_trick played2 reachable_played2) as (H1 & H2 & H3).
  split; [exact H1|]. split; [exact H2|].
  destruct (H3 4 played3 step_played3) as (H4 & _). exact H4.
Defined.

Lemma replay_deterministic_witness :
  (owns heap2 layout1 0%nat SchafkopfState_init /\
   exists res h',
     Heap._apply_action 5%nat 0 heap2 = (res, h') /\
     unchanged_outside (footprint layout1) heap2 h' /\
     match _apply_action SchafkopfState_init 0 with
     | Ok s' => res = inl tt /\ Heap.snapshot h' 5%nat = Some s'
     | Err e => res = inr (Heap.Raised e)
     end) /\
  (exists p1 p2 h,
     Heap.interleave schedule0 (Heap.start 5%nat full_game) (Heap.start 10%nat full_game)
                     heap2 = (p1, p2, h) /\
     Heap.finished p1 /\ Heap.finished p2 /\
     Heap.log p1 = Heap.log p2 /\
     Heap.log p1 = map Some full_game_trace /\
     Heap.raised p1 = None /\ Heap.raised p2 = None) /\
  (exists p1 p2 h,
     Heap.interleave schedule0 (Heap.start 5%nat bad_game) (Heap.start 10%nat bad_game)
                     heap2 = (p1, p2, h) /\
     Heap.finished p1 /\ Heap.finished p2 /\
     Heap.log p1 = Heap.log p2 /\ length (Heap.log p1) = 8%nat /\
     Heap.raised p1 = Some (Heap.Raised IndexError) /\
     Heap.raised p2 = Some (Heap.Raised IndexError)).
Proof.
  destruct replay_deterministic as [A B].
  assert (Ho : owns heap2 layout1 0%nat SchafkopfState_init).
  { unfold owns, footprint, trick_addrs. simpl.
    split; [repeat (constructor; [simpl; lia|]); constructor|].
    repeat split. constructor. }
  split; [split; [exact Ho | exact (A heap2 layout1 0%nat SchafkopfState_init 0 Ho)]|].
  split.
  - destruct (B heap0 0%nat 0%nat full_game)
      as (r1 & h1 & r2 & h2 & E1 & E2 & _ & _ & _ & H).
    vm_compute in E1. injection E1 as <- <-.
    vm_compute in E2. injection E2 as <- <-.
    destruct (Heap.interleave schedule0 (Heap.start 5%nat full_game)
                (Heap.start 10%nat full_game) heap2) as [[p1 p2] h] eqn:Er.
    exists p1, p2, h. split; [reflexivity|].
    destruct (H schedule0 p1 p2 h Er) as (_ & _ & Hfin).
    vm_compute in Er. injection Er as <- <- <-.
    assert (F : Heap.finished
                  (Heap.mkReplay 5%nat [] (map Some full_game_trace) None))
      by (intros _; reflexivity).
    assert (F' : Heap.finished
                   (Heap.mkReplay 10%nat [] (map Some full_game_trace) None))
      by (intros _; reflexivity).
    destruct (Hfin F F') as (H1 & _ & H2 & H3 & H4).
    split; [exact F|]. split; [exact F'|]. split; [exact H1|].
    split; [exact H3|]. split; [exact H4|]. rewrite <- H2. exact H4.
  - destruct (B heap0 0%nat 0%nat bad_game)
      as (r1 & h1 & r2 & h2 & E1 & E2 & _ & _ & _ & H).
    vm_compute in E1. injection E1 as <- <-.
    vm_compute in E2. injection E2 as <- <-.
    destruct (Heap.interleave schedule0 (Heap.start 5%nat bad_game)
                (Heap.start 10%nat bad_game) heap2) as [[p1 p2] h] eqn:Er.
    exists p1, p2, h. split; [reflexivity|].
    destruct (H schedule0 p1 p2 h Er) as (_ & _ & Hfin).
    assert (F : Heap.finished p1 /\ Heap.finished p2).
    { vm_compute in Er. injection Er as <- <- <-. split; intros [=]. }
    destruct F as [F F'].
    destruct (Hfin F F') as (H1 & _ & H2 & H3 & H4).
    split; [exact F|]. split; [exact F'|]. split; [exact H1|].
    split; [rewrite H3; reflexivity|]. split; [exact H4|]. rewrite <- H2. exact H4.
Defined.

(** * Further properties of the game *)

(** ** Play count, turn order and hand sizes *)

Lemma play_count_cards s :
  Inv s -> Z.of_nat (length (cards_at 5 (_card_locations s))) = _num_cards_played s.
Proof.
  intros HI. pose proof (inv_phase s HI) as H. destruct (_phase s).
  - change 5 with (loc_value Trick). now rewrite (di_trick s H), (di_played s H).
  - pose proof (pi_trick s H) as Hperm. change (loc_value Trick) with 5 in Hperm.
    rewrite (Permutation_length Hperm).
    destruct (pi_shape s H) as (cl & op & zp & Hts & Hcl & _ & Hn & _).
    rewrite Hts, played_app, length_app, (length_played_closed cl Hcl), Hn. lia.
  - destruct H.
Qed.

Lemma play_count_bound s : Inv s -> 0 <= _num_cards_played s <= 6.
Proof.
  intros HI. rewrite <- (play_count_cards s HI).
  pose proof (length_cards_at_from 0 5 (_card_locations s)) as B.
  rewrite (inv_locs s HI) in B. rewrite cards_at_from_0. lia.
Qed.

(** A play that leaves the trick open passes the turn to the next seat. *)
Lemma play_effect_turn s n s' :
  Inv s' -> play_effect s n s' ->
  (_num_cards_played s + 1) mod _NUM_PLAYERS <> 0 ->
  _next_player s' = (_next_player s + 1) mod _NUM_PLAYERS.
Proof.
  intros HI' [HP' _ Hcount _ (ts & t' & pre & Hts & Hc & _ & Hif)] Hmod.
  destruct (length pre =? 2)%nat eqn:E; [|tauto].
  exfalso. apply Nat.eqb_eq in E.
  pose proof (inv_phase s' HI') as H. rewrite HP' in H.
  destruct (pi_shape s' H) as (cl & op & zp & Hts' & _ & Hop & Hn & _).
  destruct op as [|t1 [|t2 op]]; [| |contradiction].
  - change (length (played [])) with 0%nat in Hn. rewrite Hcount in Hn. zmod.
  - rewrite Hts in Hts'. apply app_inj_tail in Hts' as [_ <-].
    destruct Hop as [Hlen _]. rewrite Hc, length_app in Hlen. simpl in Hlen. lia.
Qed.

(** A play that closes a trick, the last one excepted, gives the turn to
    the winner. *)
Lemma play_effect_winner s n s' :
  Inv s' -> play_effect s n s' ->
  (_num_cards_played s + 1) mod _NUM_PLAYERS = 0 ->
  exists ts t w,
    _tricks s' = ts ++ [t] /\ closed t /\ winner t = Ok (Z.of_nat w) /\ (w < 3)%nat /\
    (_game_over s' = false -> _next_player s' = Z.of_nat w).
Proof.
  intros HI' [HP' _ Hcount _ (ts & t' & pre & Hts & Hc & _ & Hif)] Hmod.
  assert (Hcl : closed t').
  { apply (last_trick_closed s' ts t' HI' HP' Hts). now rewrite Hcount. }
  assert (Hpre : length pre = 2%nat).
  { unfold closed in Hcl. rewrite Hc, length_app in Hcl. simpl in Hcl. lia. }
  rewrite Hpre in Hif. simpl in Hif. destruct Hif as (w & old & Hw & _ & _ & Hnext).
  destruct (winner_seat t' Hcl) as (w' & Hw' & Hw3).
  assert (w = w') by (rewrite Hw in Hw'; injection Hw' as E; lia). subst w'.
  exists ts, t', w. auto.
Qed.

Lemma hand_size_arith N x x' p len len' :
  0 <= N <= 5 -> 0 <= x < 3 -> 0 <= p < 3 ->
  ((N + 1) mod 3 <> 0 -> x' = (x + 1) mod 3) ->
  len = 2 - N / 3 - (if (1 <=? (x - p) mod 3) && ((x - p) mod 3 <=? N mod 3)
                     then 1 else 0) ->
  len' = len - (if p =? x then 1 else 0) ->
  len' = 2 - (N + 1) / 3 -
         (if (1 <=? (x' - p) mod 3) && ((x' - p) mod 3 <=? (N + 1) mod 3)
          then 1 else 0).
Proof.
  intros HN Hx Hp Hturn Hlen Hlen'.
  assert (DN : N = 0 \/ N = 1 \/ N = 2 \/ N = 3 \/ N = 4 \/ N = 5) by lia.
  assert (Dx : x = 0 \/ x = 1 \/ x = 2) by lia.
  assert (Dp : p = 0 \/ p = 1 \/ p = 2) by lia.
  assert (Closing : forall q e : Z, (1 <=? e) && (e <=? 0) = false -> q = q -
            (if (1 <=? e) && (e <=? 0) then 1 else 0)).
  { intros q e ->. lia. }
  assert (Never : forall e : Z, (1 <=? e) && (e <=? 0) = false).
  { intros e. destruct (1 <=? e) eqn:A, (e <=? 0) eqn:B; auto.
    apply Z.leb_le in A, B. lia. }
  destruct DN as [-> | [-> | [-> | [-> | [-> | ->]]]]];
    destruct Dx as [-> | [-> | ->]]; destruct Dp as [-> | [-> | ->]];
    vm_compute in Hlen; subst len; vm_compute in Hlen'; subst len';
    first [ rewrite (Hturn ltac:(vm_compute; discriminate)); vm_compute; reflexivity
          | change ((2 + 1) mod 3) with 0; change ((2 + 1) / 3) with 1;
            rewrite Never; reflexivity
          | change ((5 + 1) mod 3) with 0; change ((5 + 1) / 3) with 2;
            rewrite Never; reflexivity ].
Qed.

Lemma hand_after_play s n L p :
  nth_error (_card_locations s) n = Some L -> loc_value L = _next_player s ->
  0 <= _next_player s < 3 -> 0 <= p < 3 ->
  Z.of_nat (length (cards_at p (PyList.set_nth n Trick (_card_locations s)))) =
  Z.of_nat (length (player_cards s p)) - (if p =? _next_player s then 1 else 0).
Proof.
  intros Hn HL Hx Hp. unfold player_cards.
  repeat match goal with
         | |- context [cards_at ?v ?l] =>
             change (cards_at v l) with (cards_at_from 0 v l)
         end.
  destruct (p =? _next_player s) eqn:E.
  - apply Z.eqb_eq in E.
    rewrite (Permutation_length
               (cards_at_from_leave 0 p n L Trick _ Hn ltac:(lia) ltac:(simpl; lia))).
    simpl length. lia.
  - apply Z.eqb_neq in E.
    rewrite (cards_at_from_other 0 p n L Trick _ Hn ltac:(lia) ltac:(simpl; lia)). lia.
Qed.

Lemma HandInv_step s a s' : Inv s -> HandInv s -> step s a s' -> HandInv s'.
Proof.
  intros HI HH Hstep HP' p Hp. destruct (_phase s) eqn:HP.
  - (* the deal of the last card *)
    destruct (deal_step s a s' HI Hstep HP)
      as (n & -> & [Hfrom (L & HL & _ & HLr & Hlocs) _ Hph Hnext [_ Hcount]]).
    pose proof (inv_phase s HI) as HDI. rewrite HP in HDI.
    destruct (length (_legal_deal_actions s) =? 1)%nat eqn:Ek;
      [|rewrite Hph in HP'; discriminate].
    apply Nat.eqb_eq in Ek. rewrite Ek in HL.
    unfold hand_size, played_in_open.
    rewrite Hcount, (di_played s HDI), (Hnext Ek).
    unfold player_cards. rewrite Hlocs, (cards_at_deal p n L _ Hfrom HLr Hp).
    fold (player_cards s p). rewrite (di_hands s HDI p Hp), Ek.
    destruct L; try discriminate.
    assert (D : p = 0 \/ p = 1 \/ p = 2) by lia.
    destruct D as [-> | [-> | ->]]; reflexivity.
  - destruct (play_step_effect s a s' HI Hstep HP)
      as (n & L & -> & Hn & HL & Hx & Hgo & HI' & He).
    pose proof (play_effect_turn s n s' HI' He) as Hturn.
    destruct He as [_ Hlocs Hcount _ _].
    pose proof (play_count_bound s HI) as HB.
    pose proof (inv_phase s HI) as HPI. rewrite HP in HPI.
    pose proof (pi_over s HPI) as Hover. rewrite Hgo in Hover.
    symmetry in Hover. apply Z.eqb_neq in Hover. change _NUM_CARDS with 6 in Hover.
    unfold hand_size, played_in_open. rewrite Hcount.
    change _NUM_PLAYERS with 3 in *.
    apply (hand_size_arith (_num_cards_played s) (_next_player s) (_next_player s') p
             (Z.of_nat (length (player_cards s p)))); auto; try lia;
      try apply (HH HP p Hp).
    unfold player_cards. rewrite Hlocs. now apply hand_after_play with L.
  - pose proof (inv_phase s HI) as H. rewrite HP in H. destruct H.
Qed.

Lemma reachable_HandInv s : reachable s -> HandInv s.
Proof.
  induction 1 as [|s a s' Hr IH Hstep].
  - intros HP. discriminate.
  - apply (HandInv_step s a s'); auto. now apply reachable_Inv.
Qed.

(** ** Legal actions and the length of a game *)

(** The legal actions of a player: the hand, or a non-empty part of it. *)
Lemma legal_play_result s :
  Inv s -> _phase s = Play -> _game_over s = false ->
  exists acts,
    legal_actions s = Ok acts /\
    (acts = player_cards s (_next_player s) \/
     (acts <> [] /\ incl acts (player_cards s (_next_player s)))).
Proof.
  intros HI HP Hgo. pose proof (inv_phase s HI) as HPI. rewrite HP in HPI.
  pose proof (pi_next s HPI Hgo) as Hx.
  unfold legal_actions, is_terminal. rewrite Hgo.
  unfold _legal_actions, current_player. rewrite Hgo, HP. simpl phase_eqb. cbv iota.
  replace (0 <=? _next_player s) with true by (symmetry; apply Z.leb_le; lia).
  simpl bind.
  destruct (_num_cards_played s =? 0); [eauto|].
  destruct (_num_cards_played s mod _NUM_PLAYERS =? 0) eqn:Hmod; [eauto|].
  apply Z.eqb_neq in Hmod.
  destruct (pi_shape s HPI) as (cl & op & zp & Hts & _ & Hop & Hn & _).
  destruct op as [|t [|t2 op]]; [| |contradiction].
  { exfalso. apply Hmod. change (length (played [])) with 0%nat in Hn. zmod. }
  rewrite (last_trick_app s cl t Hts). simpl bind.
  destruct (filter _ (player_cards s (_next_player s))) as [|c l] eqn:F.
  - simpl. eauto.
  - simpl. eexists. split; [reflexivity|]. right. split; [discriminate|].
    rewrite <- F. intros x Hx'. apply filter_In in Hx'. tauto.
Qed.

(** The legal actions of a state that is not terminal are not empty, and
    they are card identifiers. *)
Lemma legal_actions_nonempty s :
  Inv s -> HandInv s -> _game_over s = false ->
  exists acts a,
    legal_actions s = Ok acts /\ In a acts /\
    forall b, In b acts -> 0 <= b < _NUM_CARDS.
Proof.
  intros HI HH Hgo. pose proof (inv_phase s HI) as H.
  assert (Hrange : forall v b, In b (cards_at v (_card_locations s)) ->
                               0 <= b < _NUM_CARDS).
  { intros v b Hb. apply in_cards_at in Hb as (n & L & -> & Hn & _).
    assert (n < length (_card_locations s))%nat by (apply nth_error_Some; congruence).
    rewrite (inv_locs s HI) in *. change _NUM_CARDS with 6. lia. }
  destruct (_phase s) eqn:HP; [| |destruct H].
  - pose proof (di_deck s H) as Hk.
    destruct (_legal_deal_actions s) as [|a l] eqn:E; [simpl in Hk; lia|].
    exists (a :: l), a. split; [|split; [now left|]].
    + unfold legal_actions, is_terminal, _legal_actions. now rewrite Hgo, HP, E.
    + intros b Hb. rewrite <- E in Hb. apply (Hrange _ b Hb).
  - pose proof (pi_next s H Hgo) as Hx.
    pose proof (HH HP (_next_player s) Hx) as Hsize.
    pose proof (play_count_bound s HI) as HB.
    pose proof (pi_over s H) as Hover. rewrite Hgo in Hover.
    symmetry in Hover. apply Z.eqb_neq in Hover. change _NUM_CARDS with 6 in Hover.
    unfold hand_size, played_in_open in Hsize.
    rewrite Z.sub_diag in Hsize. change (0 mod _NUM_PLAYERS) with 0 in Hsize.
    change (1 <=? 0) with false in Hsize. simpl andb in Hsize. cbv iota in Hsize.
    assert (Hpos : (0 < length (player_cards s (_next_player s)))%nat) by zmod.
    destruct (legal_play_result s HI HP Hgo) as (acts & Hl & [-> | [Hne Hincl]]).
    + destruct (player_cards s (_next_player s)) as [|a l] eqn:E; [simpl in Hpos; lia|].
      exists (a :: l), a. split; [exact Hl|]. split; [now left|].
      intros b Hb. rewrite <- E in Hb. apply (Hrange _ b Hb).
    + destruct acts as [|a l]; [congruence|].
      exists (a :: l), a. split; [exact Hl|]. split; [now left|].
      intros b Hb. apply Hincl in Hb. apply (Hrange _ b Hb).
Qed.

Lemma actions_applied_step s a s' :
  Inv s -> step s a s' -> actions_applied s' = actions_applied s + 1.
Proof.
  intros HI Hstep. unfold actions_applied. destruct (_phase s) eqn:HP.
  - destruct (deal_step s a s' HI Hstep HP) as (n & -> & [_ _ Hdeck _ _ [_ Hc]]).
    rewrite Hc, (Permutation_length Hdeck). simpl length. lia.
  - destruct (play_step_effect s a s' HI Hstep HP)
      as (n & L & -> & _ & _ & _ & _ & HI' & [HP' _ Hc _ _]).
    pose proof (inv_phase s HI) as H. rewrite HP in H.
    pose proof (inv_phase s' HI') as H'. rewrite HP' in H'.
    rewrite (pi_deck s H), (pi_deck s' H'), Hc. lia.
  - pose proof (inv_phase s HI) as H. rewrite HP in H. destruct H.
Qed.

Lemma actions_applied_run acts : forall s s',
  reachable s -> play_from s acts = Ok s' ->
  actions_applied s' = actions_applied s + Z.of_nat (length acts).
Proof.
  induction acts as [|a acts IH]; intros s s' Hr H.
  - injection H as <-. simpl length. lia.
  - unfold play_from in H. simpl for_each in H.
    destruct (apply_legal_action s a) as [s1|] eqn:E; simpl in H; try discriminate.
    apply apply_legal_action_step in E.
    rewrite (IH s1 s' (reachable_step s a s1 Hr E) H).
    rewrite (actions_applied_step s a s1 (reachable_Inv s Hr) E).
    simpl length. lia.
Qed.

(** The game is over exactly when twelve actions have been applied. *)
Lemma game_over_actions s :
  Inv s ->
  0 <= actions_applied s <= 12 /\
  (_game_over s = true <-> actions_applied s = 12).
Proof.
  intros HI. unfold actions_applied. pose proof (inv_phase s HI) as H.
  pose proof (play_count_bound s HI) as HB. change _NUM_CARDS with 6.
  destruct (_phase s); [| |destruct H].
  - pose proof (di_deck s H) as Hk. rewrite (di_played s H), (di_over s H).
    split; [lia|]. split; [discriminate | lia].
  - rewrite (pi_deck s H), (pi_over s H). change _NUM_CARDS with 6.
    simpl length. split; [lia|]. rewrite Z.eqb_eq. lia.
Qed.

(** X1: in every reachable state that is not terminal the framework's
    legal-action query succeeds with a non-empty list, and every legal
    action is a card identifier below the declared number of distinct
    actions: a game never gets stuck. *)
Theorem no_deadlock :
  forall s, reachable s -> is_terminal s = false ->
    exists acts a,
      legal_actions s = Ok acts /\ In a acts /\
      (forall b, In b acts -> 0 <= b < num_distinct_actions _GAME_INFO) /\
      exists s', _apply_action s a = Ok s'.
Proof.
  intros s Hr Hgo.
  destruct (legal_actions_nonempty s (reachable_Inv s Hr) (reachable_HandInv s Hr) Hgo)
    as (acts & a & Hl & Hin & Hrange).
  exists acts, a. split; [exact Hl|]. split; [exact Hin|]. split; [exact Hrange|].
  apply (step_total s a acts (reachable_Inv s Hr) Hl Hin).
Qed.

(** X2: a run of legal actions from the initial state has as many actions
    as cards were dealt and played; it has at most twelve, the player moves
    among them are at most the declared maximal game length, and the state
    is terminal exactly when the run has twelve actions. *)
Theorem game_length :
  forall acts s, play_from SchafkopfState_init acts = Ok s ->
    Z.of_nat (length acts) = actions_applied s /\
    Z.of_nat (length acts) <= 2 * _NUM_CARDS /\
    0 <= _num_cards_played s <= max_game_length _GAME_INFO /\
    (is_terminal s = true <-> Z.of_nat (length acts) = 2 * _NUM_CARDS).
Proof.
  intros acts s H.
  pose proof (actions_applied_run acts _ s reachable_init H) as E.
  change (actions_applied SchafkopfState_init) with 0 in E.
  pose proof (play_from_reachable acts _ s reachable_init H) as Hr.
  apply reachable_Inv in Hr.
  destruct (game_over_actions s Hr) as [B T].
  pose proof (play_count_bound s Hr) as HB.
  change (2 * _NUM_CARDS) with 12. change (max_game_length _GAME_INFO) with 6.
  unfold is_terminal. rewrite T. repeat split; try lia.
Qed.

Lemma can_finish_within m : forall s,
  reachable s -> 12 - actions_applied s <= Z.of_nat m ->
  exists acts s', play_from s acts = Ok s' /\ _game_over s' = true.
Proof.
  induction m as [|m IH]; intros s Hr Hm;
    pose proof (game_over_actions s (reachable_Inv s Hr)) as [B T].
  - exists [], s. split; [reflexivity|]. apply T. lia.
  - destruct (_game_over s) eqn:Hgo.
    + exists [], s. auto.
    + destruct (legal_actions_nonempty s (reachable_Inv s Hr)
                  (reachable_HandInv s Hr) Hgo) as (l & a & Hl & Hin & _).
      destruct (step_total s a l (reachable_Inv s Hr) Hl Hin) as (s1 & Hap).
      assert (Hstep : step s a s1) by (econstructor; eauto).
      destruct (IH s1 (reachable_step s a s1 Hr Hstep)) as (acts & s' & Hrun & Hover).
      { rewrite (actions_applied_step s a s1 (reachable_Inv s Hr) Hstep). lia. }
      exists (a :: acts), s'. split; auto.
      unfold play_from. simpl for_each.
      rewrite (proj2 (apply_legal_action_step s a s1) Hstep). exact Hrun.
Qed.

(** X3: every reachable state can be played to the end: some run of legal
    actions from it reaches a terminal state, and any such run has exactly
    as many actions as are missing to twelve. *)
Theorem every_game_can_finish :
  forall s, reachable s ->
    (exists acts s', play_from s acts = Ok s' /\ is_terminal s' = true) /\
    (forall acts s', play_from s acts = Ok s' -> is_terminal s' = true ->
       Z.of_nat (length acts) = 2 * _NUM_CARDS - actions_applied s).
Proof.
  intros s Hr. split.
  - apply (can_finish_within (Z.to_nat 12) s Hr).
    pose proof (game_over_actions s (reachable_Inv s Hr)) as [B _]. lia.
  - intros acts s' Hrun Hover.
    pose proof (actions_applied_run acts s s' Hr Hrun) as E.
    pose proof (play_from_reachable acts s s' Hr Hrun) as Hr'.
    destruct (game_over_actions s' (reachable_Inv s' Hr')) as [_ T].
    unfold is_terminal in Hover. apply T in Hover. change (2 * _NUM_CARDS) with 12. lia.
Qed.

(** ** The current player, the returns and the points *)

(** X4: in a reachable state the phase is Deal or Play, never GameOver (the
    code ends a game by the [_game_over] flag alone); [current_player] is
    the chance player exactly in the Deal phase, a seat while cards are
    played, and the terminal marker once all six cards have been played. *)
Theorem current_player_by_phase :
  forall s, reachable s ->
    _phase s <> GameOver /\
    ((_phase s = Deal /\ is_terminal s = false /\
      current_player s = PlayerId.CHANCE /\ _num_cards_played s = 0) \/
     (_phase s = Play /\ is_terminal s = false /\
      0 <= current_player s < _NUM_PLAYERS /\ _num_cards_played s < _NUM_CARDS) \/
     (_phase s = Play /\ is_terminal s = true /\
      current_player s = PlayerId.TERMINAL /\ _num_cards_played s = _NUM_CARDS)).
Proof.
  intros s Hr. apply reachable_Inv in Hr. pose proof (inv_phase s Hr) as H.
  pose proof (play_count_bound s Hr) as HB.
  unfold is_terminal, current_player. destruct (_phase s) eqn:HP; [| |destruct H].
  - split; [discriminate|]. left. rewrite (di_over s H), (di_played s H). auto.
  - split; [discriminate|]. right. pose proof (pi_over s H) as Hover.
    destruct (_game_over s) eqn:Hgo.
    + right. symmetry in Hover. apply Z.eqb_eq in Hover. auto.
    + left. symmetry in Hover. apply Z.eqb_neq in Hover.
      pose proof (pi_next s H Hgo) as Hx. simpl phase_eqb. cbv iota.
      change _NUM_CARDS with 6 in *. change _NUM_PLAYERS with 3.
      repeat split; auto; lia.
Qed.

(** X5: within a trick the turn passes to the next seat around the table;
    a play that closes a trick hands the turn to the trick's winner, unless
    it was the last trick. *)
Theorem turn_order :
  forall s a s', reachable s -> step s a s' -> _phase s = Play ->
    ((_num_cards_played s + 1) mod _NUM_PLAYERS <> 0 ->
       is_terminal s' = false /\
       current_player s' = (current_player s + 1) mod _NUM_PLAYERS) /\
    ((_num_cards_played s + 1) mod _NUM_PLAYERS = 0 -> is_terminal s' = false ->
       exists t w, last_trick s' = Ok t /\ winner t = Ok w /\ current_player s' = w).
Proof.
  intros s a s' Hr Hstep HP. apply reachable_Inv in Hr.
  destruct (play_step_effect s a s' Hr Hstep HP)
    as (n & L & -> & _ & _ & _ & Hgo & HI' & He).
  pose proof (pe_phase s n s' He) as HP'. pose proof (pe_count s n s' He) as Hc.
  pose proof (inv_phase s' HI') as H'. rewrite HP' in H'.
  assert (Hcur : current_player s = _next_player s).
  { unfold current_player. now rewrite Hgo, HP. }
  assert (Hcur' : _game_over s' = false -> current_player s' = _next_player s').
  { intros E. unfold current_player. now rewrite E, HP'. }
  unfold is_terminal. split.
  - intros Hmod.
    assert (Hgo' : _game_over s' = false).
    { rewrite (pi_over s' H'), Hc. apply Z.eqb_neq. zmod. }
    split; [exact Hgo'|].
    rewrite (Hcur' Hgo'), Hcur. apply (play_effect_turn s n s' HI' He Hmod).
  - intros Hmod Hgo'.
    destruct (play_effect_winner s n s' HI' He Hmod) as (ts & t & w & Hts & _ & Hw & _ & Hx).
    exists t, (Z.of_nat w). repeat split; auto.
    + now apply last_trick_app with ts.
    + rewrite (Hcur' Hgo'). now apply Hx.
Qed.

Lemma expected_return_bounds z :
  0 <= z <= 30 ->
  PrimFloat.leb (-0.5)%float (expected_return 30 (PyFloat.of_Z z)) = true /\
  PrimFloat.leb (expected_return 30 (PyFloat.of_Z z)) 0.5%float = true.
Proof.
  intros Hz.
  assert (C : forallb (fun x =>
                PrimFloat.leb (-0.5)%float (expected_return 30 (PyFloat.of_Z x)) &&
                PrimFloat.leb (expected_return 30 (PyFloat.of_Z x)) 0.5%float)
                (PyList.range 31) = true) by (vm_compute; reflexivity).
  rewrite forallb_forall in C. specialize (C z (in_range 31 z ltac:(lia))).
  now apply andb_true_iff in C.
Qed.

(** X6: the returns are three zeros in every reachable state that is not
    terminal (rewards come at the end only); in a terminal state each return
    lies between -0.5 and 0.5 and so within the declared minimal and
    maximal utility. *)
Theorem returns_within_utility_bounds :
  forall s, reachable s ->
    Z.of_nat (length (returns s)) = num_players _GAME_INFO /\
    (is_terminal s = false -> returns s = repeat (PyFloat.of_Z 0) 3) /\
    (is_terminal s = true ->
       forall r, In r (returns s) ->
         PrimFloat.leb (-0.5)%float r = true /\ PrimFloat.leb r 0.5%float = true) /\
    PrimFloat.leb (min_utility _GAME_INFO) (-0.5)%float = true /\
    PrimFloat.leb 0.5%float (max_utility _GAME_INFO) = true.
Proof.
  intros s Hr. apply reachable_Inv in Hr. unfold returns, is_terminal.
  split; [rewrite (inv_returns s Hr); reflexivity|].
  split; [|split; [|split; reflexivity]].
  - intros Hgo. pose proof (inv_phase s Hr) as H. destruct (_phase s); [| |destruct H].
    + apply (di_returns s H).
    + rewrite (pi_returns s H), Hgo. reflexivity.
  - intros Hgo r Hin.
    destruct (terminal_points s Hr Hgo)
      as (_ & z0 & z1 & z2 & Hp & H0 & H1 & H2 & Hsum & Hret).
    rewrite Hret, Hp in Hin. simpl in Hin.
    destruct Hin as [<- | [<- | [<- | []]]]; apply expected_return_bounds; lia.
Qed.

Lemma of_Z_leb a b :
  0 <= a <= b -> b <= 100 -> PrimFloat.leb (PyFloat.of_Z a) (PyFloat.of_Z b) = true.
Proof.
  intros Ha Hb.
  assert (C : forallb (fun x => forallb (fun y =>
                (y <? x) || PrimFloat.leb (PyFloat.of_Z x) (PyFloat.of_Z y))
                (PyList.range 101)) (PyList.range 101) = true)
    by (vm_compute; reflexivity).
  rewrite forallb_forall in C. specialize (C a (in_range 101 a ltac:(lia))).
  rewrite forallb_forall in C. specialize (C b (in_range 101 b ltac:(lia))).
  apply orb_true_iff in C as [C | C]; auto. apply Z.ltb_lt in C. lia.
Qed.

(** The cards in the tricks are worth at most the whole deck. *)
Lemma played_values_bound s :
  Inv s -> PyList.sum (map CardValue (cards_at 5 (_card_locations s))) <= 30.
Proof.
  intros HI.
  pose proof (cards_at_from_partition 0 (_card_locations s)) as P.
  rewrite (inv_locs s HI) in P.
  apply (Permutation_map CardValue) in P. apply sum_perm in P.
  rewrite !map_app, !sum_app in P.
  change (PyList.sum (map CardValue (map (fun n => 0 + Z.of_nat n) (seq 0 6))))
    with 30 in P.
  pose proof (sum_values_bound (cards_at_from 0 0 (_card_locations s))).
  pose proof (sum_values_bound (cards_at_from 0 1 (_card_locations s))).
  pose proof (sum_values_bound (cards_at_from 0 2 (_card_locations s))).
  pose proof (sum_values_bound (cards_at_from 0 3 (_card_locations s))).
  pose proof (sum_values_bound (cards_at_from 0 4 (_card_locations s))).
  rewrite cards_at_from_0. lia.
Qed.

(** The points are integers between 0 and 30. *)
Lemma points_int s :
  Inv s -> exists zp, _points s = map PyFloat.of_Z zp /\
                      Forall (fun z => 0 <= z <= 30) zp.
Proof.
  intros HI. pose proof (inv_phase s HI) as H. destruct (_phase s); [| |destruct H].
  - exists [0; 0; 0]. split; [apply (di_points s H)|]. repeat constructor; lia.
  - destruct (pi_shape s H) as (cl & op & zp & Hts & _ & _ & _ & Hzp & Hzp0 & Hsum).
    exists zp. split; [exact Hzp|].
    pose proof (played_values_bound s HI) as B.
    pose proof (pi_trick s H) as Hperm. change (loc_value Trick) with 5 in Hperm.
    rewrite (sum_perm _ _ (Permutation_map CardValue Hperm)) in B.
    rewrite Hts, played_app, map_app, sum_app in B.
    pose proof (sum_values_bound (played op)).
    apply Forall_forall. intros z Hz.
    destruct (In_nth_error _ _ Hz) as (i & Hi).
    pose proof (sum_nonneg_nth zp i z Hzp0 Hi). lia.
Qed.

Lemma deal_keeps_scores s a s' :
  _phase s = Deal -> In a (_legal_deal_actions s) -> _apply_action s a = Ok s' ->
  _points s' = _points s /\ _returns s' = _returns s /\ _game_over s' = _game_over s.
Proof.
  intros HD Hin Hap. destruct (apply_deal s a HD Hin) as (n & L & _ & _ & _ & Heq).
  rewrite Heq in Hap. injection Hap as <-.
  now destruct (length (_legal_deal_actions s) =? 1)%nat.
Qed.

(** X7: the accumulated points of a seat never decrease from one state of
    a game to the next, and they are always an integer between 0 and 30. *)
Theorem points_never_decrease :
  forall s a s', reachable s -> step s a s' ->
    forall i p p',
      nth_error (_points s) i = Some p -> nth_error (_points s') i = Some p' ->
      PrimFloat.leb p p' = true /\
      (exists z, p = PyFloat.of_Z z /\ 0 <= z <= 30) /\
      (exists z', p' = PyFloat.of_Z z' /\ 0 <= z' <= 30).
Proof.
  intros s a s' Hr Hstep i p p' Hp Hp'. apply reachable_Inv in Hr.
  pose proof (Inv_step s a s' Hr Hstep) as HI'.
  destruct (points_int s Hr) as (zp & Hzp & Bzp).
  destruct (points_int s' HI') as (zp' & Hzp' & Bzp').
  assert (Hz : exists z, p = PyFloat.of_Z z /\ 0 <= z <= 30 /\ nth_error zp i = Some z).
  { rewrite Hzp, nth_error_map in Hp. destruct (nth_error zp i) as [z|] eqn:E;
      try discriminate. injection Hp as <-. exists z. repeat split; auto;
      apply (proj1 (Forall_forall _ zp) Bzp z (nth_error_In _ _ E)). }
  assert (Hz' : exists z, p' = PyFloat.of_Z z /\ 0 <= z <= 30).
  { rewrite Hzp', nth_error_map in Hp'. destruct (nth_error zp' i) as [z|] eqn:E;
      try discriminate. injection Hp' as <-. exists z. repeat split; auto;
      apply (proj1 (Forall_forall _ zp') Bzp' z (nth_error_In _ _ E)). }
  destruct Hz as (z & -> & Bz & Hzi).
  split; [|split; [exists z; auto | exact Hz']].
  assert (Same : _points s' = _points s -> PrimFloat.leb (PyFloat.of_Z z) p' = true).
  { intros E. rewrite E, Hzp, nth_error_map, Hzi in Hp'. injection Hp' as <-.
    apply of_Z_leb; lia. }
  destruct (_phase s) eqn:HP.
  - destruct Hstep as [acts Hl Hin Hap].
    destruct (step_cases s a acts Hr Hl Hin) as [[_ Hd] | (HP2 & _)]; [|congruence].
    apply Same. apply (deal_keeps_scores s a s' HP Hd Hap).
  - destruct (play_step_effect s a s' Hr Hstep HP)
      as (n & L & -> & _ & _ & _ & _ & _ & [_ _ _ _ (ts & t' & pre & _ & Hc & _ & Hif)]).
    destruct (length pre =? 2)%nat eqn:E; [|apply Same; tauto].
    destruct Hif as (w & old & _ & Hold & Hpts & _).
    destruct (Nat.eq_dec i w) as [-> | Hne].
    + rewrite Hzp, nth_error_map, Hzi in Hold. injection Hold as <-.
      rewrite Hpts, nth_error_set_nth_eq in Hp'
        by (apply nth_error_Some; rewrite Hzp, nth_error_map, Hzi; discriminate).
      injection Hp' as <-.
      pose proof (sum_values_bound (_cards t')) as Bt.
      assert (Hl3 : length (_cards t') = 3%nat).
      { rewrite Hc, length_app. apply Nat.eqb_eq in E. rewrite E. reflexivity. }
      rewrite Hl3 in Bt.
      rewrite of_Z_add_exact by (unfold points; lia).
      apply of_Z_leb; unfold points; lia.
    + rewrite Hpts, nth_error_set_nth_neq in Hp' by auto.
      rewrite Hzp, nth_error_map, Hzi in Hp'. injection Hp' as <-.
      apply of_Z_leb; lia.
  - pose proof (inv_phase s Hr) as H. rewrite HP in H. destruct H.
Qed.

(** X8: in a reachable state every trick holds between one and three
    distinct cards of the deck, its leader is a seat and its led suit is the
    suit of its first card; every trick but the last is closed, so at most
    one trick is open, and the number of tricks is the play count divided by
    three, rounded up. *)
Theorem tricks_well_formed :
  forall s, reachable s ->
    Forall (fun t =>
              (1 <= cards_played t <= _NUM_PLAYERS) /\ 0 <= _leader t < _NUM_PLAYERS /\
              exists c, first_card t = Ok c /\ _led_suit t = Some (CardSuit c))
           (_tricks s) /\
    (forall ts t, _tricks s = ts ++ [t] -> Forall closed ts) /\
    Z.of_nat (length (_tricks s)) = (_num_cards_played s + 2) / _NUM_PLAYERS /\
    NoDup (played (_tricks s)) /\
    (forall c, In c (played (_tricks s)) -> 0 <= c < _NUM_CARDS).
Proof.
  intros s Hr. apply reachable_Inv in Hr. pose proof (inv_phase s Hr) as H.
  destruct (_phase s) eqn:HP; [| |destruct H].
  - rewrite (di_tricks s H), (di_played s H).
    split; [constructor|]. split; [intros [|? ?] t E; discriminate|].
    split; [reflexivity|]. split; [constructor | intros c []].
  - destruct (pi_shape s H) as (cl & op & zp & Hts & Hcl & Hop & Hn & _).
    assert (Hlens : Forall (fun t => (1 <= length (_cards t) <= 3)%nat) (_tricks s)).
    { rewrite Hts. apply Forall_app. split.
      - eapply Forall_impl; [|exact Hcl]. unfold closed. intros t Ht. lia.
      - destruct op as [|t [|t2 op]]; [constructor | | contradiction].
        destruct Hop as [Hlen _]. constructor; [lia | constructor]. }
    split; [|split; [|split; [|split]]].
    + apply Forall_forall. intros t Ht.
      pose proof (proj1 (Forall_forall _ _) Hlens t Ht) as Hl.
      pose proof (proj1 (Forall_forall _ _) (pi_wf s H) t Ht)
        as (Hlead & c & rest & Hc & Hled).
      cbv beta in *. unfold cards_played, first_card. change _NUM_PLAYERS with 3.
      split; [lia|]. split; [lia|]. exists c. rewrite Hc. auto.
    + intros ts t E. rewrite Hts in E.
      destruct op as [|t1 [|t2 op]]; [| |contradiction].
      * rewrite app_nil_r in E. subst cl. now apply Forall_app in Hcl.
      * apply app_inj_tail in E as [<- _]. exact Hcl.
    + rewrite Hts, length_app, Hn.
      destruct op as [|t1 [|t2 op]]; [| |contradiction].
      * change (length (played [])) with 0%nat. simpl length. zmod.
      * destruct Hop as [Hlen _]. rewrite played_single. simpl length. zmod.
    + apply (NoDup_played s Hr HP).
    + intros c Hc. apply (Permutation_in _ (Permutation_sym (pi_trick s H))) in Hc.
      apply in_cards_at in Hc as (n & L & -> & Hn' & _).
      assert (n < length (_card_locations s))%nat by (apply nth_error_Some; congruence).
      rewrite (inv_locs s Hr) in *. change _NUM_CARDS with 6. lia.
Qed.

(** ** Order of the legal actions, chance outcomes and bad indices *)

Lemma cards_at_from_sorted j v locs :
  StronglySorted Z.lt (cards_at_from j v locs) /\
  Forall (fun c => j <= c) (cards_at_from j v locs).
Proof.
  revert j; induction locs as [|L t IH]; intros j.
  - split; constructor.
  - rewrite cards_at_from_cons. destruct (IH (j + 1)) as [S B].
    assert (B' : Forall (fun c => j < c) (cards_at_from (j + 1) v t)).
    { eapply Forall_impl; [|exact B]. intros c Hc. simpl in Hc. lia. }
    destruct (loc_value L =? v).
    + split; constructor; auto; try lia.
      eapply Forall_impl; [|exact B']. intros c Hc. simpl in Hc. lia.
    + split; auto. eapply Forall_impl; [|exact B']. intros c Hc. simpl in Hc. lia.
Qed.

Lemma StronglySorted_filter {A} (R : A -> A -> Prop) (f : A -> bool) l :
  StronglySorted R l -> StronglySorted R (filter f l).
Proof.
  induction 1 as [|x l Hl IH Hx]; simpl; [constructor|].
  destruct (f x); auto. constructor; auto.
  apply Forall_forall. intros y Hy. apply filter_In in Hy as [Hy _].
  apply (proj1 (Forall_forall _ _) Hx y Hy).
Qed.

(** X9: whenever [_legal_actions] returns, its list is strictly ascending
    (so it has no duplicates), and it consists of undealt cards in the Deal
    phase and of cards of the given player's hand otherwise. *)
Theorem legal_actions_ascending :
  forall s player acts, _legal_actions s player = Ok acts ->
    StronglySorted Z.lt acts /\
    (_phase s = Deal -> acts = _legal_deal_actions s) /\
    (_phase s <> Deal -> 0 <= player /\ incl acts (player_cards s player)).
Proof.
  intros s player acts H. unfold _legal_actions in H.
  assert (Srt : forall v, StronglySorted Z.lt (cards_at v (_card_locations s))).
  { intros v. rewrite cards_at_from_0. apply cards_at_from_sorted. }
  destruct (_phase s) eqn:HP; simpl in H.
  - injection H as <-. split; [apply Srt|]. split; [auto | congruence].
  - destruct (0 <=? player) eqn:E; simpl in H; try discriminate.
    apply Z.leb_le in E.
    assert (Hand : StronglySorted Z.lt (player_cards s player) /\
                   (Play = Deal -> player_cards s player = _legal_deal_actions s) /\
                   (Play <> Deal -> 0 <= player /\
                                    incl (player_cards s player) (player_cards s player))).
    { split; [apply Srt|]. split; [discriminate|]. intros _. split; auto.
      apply incl_refl. }
    destruct (_num_cards_played s =? 0); [injection H as <-; exact Hand|].
    destruct (_num_cards_played s mod _NUM_PLAYERS =? 0); [injection H as <-; exact Hand|].
    destruct (last_trick s) as [t|]; simpl in H; try discriminate.
    injection H as <-.
    destruct (0 <? length _)%nat; [|exact Hand].
    split; [apply StronglySorted_filter, Srt|]. split; [discriminate|].
    intros _. split; auto. intros x Hx. apply filter_In in Hx. tauto.
  - destruct (0 <=? player) eqn:E; simpl in H; try discriminate.
    apply Z.leb_le in E.
    assert (Hand : StronglySorted Z.lt (player_cards s player) /\
                   (GameOver = Deal -> player_cards s player = _legal_deal_actions s) /\
                   (GameOver <> Deal -> 0 <= player /\
                                    incl (player_cards s player) (player_cards s player))).
    { split; [apply Srt|]. split; [discriminate|]. intros _. split; auto.
      apply incl_refl. }
    destruct (_num_cards_played s =? 0); [injection H as <-; exact Hand|].
    destruct (_num_cards_played s mod _NUM_PLAYERS =? 0); [injection H as <-; exact Hand|].
    destruct (last_trick s) as [t|]; simpl in H; try discriminate.
    injection H as <-.
    destruct (0 <? length _)%nat; [|exact Hand].
    split; [apply StronglySorted_filter, Srt|]. split; [discriminate|].
    intros _. split; auto. intros x Hx. apply filter_In in Hx. tauto.
Qed.

(** X10: in a reachable state [chance_outcomes] succeeds exactly in the
    Deal phase, with at least one and at most the declared maximal number of
    outcomes; outside the Deal phase it fails its assertion, and the exit
    for an empty deck is never reached. *)
Theorem chance_outcomes_domain :
  forall s, reachable s ->
    (_phase s = Deal ->
       exists outcomes,
         chance_outcomes s = Ok outcomes /\ outcomes <> [] /\
         map fst outcomes = _legal_deal_actions s /\
         Z.of_nat (length outcomes) <= max_chance_outcomes _GAME_INFO) /\
    (_phase s <> Deal -> chance_outcomes s = Err AssertionError) /\
    chance_outcomes s <> Err SystemExit.
Proof.
  intros s Hr. apply reachable_Inv in Hr. pose proof (inv_phase s Hr) as H.
  unfold chance_outcomes, is_chance_node, current_player.
  destruct (_phase s) eqn:HP; [| |destruct H].
  - pose proof (di_deck s H) as Hk. rewrite (di_over s H).
    change (py_assert (PlayerId.CHANCE =? PlayerId.CHANCE)) with (Ok tt).
    cbv beta iota delta [bind].
    destruct (_legal_deal_actions s) as [|c l] eqn:E; [simpl in Hk; lia|].
    change (length (c :: l) =? 0)%nat with false. cbv iota.
    split; [|split; [congruence | discriminate]].
    intros _. eexists. split; [reflexivity|]. split; [discriminate|].
    split.
    + rewrite map_map. simpl. now rewrite map_id.
    + rewrite length_map. change (max_chance_outcomes _GAME_INFO) with 6. lia.
  - assert (E : ((if _game_over s then PlayerId.TERMINAL
                  else (if phase_eqb Play Deal then PlayerId.CHANCE else _next_player s))
                 =? PlayerId.CHANCE) = false).
    { destruct (_game_over s) eqn:Hgo; [reflexivity|].
      pose proof (pi_next s H Hgo) as Hx. simpl. apply Z.eqb_neq.
      unfold PlayerId.CHANCE. lia. }
    rewrite E. simpl. split; [congruence|]. split; [reflexivity | discriminate].
Qed.

Lemma index_none len c :
  c < - Z.of_nat len \/ Z.of_nat len <= c -> PyList.index len c = None.
Proof.
  intros H. unfold PyList.index.
  replace ((0 <=? c) && (c <? Z.of_nat len)) with false.
  2:{ symmetry. apply andb_false_iff. rewrite Z.leb_gt, Z.ltb_ge. lia. }
  replace ((- Z.of_nat len <=? c) && (c <? 0)) with false; auto.
  symmetry. apply andb_false_iff. rewrite Z.leb_gt, Z.ltb_ge. lia.
Qed.

Lemma getitem_error {A} (l : list A) i e : PyList.getitem l i = Err e -> e = IndexError.
Proof.
  unfold PyList.getitem. destruct (PyList.index (length l) i);
    [destruct (nth_error l n)|]; congruence.
Qed.

(** X11: an action that is not an index of the location list (below minus
    the number of cards, or at least the number of cards) makes
    [_apply_action] raise [IndexError], in every state and phase. *)
Theorem apply_action_out_of_range :
  forall s card,
    card < - Z.of_nat (length (_card_locations s)) \/
    Z.of_nat (length (_card_locations s)) <= card ->
    _apply_action s card = Err IndexError.
Proof.
  intros s card Hc. apply index_none in Hc.
  assert (Hset : forall L, PyList.setitem (_card_locations s) card L = Err IndexError).
  { intros L. unfold PyList.setitem. now rewrite Hc. }
  unfold _apply_action. destruct (phase_eqb (_phase s) Deal).
  - unfold _apply_deal_action.
    destruct (CardLocation_of_value
                (Z.of_nat (length (_legal_deal_actions s)) mod _NUM_PLAYERS))
      as (L & HL & _).
    { pose proof (Z.mod_pos_bound (Z.of_nat (length (_legal_deal_actions s)))
                    _NUM_PLAYERS eq_refl). change _NUM_PLAYERS with 3 in *. lia. }
    rewrite HL. simpl bind. now rewrite Hset.
  - destruct (_num_cards_played s mod _NUM_PLAYERS =? 0).
    + unfold play_in_last_trick, last_trick. simpl _tricks.
      rewrite getitem_last. simpl bind. rewrite setitem_last. simpl bind.
      unfold move_to_trick. simpl _card_locations. now rewrite Hset.
    + unfold play_in_last_trick, last_trick.
      destruct (_tricks s) as [|t0 ts] eqn:E using rev_ind.
      * rewrite getitem_nil. reflexivity.
      * rewrite getitem_last. simpl bind. rewrite setitem_last. simpl bind.
        unfold move_to_trick. simpl _card_locations. now rewrite Hset.
Qed.

(** ** Which hand each dealt card reaches *)

Lemma deal_all_hands acts : forall s,
  Inv s -> _phase s = Deal -> Permutation acts (_legal_deal_actions s) ->
  exists s',
    play_from s acts = Ok s' /\
    forall p, 0 <= p < 3 ->
      Permutation (player_cards s' p) (hand_dealt (length acts) acts p ++ player_cards s p).
Proof.
  induction acts as [|a rest IH]; intros s HI HD Hperm.
  - pose proof (inv_phase s HI) as H. rewrite HD in H.
    pose proof (di_deck s H) as Hk. rewrite <- (Permutation_length Hperm) in Hk.
    simpl in Hk. lia.
  - assert (Hin : In a (_legal_deal_actions s)).
    { eapply Permutation_in; [exact Hperm | now left]. }
    pose proof (inv_phase s HI) as HDI. rewrite HD in HDI.
    destruct (deal_step_effect s a HD Hin) as (n & s1 & -> & Hap & He).
    assert (Hstep : apply_legal_action s (Z.of_nat n) = Ok s1).
    { apply apply_legal_action_step. apply step_intro with (_legal_deal_actions s); auto.
      unfold legal_actions, is_terminal, _legal_actions.
      now rewrite (di_over s HDI), HD. }
    assert (HI1 : Inv s1) by (eapply Inv_deal_step; eauto).
    unfold play_from. simpl for_each. rewrite Hstep. simpl bind.
    assert (Hrest : Permutation rest (_legal_deal_actions s1)).
    { apply Permutation_cons_inv with (Z.of_nat n).
      rewrite Hperm. apply (de_deck s n s1 He). }
    pose proof (Permutation_length Hperm) as Hk. simpl in Hk.
    assert (Hone : forall p, 0 <= p < 3 ->
              Permutation (player_cards s1 p)
                ((if Z.of_nat (S (length rest)) mod _NUM_PLAYERS =? p
                  then [Z.of_nat n] else []) ++ player_cards s p)).
    { intros p Hp. destruct (de_locs s n s1 He) as (L & _ & HLv & HLr & Hlocs).
      unfold player_cards. rewrite Hlocs, !cards_at_from_0, Hk, <- HLv.
      destruct (loc_value L =? p) eqn:E.
      - apply Z.eqb_eq in E.
        apply (cards_at_from_arrive 0 p n Deck L _ (de_from s n s1 He)); auto.
        simpl. lia.
      - apply Z.eqb_neq in E. simpl app.
        rewrite (cards_at_from_other 0 p n Deck L _ (de_from s n s1 He)); auto.
        simpl. lia. }
    destruct rest as [|b rest].
    + exists s1. split; [reflexivity|]. intros p Hp.
      rewrite (Hone p Hp). simpl hand_dealt. now rewrite app_nil_r.
    + pose proof (de_phase s n s1 He) as HP1. rewrite <- Hk in HP1. simpl in HP1.
      destruct (IH s1 HI1 HP1 Hrest) as (s' & Hrun & Hh).
      exists s'. split; [exact Hrun|]. intros p Hp.
      rewrite (Hh p Hp), (Hone p Hp).
      change (hand_dealt (length (Z.of_nat n :: b :: rest)) (Z.of_nat n :: b :: rest) p)
        with ((if Z.of_nat (S (length (b :: rest))) mod _NUM_PLAYERS =? p
               then [Z.of_nat n] else []) ++ hand_dealt (length (b :: rest)) (b :: rest) p).
      rewrite <- !app_assoc.
      destruct (Z.of_nat (S (length (b :: rest))) mod _NUM_PLAYERS =? p); simpl app.
      * apply Permutation_sym, Permutation_middle.
      * apply Permutation_refl.
Qed.

Lemma sorted_pair l x y :
  StronglySorted Z.lt l -> Permutation [x; y] l -> l = [Z.min x y; Z.max x y].
Proof.
  intros S P. apply Permutation_length_2_inv in P.
  destruct P as [-> | ->]; inversion S as [|? ? _ F]; subst;
    inversion F as [|? ? Hlt _]; subst; f_equal; try f_equal; lia.
Qed.

(** X12: the order of the six chance actions decides the hands: when the
    cards are dealt in the order a0, ..., a5 (any order of the six cards),
    the deal succeeds and seat 0 holds a0 and a3, seat 2 holds a1 and a4 and
    seat 1 holds a2 and a5, each hand listed in ascending order. *)
Theorem deal_order_decides_hands :
  forall a0 a1 a2 a3 a4 a5,
    Permutation [a0; a1; a2; a3; a4; a5] (PyList.range _NUM_CARDS) ->
    exists s',
      play_from SchafkopfState_init [a0; a1; a2; a3; a4; a5] = Ok s' /\
      player_cards s' 0 = [Z.min a0 a3; Z.max a0 a3] /\
      player_cards s' 2 = [Z.min a1 a4; Z.max a1 a4] /\
      player_cards s' 1 = [Z.min a2 a5; Z.max a2 a5].
Proof.
  intros a0 a1 a2 a3 a4 a5 Hperm.
  destruct (deal_all_hands _ SchafkopfState_init Inv_init eq_refl Hperm) as (s' & Hrun & Hh).
  exists s'. split; [exact Hrun|].
  assert (Srt : forall p, StronglySorted Z.lt (player_cards s' p)).
  { intros p. unfold player_cards. rewrite cards_at_from_0. apply cards_at_from_sorted. }
  split; [|split]; apply sorted_pair; auto; apply Permutation_sym.
  - apply (Hh 0). lia.
  - apply (Hh 2). lia.
  - apply (Hh 1). lia.
Qed.

(** ** The observation tensor *)

Ltac ostep H := unfold obind at 1 in H; cbv beta iota in H.

Lemma obind_Done {A B} (a : A) (k : A -> outcome B) : obind (Done a) k = k a.
Proof. reflexivity. Qed.

Lemma init_layout (T V : Type) (ty : T) (params : option (list (String.string * V))) obs :
  SchafkopfObserver_init ty params = Ok obs ->
  dict obs = observer_layout /\ tensor obs = repeat (PyFloat.of_Z 0) 66.
Proof.
  unfold SchafkopfObserver_init. destruct (truthy params); [discriminate|].
  intros H. vm_compute in H. injection H as <-. split; reflexivity.
Qed.

Lemma ofor_each_inv {S A} (P : S -> Prop) (body : S -> A -> outcome S) l :
  (forall s x s', P s -> body s x = Done s' -> P s') ->
  forall s s', P s -> ofor_each body s l = Done s' -> P s'.
Proof.
  intros Hb. induction l as [|x t IH]; intros s s' Hs H; simpl in H.
  - now injection H as <-.
  - destruct (body s x) as [s1|e] eqn:E; simpl in H; [|discriminate].
    eapply IH; [|exact H]. eapply Hb; eauto.
Qed.

Lemma length_fill_range {A} cnt : forall from (x : A) l,
  length (fill_range from cnt x l) = length l.
Proof.
  induction cnt as [|k IH]; intros from x l; simpl; auto.
  now rewrite IH, length_set_nth.
Qed.

Lemma view_setitem_shaped obs name idx obs' :
  shaped obs -> view_setitem obs name idx = Done obs' -> shaped obs'.
Proof.
  intros [Hd Hl] H. unfold view_setitem in H.
  destruct (dict_get (dict obs) name) as [v|e]; simpl in H; [|discriminate].
  destruct (view_cells (view_shape v) idx) as [oc|e]; simpl in H; [|discriminate].
  injection H as <-. split; simpl; auto. now rewrite length_fill_range.
Qed.

Lemma set_from_trick_shaped obs ln cn t obs' :
  shaped obs -> set_from_trick obs ln cn t = Done obs' -> shaped obs'.
Proof.
  intros Hs H. unfold set_from_trick in H.
  destruct (view_setitem obs ln [_leader t]) as [o1|e] eqn:E; ostep H; [|discriminate].
  apply view_setitem_shaped in E; auto.
  revert H. apply ofor_each_inv; auto.
  intros o p o' Ho Hb. destruct (cards_played t >? p); [|now injection Hb as <-].
  destruct (PyList.getitem (_cards t) p) as [c|e]; simpl lift in Hb; ostep Hb;
    [|discriminate].
  eapply view_setitem_shaped; eauto.
Qed.

Lemma set_from_shaped obs s player obs' :
  shaped obs -> set_from obs s player = Done obs' -> shaped obs'.
Proof.
  intros [Hd Hl] H. unfold set_from in H.
  set (o0 := mkObserver _ (dict obs)) in H.
  assert (H0 : shaped o0) by (split; simpl; auto; now rewrite length_map).
  destruct (view_setitem o0 "player"%string [player]) as [o1|e] eqn:E1; ostep H; [|discriminate].
  apply view_setitem_shaped in E1; auto.
  match type of H with
  | obind ?m _ = _ => destruct m as [o2|e] eqn:E2; ostep H; [|discriminate]
  end.
  assert (H2 : shaped o2).
  { destruct (dict_mem (dict o1) "private_cards"%string); [|now injection E2 as <-].
    revert E2. apply ofor_each_inv; auto.
    intros o p o' Ho. apply ofor_each_inv; auto.
    intros o3 [c loc] o4 Ho3 Hb. destruct (loc_value loc =? p); [|now injection Hb as <-].
    apply (view_setitem_shaped o3 _ _ o4 Ho3 Hb). }
  destruct (view_setitem o2 "solo_player"%string [0]) as [o3|e] eqn:E3; ostep H; [|discriminate].
  apply view_setitem_shaped in E3; auto.
  match type of H with
  | obind ?m _ = _ => destruct m as [o4|e] eqn:E4; ostep H; [|discriminate]
  end.
  assert (H4 : shaped o4).
  { destruct (0 <? length (_tricks s))%nat; [|now injection E4 as <-].
    destruct (PyList.getitem (_tricks s) (-1)) as [t|e]; simpl lift in E4; ostep E4;
      [|discriminate].
    apply (set_from_trick_shaped o3 _ _ t o4 E3 E4). }
  destruct (1 <? length (_tricks s))%nat; [|now injection H as <-].
  destruct (PyList.getitem (_tricks s) (-2)) as [t|e]; simpl lift in H; ostep H;
    [|discriminate].
  apply (set_from_trick_shaped o4 _ _ t obs' H4 H).
Qed.

Lemma usable_shaped obs : usable obs -> shaped obs.
Proof.
  induction 1 as [T V ty params obs H | obs s player obs' _ IH H].
  - apply init_layout in H as [Hd Ht]. split; auto. rewrite Ht. apply repeat_length.
  - eapply set_from_shaped; eauto.
Qed.

Lemma marks_ext obs (S S' : nat -> Prop) :
  marks obs S -> (forall i, (i < 66)%nat -> (S i <-> S' i)) -> marks obs S'.
Proof.
  intros (Hd & Hl & H) E. split; [exact Hd|]. split; [exact Hl|].
  intros i Hi. destruct (H i Hi) as [[H1 H2] | [H1 H2]]; [left | right];
    (split; [exact H1|]); apply E in H2 || (intros C; apply H2, E; auto); auto.
Qed.

Lemma marks_fill obs :
  shaped obs ->
  marks (mkObserver (map (fun _ => PyFloat.of_Z 0) (tensor obs)) (dict obs))
        (fun _ => False).
Proof.
  intros [Hd Hl]. split; [exact Hd|]. split; [simpl; now rewrite length_map|].
  intros i Hi. right. split; [|tauto]. simpl tensor. rewrite nth_error_map.
  destruct (nth_error (tensor obs) i) eqn:E; [reflexivity|].
  apply nth_error_None in E. lia.
Qed.

Lemma marks_set obs (S : nat -> Prop) pos :
  marks obs S ->
  marks (mkObserver (PyList.set_nth pos (PyFloat.of_Z 1) (tensor obs)) (dict obs))
        (fun i => S i \/ i = pos).
Proof.
  intros (Hd & Hl & H). split; [exact Hd|]. split; [simpl; now rewrite length_set_nth|].
  intros i Hi. simpl tensor. destruct (Nat.eq_dec pos i) as [->|Hne].
  - left. split; [|now right]. apply nth_error_set_nth_eq. lia.
  - rewrite (nth_error_set_nth_neq pos i _ _ Hne).
    destruct (H i Hi) as [[H1 H2] | [H1 H2]]; [left | right]; split; auto.
    intros [C | C]; [tauto | congruence].
Qed.

(** A write through a view of shape (3,). *)
Lemma setitem_1d obs (S : nat -> Prop) name st sp i k :
  marks obs S -> dict_get observer_layout name = Done (mkView (Z.of_nat st) sp [3]) ->
  PyList.index 3 i = Some k ->
  exists obs', view_setitem obs name [i] = Done obs' /\
               marks obs' (fun j => S j \/ j = (st + k)%nat).
Proof.
  intros M Hv Hi. unfold view_setitem. rewrite (proj1 M), Hv.
  unfold obind at 1. cbv beta iota. simpl view_shape. simpl view_start.
  unfold view_cells. change (Z.to_nat 3) with 3%nat. rewrite Hi.
  simpl bind. simpl lift. unfold obind. simpl fst. simpl snd.
  change (Z.to_nat 1) with 1%nat. simpl fill_range.
  replace (Z.to_nat (Z.of_nat st + (Z.of_nat k * 1 + 0))) with (st + k)%nat by lia.
  eexists. split; [reflexivity|]. rewrite <- (proj1 M) at 1. now apply marks_set.
Qed.

(** A write through a view of shape (3, 6). *)
Lemma setitem_2d obs (S : nat -> Prop) name st sp i j a b :
  marks obs S -> dict_get observer_layout name = Done (mkView (Z.of_nat st) sp [3; 6]) ->
  PyList.index 3 i = Some a -> PyList.index 6 j = Some b ->
  exists obs', view_setitem obs name [i; j] = Done obs' /\
               marks obs' (fun n => S n \/ n = (st + 6 * a + b)%nat).
Proof.
  intros M Hv Hi Hj. unfold view_setitem. rewrite (proj1 M), Hv.
  unfold obind at 1. cbv beta iota. simpl view_shape. simpl view_start.
  unfold view_cells. change (Z.to_nat 3) with 3%nat. change (Z.to_nat 6) with 6%nat.
  rewrite Hi, Hj.
  simpl bind. simpl lift. unfold obind. simpl fst. simpl snd.
  change (Z.to_nat 1) with 1%nat. simpl fill_range.
  replace (Z.to_nat (Z.of_nat st + (Z.of_nat a * (6 * 1) + (Z.of_nat b * 1 + 0))))
    with (st + 6 * a + b)%nat by lia.
  eexists. split; [reflexivity|]. rewrite <- (proj1 M) at 1. now apply marks_set.
Qed.

Lemma layout_views :
  dict_get observer_layout "player"%string = Done (mkView (Z.of_nat 0) 3 [3]) /\
  dict_get observer_layout "private_cards"%string = Done (mkView (Z.of_nat 3) 21 [3; 6]) /\
  dict_get observer_layout "solo_player"%string = Done (mkView (Z.of_nat 21) 24 [3]) /\
  dict_get observer_layout "cur_trick_leader"%string = Done (mkView (Z.of_nat 24) 27 [3]) /\
  dict_get observer_layout "cur_trick"%string = Done (mkView (Z.of_nat 27) 45 [3; 6]) /\
  dict_get observer_layout "prev_trick_leader"%string
    = Done (mkView (Z.of_nat 45) 48 [3]) /\
  dict_get observer_layout "prev_trick"%string = Done (mkView (Z.of_nat 48) 66 [3; 6]).
Proof. repeat split. Qed.

Lemma index_Z_to_nat len c :
  0 <= c < Z.of_nat len -> PyList.index len c = Some (Z.to_nat c).
Proof.
  intros H. rewrite <- (Z2Nat.id c) at 1 by lia. apply index_of_nat. lia.
Qed.

Lemma private_inner p l : forall j obs (S : nat -> Prop),
  (p < 3)%nat -> marks obs S -> (j + length l <= 6)%nat ->
  exists obs',
    ofor_each
      (fun obs cl =>
         let '(c, loc) := cl in
         if loc_value loc =? Z.of_nat p
         then view_setitem obs "private_cards"%string [loc_value loc; c]
         else Done obs)
      obs (PyList.enumerate_from (Z.of_nat j) l) = Done obs' /\
    marks obs' (fun i => S i \/
                         exists c L, nth_error l c = Some L /\ loc_value L = Z.of_nat p /\
                                     i = (3 + 6 * p + (j + c))%nat).
Proof.
  induction l as [|L t IH]; intros j obs S Hp M Hj.
  - exists obs. split; [reflexivity|]. apply (marks_ext obs S); auto.
    intros i _. split; [tauto|]. intros [H | (c & L & H & _)]; auto. now destruct c.
  - simpl PyList.enumerate_from. simpl ofor_each. simpl length in Hj.
    assert (Hnext : Z.of_nat j + 1 = Z.of_nat (Datatypes.S j)) by lia.
    rewrite Hnext.
    destruct (loc_value L =? Z.of_nat p) eqn:E.
    + apply Z.eqb_eq in E.
      destruct (setitem_2d obs S "private_cards"%string 3 21 (loc_value L) (Z.of_nat j) p j M)
        as (o1 & H1 & M1).
      * apply layout_views.
      * rewrite E. apply index_of_nat. lia.
      * apply index_of_nat. lia.
      * rewrite H1. unfold obind at 1. cbv beta iota.
        destruct (IH (Datatypes.S j) o1 _ Hp M1 ltac:(lia)) as (o2 & H2 & M2).
        exists o2. split; [exact H2|]. apply (marks_ext o2 _ _ M2).
        intros i _. split.
        -- intros [[H | ->] | (c & L' & Hc & HL & ->)]; auto.
           ++ right. exists 0%nat, L. split; [reflexivity|]. split; [exact E | lia].
           ++ right. exists (Datatypes.S c), L'. split; [exact Hc|]. split; [exact HL | lia].
        -- intros [H | (c & L' & Hc & HL & ->)]; auto.
           destruct c as [|c]; simpl in Hc.
           ++ left. right. lia.
           ++ right. exists c, L'. split; [exact Hc|]. split; [exact HL | lia].
    + apply Z.eqb_neq in E. unfold obind at 1. cbv beta iota.
      destruct (IH (Datatypes.S j) obs S Hp M ltac:(lia)) as (o2 & H2 & M2).
      exists o2. split; [exact H2|]. apply (marks_ext o2 _ _ M2).
      intros i _. split.
      * intros [H | (c & L' & Hc & HL & ->)]; auto.
        right. exists (Datatypes.S c), L'. split; [exact Hc|]. split; [exact HL | lia].
      * intros [H | (c & L' & Hc & HL & ->)]; auto.
        destruct c as [|c]; simpl in Hc.
        -- injection Hc as <-. contradiction.
        -- right. exists c, L'. split; [exact Hc|]. split; [exact HL | lia].
Qed.

Lemma private_block obs (S : nat -> Prop) locs :
  marks obs S -> (length locs <= 6)%nat ->
  exists obs',
    ofor_each
      (fun obs p =>
         ofor_each
           (fun obs cl =>
              let '(c, loc) := cl in
              if loc_value loc =? p
              then view_setitem obs "private_cards"%string [loc_value loc; c]
              else Done obs)
           obs (PyList.enumerate locs))
      obs (PyList.range _NUM_PLAYERS) = Done obs' /\
    marks obs' (fun i => S i \/
                         exists p c L, (p < 3)%nat /\ nth_error locs c = Some L /\
                                       loc_value L = Z.of_nat p /\
                                       i = (3 + 6 * p + c)%nat).
Proof.
  intros M Hl.
  change (PyList.range _NUM_PLAYERS) with [Z.of_nat 0; Z.of_nat 1; Z.of_nat 2].
  unfold PyList.enumerate. change 0 with (Z.of_nat 0) at 1.
  simpl ofor_each.
  destruct (private_inner 0 locs 0 obs S ltac:(lia) M ltac:(lia)) as (o1 & H1 & M1).
  rewrite H1. unfold obind at 1. cbv beta iota.
  destruct (private_inner 1 locs 0 o1 _ ltac:(lia) M1 ltac:(lia)) as (o2 & H2 & M2).
  rewrite H2. unfold obind at 1. cbv beta iota.
  destruct (private_inner 2 locs 0 o2 _ ltac:(lia) M2 ltac:(lia)) as (o3 & H3 & M3).
  rewrite H3. unfold obind at 1. cbv beta iota.
  exists o3. split; [reflexivity|]. apply (marks_ext o3 _ _ M3).
  intros i _. split.
  - intros [[[H | (c & L & Hc & HL & ->)] | (c & L & Hc & HL & ->)]
           | (c & L & Hc & HL & ->)]; auto; right.
    + exists 0%nat, c, L. repeat split; auto; lia.
    + exists 1%nat, c, L. repeat split; auto; lia.
    + exists 2%nat, c, L. repeat split; auto; lia.
  - intros [H | (p & c & L & Hp & Hc & HL & ->)]; auto.
    assert (D : p = 0%nat \/ p = 1%nat \/ p = 2%nat) by lia.
    destruct D as [-> | [-> | ->]].
    + left. left. right. exists c, L. repeat split; auto.
    + left. right. exists c, L. repeat split; auto.
    + right. exists c, L. repeat split; auto.
Qed.

Lemma trick_card obs (S : nat -> Prop) cn st sp t pos :
  marks obs S -> dict_get observer_layout cn = Done (mkView (Z.of_nat st) sp [3; 6]) ->
  (pos < 3)%nat -> Forall (fun c => 0 <= c < 6) (_cards t) ->
  exists obs',
    (if cards_played t >? Z.of_nat pos
     then c <~ lift (PyList.getitem (_cards t) (Z.of_nat pos)) ;;
          view_setitem obs cn [Z.of_nat pos; c]
     else Done obs) = Done obs' /\
    marks obs' (fun i => S i \/
                         exists c, nth_error (_cards t) pos = Some c /\
                                   i = (st + 6 * pos + Z.to_nat c)%nat).
Proof.
  intros M Hv Hpos Hc. unfold cards_played.
  destruct (nth_error (_cards t) pos) as [c|] eqn:E.
  - assert (Hlen : (pos < length (_cards t))%nat) by (apply nth_error_Some; congruence).
    replace (Z.of_nat (length (_cards t)) >? Z.of_nat pos) with true
      by (symmetry; rewrite Z.gtb_ltb; apply Z.ltb_lt; lia).
    rewrite (getitem_of_nat _ _ _ E). simpl lift. unfold obind at 1. cbv beta iota.
    assert (Hr : 0 <= c < 6).
    { apply (proj1 (Forall_forall _ _) Hc). eapply nth_error_In; eauto. }
    destruct (setitem_2d obs S cn st sp (Z.of_nat pos) c pos (Z.to_nat c) M Hv)
      as (o1 & H1 & M1).
    + apply index_of_nat. lia.
    + apply index_Z_to_nat. lia.
    + exists o1. split; [exact H1|]. apply (marks_ext o1 _ _ M1).
      intros i _. split.
      * intros [H | ->]; auto. right. exists c. auto.
      * intros [H | (c' & [= <-] & ->)]; auto.
  - apply nth_error_None in E.
    replace (Z.of_nat (length (_cards t)) >? Z.of_nat pos) with false
      by (symmetry; rewrite Z.gtb_ltb; apply Z.ltb_ge; lia).
    exists obs. split; [reflexivity|]. apply (marks_ext obs _ _ M).
    intros i _. split; [tauto|]. intros [H | (c & [=] & _)]; auto.
Qed.

Lemma trick_block obs (S : nat -> Prop) ln cn stl spl stc spc t :
  marks obs S ->
  dict_get observer_layout ln = Done (mkView (Z.of_nat stl) spl [3]) ->
  dict_get observer_layout cn = Done (mkView (Z.of_nat stc) spc [3; 6]) ->
  0 <= _leader t < 3 -> Forall (fun c => 0 <= c < 6) (_cards t) ->
  exists obs',
    set_from_trick obs ln cn t = Done obs' /\
    marks obs' (fun i => S i \/ trick_cells stl stc t i).
Proof.
  intros M Hl Hc Hlead Hcards. unfold set_from_trick.
  destruct (setitem_1d obs S ln stl spl (_leader t) (Z.to_nat (_leader t)) M Hl)
    as (o0 & H0 & M0).
  { apply index_Z_to_nat. simpl. lia. }
  rewrite H0. unfold obind at 1. cbv beta iota.
  change (PyList.range _NUM_PLAYERS) with [Z.of_nat 0; Z.of_nat 1; Z.of_nat 2].
  simpl ofor_each.
  destruct (trick_card o0 _ cn stc spc t 0 M0 Hc ltac:(lia) Hcards) as (o1 & H1 & M1).
  rewrite H1. unfold obind at 1. cbv beta iota.
  destruct (trick_card o1 _ cn stc spc t 1 M1 Hc ltac:(lia) Hcards) as (o2 & H2 & M2).
  rewrite H2. unfold obind at 1. cbv beta iota.
  destruct (trick_card o2 _ cn stc spc t 2 M2 Hc ltac:(lia) Hcards) as (o3 & H3 & M3).
  rewrite H3. unfold obind at 1. cbv beta iota.
  exists o3. split; [reflexivity|]. apply (marks_ext o3 _ _ M3).
  intros i _. unfold trick_cells. split.
  - intros [[[[H | ->] | (c & Hn & ->)] | (c & Hn & ->)] | (c & Hn & ->)]; auto; right.
    + right. exists 0%nat, c. repeat split; auto.
    + right. exists 1%nat, c. repeat split; auto.
    + right. exists 2%nat, c. repeat split; auto.
  - intros [H | [-> | (pos & c & Hpos & Hn & ->)]]; auto.
    assert (D : pos = 0%nat \/ pos = 1%nat \/ pos = 2%nat) by lia.
    destruct D as [-> | [-> | ->]].
    + left. left. right. exists c. auto.
    + left. right. exists c. auto.
    + right. exists c. auto.
Qed.

Lemma getitem_last2 {A} (l : list A) x y : PyList.getitem (l ++ [x; y]) (-2) = Ok x.
Proof.
  unfold PyList.getitem, PyList.index. rewrite length_app. simpl length.
  replace ((0 <=? -2) && (-2 <? Z.of_nat (length l + 2))) with false by reflexivity.
  replace ((- Z.of_nat (length l + 2) <=? -2) && (-2 <? 0)) with true
    by (symmetry; apply andb_true_iff; split; [apply Z.leb_le; lia | reflexivity]).
  replace (Z.to_nat (Z.of_nat (length l + 2) + -2)) with (length l) by lia.
  rewrite nth_error_app2 by lia. now rewrite Nat.sub_diag.
Qed.

Lemma tricks_in_range s :
  Inv s ->
  Forall (fun t => 0 <= _leader t < 3 /\ Forall (fun c => 0 <= c < 6) (_cards t))
         (_tricks s).
Proof.
  intros HI. pose proof (inv_phase s HI) as H.
  destruct (_phase s) eqn:HP; [| |destruct H].
  - rewrite (di_tricks s H). constructor.
  - apply Forall_forall. intros t Ht.
    pose proof (proj1 (Forall_forall _ _) (pi_wf s H) t Ht) as (Hlead & _).
    split; [exact Hlead|]. apply Forall_forall. intros c Hc.
    assert (Hin : In c (played (_tricks s))).
    { unfold played. apply in_concat. exists (_cards t). split; auto.
      now apply in_map. }
    apply (Permutation_in _ (Permutation_sym (pi_trick s H))) in Hin.
    apply in_cards_at in Hin as (n & L & -> & Hn & _).
    assert (n < length (_card_locations s))%nat by (apply nth_error_Some; congruence).
    rewrite (inv_locs s HI) in *. lia.
Qed.

(** The tensor [set_from] leaves. *)
Lemma set_from_marks obs s player k :
  shaped obs -> PyList.index 3 player = Some k ->
  (length (_card_locations s) <= 6)%nat ->
  Forall (fun t => 0 <= _leader t < 3 /\ Forall (fun c => 0 <= c < 6) (_cards t))
         (_tricks s) ->
  exists obs', set_from obs s player = Done obs' /\ marks obs' (cells s k).
Proof.
  intros Hs Hk Hlocs Htr. unfold set_from.
  pose proof (marks_fill obs Hs) as M.
  destruct (setitem_1d _ _ "player"%string 0 3 player k M (proj1 layout_views) Hk)
    as (o1 & H1 & M1).
  rewrite H1. rewrite obind_Done; cbv beta.
  rewrite (proj1 M1). change (dict_mem observer_layout "private_cards"%string) with true.
  cbv iota.
  destruct (private_block o1 _ (_card_locations s) M1 Hlocs) as (o2 & H2 & M2).
  rewrite H2. rewrite obind_Done; cbv beta.
  destruct (setitem_1d o2 _ "solo_player"%string 21 24 0 0%nat M2) as (o3 & H3 & M3);
    [apply layout_views | reflexivity |].
  rewrite H3. rewrite obind_Done; cbv beta.
  destruct (_tricks s) as [|t ts _] eqn:Ets using rev_ind.
  - change (0 <? length (@nil SchafkopfTrick))%nat with false.
    change (1 <? length (@nil SchafkopfTrick))%nat with false.
    cbv iota. rewrite obind_Done; cbv beta.
    exists o3. split; [reflexivity|]. apply (marks_ext o3 _ _ M3).
    intros i _. unfold cells. rewrite Ets. split.
    + intros [[[[] | ->] | H] | ->]; auto.
    + intros [-> | [H | [-> | [(l & t & E & _) | (l & t' & t & E & _)]]]]; auto 10;
        destruct l; discriminate.
  - apply Forall_app in Htr as [Hts Ht]. inversion Ht as [|? ? [Hlead Hcards] _]; subst.
    replace (0 <? length (ts ++ [t]))%nat with true
      by (symmetry; apply Nat.ltb_lt; rewrite length_app; simpl; lia).
    rewrite getitem_last. simpl lift. rewrite obind_Done; cbv beta.
    destruct (trick_block o3 _ "cur_trick_leader"%string "cur_trick"%string
                24 27 27 45 t M3) as (o4 & H4 & M4); auto; try apply layout_views.
    rewrite H4. rewrite obind_Done; cbv beta.
    destruct ts as [|t' ts' _] using rev_ind.
    + change (1 <? length ([] ++ [t]))%nat with false. cbv iota.
      exists o4. split; [reflexivity|]. apply (marks_ext o4 _ _ M4).
      intros i _. unfold cells. rewrite Ets. split.
      * intros [[[[[] | ->] | H] | ->] | H]; auto.
        right. right. right. left. exists [], t. auto.
      * intros [-> | [H | [-> | [(l & t0 & E & H) | (l & t' & t0 & E & _)]]]]; auto 10.
        -- apply (app_inj_tail [] l) in E as [_ <-]. auto 10.
        -- destruct l as [|? [|? ?]]; discriminate.
    + apply Forall_app in Hts as [_ Ht']. inversion Ht' as [|? ? [Hlead' Hcards'] _]; subst.
      replace (1 <? length ((ts' ++ [t']) ++ [t]))%nat with true
        by (symmetry; apply Nat.ltb_lt; rewrite !length_app; simpl; lia).
      rewrite <- app_assoc. simpl app. rewrite getitem_last2.
      simpl lift. rewrite obind_Done; cbv beta.
      destruct (trick_block o4 _ "prev_trick_leader"%string "prev_trick"%string
                  45 48 48 66 t' M4) as (o5 & H5 & M5); auto; try apply layout_views.
      exists o5. split; [exact H5|]. apply (marks_ext o5 _ _ M5).
      intros i _. unfold cells. rewrite Ets, <- app_assoc. simpl app. split.
      * intros [[[[[[] | ->] | H] | ->] | H] | H]; auto.
        -- right. right. right. left. exists (ts' ++ [t']), t.
           rewrite <- app_assoc. auto.
        -- right. right. right. right. exists ts', t', t. auto.
      * intros [-> | [H | [-> | [(l & t0 & E & H) | (l & t1 & t0 & E & H)]]]]; auto 10.
        -- change (ts' ++ [t'; t]) with (ts' ++ [t'] ++ [t]) in E.
           rewrite app_assoc in E. apply app_inj_tail in E as [_ <-]. auto 10.
        -- change (ts' ++ [t'; t]) with (ts' ++ [t'] ++ [t]) in E.
           change (l ++ [t1; t0]) with (l ++ [t1] ++ [t0]) in E.
           rewrite !app_assoc in E. apply app_inj_tail in E as [E _].
           apply app_inj_tail in E as [_ <-]. auto 10.
Qed.

Lemma marks_unique o1 o2 (S : nat -> Prop) : marks o1 S -> marks o2 S -> o1 = o2.
Proof.
  intros (D1 & L1 & H1) (D2 & L2 & H2).
  destruct o1 as [t1 d1], o2 as [t2 d2]. simpl in *. subst d1 d2. f_equal.
  apply nth_error_ext. intros i. destruct (Nat.lt_ge_cases i 66) as [Hi | Hi].
  - destruct (H1 i Hi) as [[E1 P1] | [E1 P1]], (H2 i Hi) as [[E2 P2] | [E2 P2]];
      try congruence; contradiction.
  - rewrite (proj2 (nth_error_None t1 i)), (proj2 (nth_error_None t2 i)); auto; lia.
Qed.

Lemma marks_values obs (S : nat -> Prop) :
  marks obs S ->
  Forall (fun x => x = PyFloat.of_Z 0 \/ x = PyFloat.of_Z 1) (tensor obs).
Proof.
  intros (_ & Hl & H). apply Forall_forall. intros x Hx.
  apply In_nth_error in Hx as (i & Hi).
  assert (Hlt : (i < 66)%nat) by (rewrite <- Hl; apply nth_error_Some; congruence).
  destruct (H i Hlt) as [[E _] | [E _]]; rewrite E in Hi; injection Hi as <-; auto.
Qed.

(** A read through a view of shape (3,). *)
Lemma getitem_1d obs (S : nat -> Prop) name st sp q :
  marks obs S -> dict_get observer_layout name = Done (mkView (Z.of_nat st) sp [3]) ->
  (st + 3 <= 66)%nat -> 0 <= q < 3 ->
  (view_getitem obs name [q] = Done (PyFloat.of_Z 1) /\ S (st + Z.to_nat q)%nat) \/
  (view_getitem obs name [q] = Done (PyFloat.of_Z 0) /\ ~ S (st + Z.to_nat q)%nat).
Proof.
  intros (Hd & Hl & H) Hv Hst Hq. unfold view_getitem. rewrite Hd, Hv.
  rewrite obind_Done. cbv beta. simpl view_shape. simpl view_start.
  unfold view_cells. change (Z.to_nat 3) with 3%nat.
  rewrite (index_Z_to_nat 3 q) by (simpl; lia).
  simpl bind. simpl lift. rewrite obind_Done. cbv beta. simpl fst.
  replace (Z.of_nat st + (Z.of_nat (Z.to_nat q) * 1 + 0))
    with (Z.of_nat (st + Z.to_nat q)) by lia.
  assert (Hlt : (st + Z.to_nat q < 66)%nat) by lia.
  destruct (H _ Hlt) as [[E P] | [E P]]; [left | right];
    (split; [|exact P]); now rewrite (getitem_of_nat _ _ _ E).
Qed.

(** A read through a view of shape (3, 6). *)
Lemma getitem_2d obs (S : nat -> Prop) name st sp p c :
  marks obs S -> dict_get observer_layout name = Done (mkView (Z.of_nat st) sp [3; 6]) ->
  (st + 18 <= 66)%nat -> 0 <= p < 3 -> 0 <= c < 6 ->
  (view_getitem obs name [p; c] = Done (PyFloat.of_Z 1) /\
   S (st + 6 * Z.to_nat p + Z.to_nat c)%nat) \/
  (view_getitem obs name [p; c] = Done (PyFloat.of_Z 0) /\
   ~ S (st + 6 * Z.to_nat p + Z.to_nat c)%nat).
Proof.
  intros (Hd & Hl & H) Hv Hst Hp Hc. unfold view_getitem. rewrite Hd, Hv.
  rewrite obind_Done. cbv beta. simpl view_shape. simpl view_start.
  unfold view_cells. change (Z.to_nat 3) with 3%nat. change (Z.to_nat 6) with 6%nat.
  rewrite (index_Z_to_nat 3 p), (index_Z_to_nat 6 c) by (simpl; lia).
  simpl bind. simpl lift. rewrite obind_Done. cbv beta. simpl fst.
  replace (Z.of_nat st + (Z.of_nat (Z.to_nat p) * (6 * 1) + (Z.of_nat (Z.to_nat c) * 1 + 0)))
    with (Z.of_nat (st + 6 * Z.to_nat p + Z.to_nat c)) by lia.
  assert (Hlt : (st + 6 * Z.to_nat p + Z.to_nat c < 66)%nat) by lia.
  destruct (H _ Hlt) as [[E P] | [E P]]; [left | right];
    (split; [|exact P]); now rewrite (getitem_of_nat _ _ _ E).
Qed.

(** [set_from] on a state of a game, for a seat. *)
Lemma set_from_reachable obs s player :
  usable obs -> reachable s -> 0 <= player < 3 ->
  exists obs', set_from obs s player = Done obs' /\ marks obs' (cells s (Z.to_nat player)).
Proof.
  intros Hu Hr Hp. apply usable_shaped in Hu. apply reachable_Inv in Hr.
  apply set_from_marks; auto.
  - apply index_Z_to_nat. simpl. lia.
  - rewrite (inv_locs s Hr). lia.
  - now apply tricks_in_range.
Qed.

Lemma trick_cells_range lead base t i :
  0 <= _leader t < 3 -> Forall (fun c => 0 <= c < 6) (_cards t) ->
  trick_cells lead base t i ->
  (i = (lead + Z.to_nat (_leader t))%nat /\ (lead <= i < lead + 3)%nat) \/
  (exists pos c, (pos < 3)%nat /\ nth_error (_cards t) pos = Some c /\ 0 <= c < 6 /\
                 i = (base + 6 * pos + Z.to_nat c)%nat /\ (base <= i < base + 18)%nat).
Proof.
  intros Hl Hc [-> | (pos & c & Hpos & Hn & ->)]; [left; lia | right].
  assert (Hr : 0 <= c < 6).
  { apply (proj1 (Forall_forall _ _) Hc). eapply nth_error_In; eauto. }
  exists pos, c. repeat split; auto; lia.
Qed.

Lemma cells_by_segment s k i :
  (k < 3)%nat -> (length (_card_locations s) <= 6)%nat ->
  Forall (fun t => 0 <= _leader t < 3 /\ Forall (fun c => 0 <= c < 6) (_cards t))
         (_tricks s) ->
  cells s k i ->
  (i < 3 /\ i = k)%nat \/
  ((3 <= i < 21)%nat /\
   exists p c L, (p < 3)%nat /\ (c < 6)%nat /\ nth_error (_card_locations s) c = Some L /\
                 loc_value L = Z.of_nat p /\ i = (3 + 6 * p + c)%nat) \/
  i = 21%nat \/
  ((24 <= i < 45)%nat /\ exists ts t, _tricks s = ts ++ [t] /\ trick_cells 24 27 t i) \/
  ((45 <= i < 66)%nat /\
   exists ts t' t, _tricks s = ts ++ [t'; t] /\ trick_cells 45 48 t' i).
Proof.
  intros Hk Hlocs Htr [-> | [(p & c & L & Hp & Hc & HL & ->) | [-> | [H | H]]]].
  - left. lia.
  - right. left.
    assert (c < length (_card_locations s))%nat by (apply nth_error_Some; congruence).
    split; [lia|]. exists p, c, L. repeat split; auto; lia.
  - auto.
  - right. right. right. left. split; [|exact H].
    destruct H as (ts & t & E & H). rewrite E in Htr.
    apply Forall_app in Htr as [_ Ht]. inversion Ht as [|? ? [Hl Hcs] _]; subst.
    destruct (trick_cells_range 24 27 t i Hl Hcs H) as [[_ R] | (? & ? & _ & _ & _ & _ & R)];
      lia.
  - right. right. right. right. split; [|exact H].
    destruct H as (ts & t' & t & E & H). rewrite E in Htr.
    apply Forall_app in Htr as [_ Ht]. inversion Ht as [|? ? [Hl Hcs] _]; subst.
    destruct (trick_cells_range 45 48 t' i Hl Hcs H) as [[_ R] | (? & ? & _ & _ & _ & _ & R)];
      lia.
Qed.

(** The reads of the two views of a trick, given which cells of the views
    are marked. *)
Lemma trick_views obs (S : nat -> Prop) ln cn lead spl spc t :
  marks obs S ->
  dict_get observer_layout ln = Done (mkView (Z.of_nat lead) spl [3]) ->
  dict_get observer_layout cn = Done (mkView (Z.of_nat (lead + 3)) spc [3; 6]) ->
  (lead + 21 <= 66)%nat ->
  0 <= _leader t < 3 -> Forall (fun c => 0 <= c < 6) (_cards t) ->
  (forall i, (lead <= i < lead + 21)%nat -> (S i <-> trick_cells lead (lead + 3) t i)) ->
  (forall q, 0 <= q < 3 ->
     view_getitem obs ln [q] = Done (PyFloat.of_Z (if q =? _leader t then 1 else 0))) /\
  (forall pos c, 0 <= pos < 3 -> 0 <= c < 6 ->
     view_getitem obs cn [pos; c] =
       Done (PyFloat.of_Z
               (if option_Z_eqb c (nth_error (_cards t) (Z.to_nat pos)) then 1 else 0))).
Proof.
  intros M Hl Hc Hb Hlead Hcards HS. split.
  - intros q Hq.
    destruct (getitem_1d obs S ln lead spl q M Hl ltac:(lia) Hq) as [[E P] | [E P]];
      rewrite E; f_equal.
    + apply HS in P; [|lia].
      destruct (trick_cells_range _ _ t _ Hlead Hcards P)
        as [[P1 _] | (? & ? & _ & _ & _ & P1 & _)]; [|lia].
      replace (q =? _leader t) with true by (symmetry; apply Z.eqb_eq; lia). reflexivity.
    + destruct (q =? _leader t) eqn:Eq; [|reflexivity].
      apply Z.eqb_eq in Eq. exfalso. apply P, HS; [lia|]. left. now rewrite Eq.
  - intros pos c Hpos Hcr.
    destruct (getitem_2d obs S cn (lead + 3) spc pos c M Hc ltac:(lia) Hpos Hcr)
      as [[E P] | [E P]]; rewrite E; f_equal.
    + apply HS in P; [|lia].
      destruct (trick_cells_range _ _ t _ Hlead Hcards P)
        as [[P1 _] | (pos' & c' & Hp' & Hn & Hc' & P1 & _)]; [lia|].
      assert (pos' = Z.to_nat pos /\ c' = c) as [-> ->] by lia.
      rewrite Hn. simpl. now rewrite Z.eqb_refl.
    + destruct (nth_error (_cards t) (Z.to_nat pos)) as [c'|] eqn:Hn; [|reflexivity].
      simpl. destruct (c =? c') eqn:Eq; [|reflexivity].
      apply Z.eqb_eq in Eq. subst c'. exfalso. apply P, HS; [lia|].
      right. exists (Z.to_nat pos), c. repeat split; auto. lia.
Qed.

(** The reads of the two views of a trick when none of their cells is
    marked. *)
Lemma trick_views_empty obs (S : nat -> Prop) ln cn lead spl spc :
  marks obs S ->
  dict_get observer_layout ln = Done (mkView (Z.of_nat lead) spl [3]) ->
  dict_get observer_layout cn = Done (mkView (Z.of_nat (lead + 3)) spc [3; 6]) ->
  (lead + 21 <= 66)%nat ->
  (forall i, (lead <= i < lead + 21)%nat -> ~ S i) ->
  (forall q, 0 <= q < 3 -> view_getitem obs ln [q] = Done (PyFloat.of_Z 0)) /\
  (forall pos c, 0 <= pos < 3 -> 0 <= c < 6 ->
     view_getitem obs cn [pos; c] = Done (PyFloat.of_Z 0)).
Proof.
  intros M Hl Hc Hb HS. split.
  - intros q Hq.
    destruct (getitem_1d obs S ln lead spl q M Hl ltac:(lia) Hq) as [[E P] | [E P]];
      [|exact E].
    exfalso. eapply HS; [|exact P]. lia.
  - intros pos c Hpos Hcr.
    destruct (getitem_2d obs S cn (lead + 3) spc pos c M Hc ltac:(lia) Hpos Hcr)
      as [[E P] | [E P]]; [|exact E].
    exfalso. eapply HS; [|exact P]. lia.
Qed.

(** ** What an observer reads *)

(** X13: on every state of a game and for every seat, [set_from] raises
    nothing: it returns the observer with its views unchanged and a tensor
    of the same size that holds zeros and ones only.  The result does not
    depend on what the observer held before: any observer, fresh or used,
    gives the same observation. *)
Theorem set_from_succeeds :
  forall obs s player,
    usable obs -> reachable s -> 0 <= player < _NUM_PLAYERS ->
    exists obs',
      set_from obs s player = Done obs' /\
      dict obs' = dict obs /\ length (tensor obs') = length (tensor obs) /\
      Forall (fun x => x = PyFloat.of_Z 0 \/ x = PyFloat.of_Z 1) (tensor obs') /\
      forall obs2, usable obs2 -> set_from obs2 s player = Done obs'.
Proof.
  intros obs s player Hu Hr Hp. change _NUM_PLAYERS with 3 in Hp.
  destruct (set_from_reachable obs s player Hu Hr Hp) as (obs' & H & M).
  exists obs'. split; [exact H|].
  pose proof (usable_shaped obs Hu) as [Hd Hl].
  split; [rewrite Hd; apply M|]. split; [rewrite Hl; apply M|].
  split; [apply (marks_values obs' _ M)|].
  intros obs2 Hu2.
  destruct (set_from_reachable obs2 s player Hu2 Hr Hp) as (o2 & H2 & M2).
  rewrite H2. f_equal. apply (marks_unique o2 obs' _ M2 M).
Qed.

(** X14: after [set_from] on a state of a game, the view "player" is the
    one-hot encoding of the observing seat, and the view "solo_player"
    always marks seat 0. *)
Theorem observation_player :
  forall obs s player obs',
    usable obs -> reachable s -> 0 <= player < _NUM_PLAYERS ->
    set_from obs s player = Done obs' ->
    forall q, 0 <= q < _NUM_PLAYERS ->
      view_getitem obs' "player"%string [q]
        = Done (PyFloat.of_Z (if q =? player then 1 else 0)) /\
      view_getitem obs' "solo_player"%string [q]
        = Done (PyFloat.of_Z (if q =? 0 then 1 else 0)).
Proof.
  intros obs s player obs' Hu Hr Hp H q Hq. change _NUM_PLAYERS with 3 in *.
  destruct (set_from_reachable obs s player Hu Hr Hp) as (o & H' & M).
  rewrite H in H'. injection H' as <-.
  apply reachable_Inv in Hr.
  assert (Seg := fun i => cells_by_segment s (Z.to_nat player) i ltac:(lia)
                            ltac:(rewrite (inv_locs s Hr); lia) (tricks_in_range s Hr)).
  split.
  - destruct (getitem_1d obs' _ "player"%string 0 3 q M (proj1 layout_views)
                ltac:(lia) Hq) as [[E P] | [E P]]; rewrite E; f_equal.
    + apply Seg in P. replace (q =? player) with true; [reflexivity|].
      symmetry. apply Z.eqb_eq. lia.
    + destruct (q =? player) eqn:Eq; [|reflexivity].
      apply Z.eqb_eq in Eq. exfalso. apply P. left. subst q. lia.
  - destruct (getitem_1d obs' _ "solo_player"%string 21 24 q M) as [[E P] | [E P]];
      [apply layout_views | lia | exact Hq | |]; rewrite E; f_equal.
    + apply Seg in P. replace (q =? 0) with true; [reflexivity|].
      symmetry. apply Z.eqb_eq. lia.
    + destruct (q =? 0) eqn:Eq; [|reflexivity].
      apply Z.eqb_eq in Eq. exfalso. apply P. right. right. left. subst q. reflexivity.
Qed.

(** X15: after [set_from] on a state of a game, the view "private_cards"
    holds at row [p] and column [c] a one when card [c] is in the hand of
    seat [p] and a zero otherwise, for each of the three seats: the
    observation of one player shows the hands of all players, and cards in
    the deck or in a trick are marked for nobody. *)
Theorem observation_shows_all_hands :
  forall obs s player obs',
    usable obs -> reachable s -> 0 <= player < _NUM_PLAYERS ->
    set_from obs s player = Done obs' ->
    forall p c, 0 <= p < _NUM_PLAYERS -> 0 <= c < _NUM_CARDS ->
      view_getitem obs' "private_cards"%string [p; c]
        = Done (PyFloat.of_Z (if existsb (Z.eqb c) (player_cards s p) then 1 else 0)).
Proof.
  intros obs s player obs' Hu Hr Hp H p c Hpr Hc.
  change _NUM_PLAYERS with 3 in *. change _NUM_CARDS with 6 in *.
  destruct (set_from_reachable obs s player Hu Hr Hp) as (o & H' & M).
  rewrite H in H'. injection H' as <-.
  apply reachable_Inv in Hr.
  assert (Seg := fun i => cells_by_segment s (Z.to_nat player) i ltac:(lia)
                            ltac:(rewrite (inv_locs s Hr); lia) (tricks_in_range s Hr)).
  destruct (getitem_2d obs' _ "private_cards"%string 3 21 p c M) as [[E P] | [E P]];
    [apply layout_views | lia | exact Hpr | exact Hc | |]; rewrite E; f_equal.
  - apply Seg in P.
    destruct P as [P | [(_ & p' & c' & L & Hp' & Hc' & Hn & HL & P) | [P | [[P _] | [P _]]]]];
      try lia.
    assert (p' = Z.to_nat p /\ c' = Z.to_nat c) as [-> ->] by lia.
    replace (existsb (Z.eqb c) (player_cards s p)) with true; [reflexivity|].
    symmetry. apply existsb_exists. exists c. split; [|apply Z.eqb_refl].
    apply in_cards_at. exists (Z.to_nat c), L. repeat split; auto; lia.
  - destruct (existsb (Z.eqb c) (player_cards s p)) eqn:Ex; [|reflexivity].
    apply existsb_exists in Ex as (c' & Hin & Eq). apply Z.eqb_eq in Eq. subst c'.
    apply in_cards_at in Hin as (n & L & -> & Hn & HL).
    exfalso. apply P. right. left. exists (Z.to_nat p), n, L.
    repeat split; auto; lia.
Qed.

(** X16: apart from the three cells of the view "player", the
    observation of a state of a game is the same for every observing
    seat. *)
Theorem observation_same_for_all_players :
  forall obs s p1 p2 o1 o2,
    usable obs -> reachable s ->
    0 <= p1 < _NUM_PLAYERS -> 0 <= p2 < _NUM_PLAYERS ->
    set_from obs s p1 = Done o1 -> set_from obs s p2 = Done o2 ->
    skipn 3 (tensor o1) = skipn 3 (tensor o2) /\ dict o1 = dict o2.
Proof.
  intros obs s p1 p2 o1 o2 Hu Hr Hp1 Hp2 H1 H2. change _NUM_PLAYERS with 3 in *.
  destruct (set_from_reachable obs s p1 Hu Hr Hp1) as (o & H' & M1).
  rewrite H1 in H'. injection H' as <-.
  destruct (set_from_reachable obs s p2 Hu Hr Hp2) as (o & H' & M2).
  rewrite H2 in H'. injection H' as <-.
  split; [|now rewrite (proj1 M1), (proj1 M2)].
  destruct M1 as (_ & L1 & C1), M2 as (_ & L2 & C2).
  apply nth_error_ext. intros i. rewrite !nth_error_skipn.
  destruct (Nat.lt_ge_cases (3 + i) 66) as [Hi | Hi].
  - assert (E : cells s (Z.to_nat p1) (3 + i) <-> cells s (Z.to_nat p2) (3 + i)).
    { unfold cells. split; (intros [C | C]; [lia | now right]). }
    destruct (C1 _ Hi) as [[E1 P1] | [E1 P1]], (C2 _ Hi) as [[E2 P2] | [E2 P2]];
      try congruence; tauto.
  - rewrite (proj2 (nth_error_None (tensor o1) (3 + i))),
            (proj2 (nth_error_None (tensor o2) (3 + i))); auto; lia.
Qed.

(** X17: after [set_from] on a state of a game, the views
    "cur_trick_leader" and "cur_trick" describe the last trick of the state
    (the open one, or the one just closed) and "prev_trick_leader" and
    "prev_trick" the trick before it: the leader one-hot, and at row [pos]
    the one-hot of the card played at position [pos], a zero row when that
    position has no card yet.  When the state has no trick, or no trick
    before the last, the views hold zeros. *)
Theorem observation_tricks :
  forall obs s player obs',
    usable obs -> reachable s -> 0 <= player < _NUM_PLAYERS ->
    set_from obs s player = Done obs' ->
    let shows (leader_name cards_name : String.string) (t : SchafkopfTrick) :=
      (forall q, 0 <= q < _NUM_PLAYERS ->
         view_getitem obs' leader_name [q]
           = Done (PyFloat.of_Z (if q =? _leader t then 1 else 0))) /\
      (forall pos c, 0 <= pos < _NUM_PLAYERS -> 0 <= c < _NUM_CARDS ->
         view_getitem obs' cards_name [pos; c]
           = Done (PyFloat.of_Z
                     (if option_Z_eqb c (nth_error (_cards t) (Z.to_nat pos))
                      then 1 else 0))) in
    let blank (leader_name cards_name : String.string) :=
      (forall q, 0 <= q < _NUM_PLAYERS ->
         view_getitem obs' leader_name [q] = Done (PyFloat.of_Z 0)) /\
      (forall pos c, 0 <= pos < _NUM_PLAYERS -> 0 <= c < _NUM_CARDS ->
         view_getitem obs' cards_name [pos; c] = Done (PyFloat.of_Z 0)) in
    (_tricks s = [] ->
       blank "cur_trick_leader"%string "cur_trick"%string /\
       blank "prev_trick_leader"%string "prev_trick"%string) /\
    (forall ts t, _tricks s = ts ++ [t] ->
       shows "cur_trick_leader"%string "cur_trick"%string t) /\
    (forall t, _tricks s = [t] ->
       blank "prev_trick_leader"%string "prev_trick"%string) /\
    (forall ts t' t, _tricks s = ts ++ [t'; t] ->
       shows "prev_trick_leader"%string "prev_trick"%string t').
Proof.
  intros obs s player obs' Hu Hr Hp H shows blank. subst shows blank.
  change _NUM_PLAYERS with 3 in *. change _NUM_CARDS with 6 in *.
  destruct (set_from_reachable obs s player Hu Hr Hp) as (o & H' & M).
  rewrite H in H'. injection H' as <-.
  apply reachable_Inv in Hr. pose proof (tricks_in_range s Hr) as Htr.
  assert (Seg := fun i => cells_by_segment s (Z.to_nat player) i ltac:(lia)
                            ltac:(rewrite (inv_locs s Hr); lia) Htr).
  assert (Hcur : forall i, (24 <= i < 24 + 21)%nat ->
            cells s (Z.to_nat player) i ->
            exists ts t, _tricks s = ts ++ [t] /\ trick_cells 24 27 t i).
  { intros i Hi C. apply Seg in C.
    destruct C as [C | [[C _] | [C | [[_ C] | [C _]]]]]; try lia. exact C. }
  assert (Hprev : forall i, (45 <= i < 45 + 21)%nat ->
            cells s (Z.to_nat player) i ->
            exists ts t' t, _tricks s = ts ++ [t'; t] /\ trick_cells 45 48 t' i).
  { intros i Hi C. apply Seg in C.
    destruct C as [C | [[C _] | [C | [[C _] | [_ C]]]]]; try lia. exact C. }
  destruct layout_views as (_ & _ & _ & V1 & V2 & V3 & V4).
  split; [|split; [|split]].
  - intros E. split.
    + apply (trick_views_empty obs' _ _ _ 24 27 45 M V1 V2 ltac:(lia)).
      intros i Hi C. destruct (Hcur i Hi C) as (ts & t & E' & _).
      rewrite E in E'. destruct ts; discriminate.
    + apply (trick_views_empty obs' _ _ _ 45 48 66 M V3 V4 ltac:(lia)).
      intros i Hi C. destruct (Hprev i Hi C) as (ts & t' & t & E' & _).
      rewrite E in E'. destruct ts; discriminate.
  - intros ts t E. rewrite E in Htr. apply Forall_app in Htr as [_ Ht].
    inversion Ht as [|? ? [Hl Hcs] _]; subst.
    apply (trick_views obs' _ _ _ 24 27 45 t M V1 V2 ltac:(lia) Hl Hcs).
    intros i Hi. split.
    + intros C. destruct (Hcur i Hi C) as (ts' & t0 & E' & T).
      rewrite E in E'. apply app_inj_tail in E' as [_ ->]. exact T.
    + intros T. right. right. right. left. exists ts, t. auto.
  - intros t E.
    apply (trick_views_empty obs' _ _ _ 45 48 66 M V3 V4 ltac:(lia)).
    intros i Hi C. destruct (Hprev i Hi C) as (ts & t' & t0 & E' & _).
    rewrite E in E'. destruct ts as [|? [|? ?]]; discriminate.
  - intros ts t' t E. rewrite E in Htr. apply Forall_app in Htr as [_ Ht].
    inversion Ht as [|? ? [Hl Hcs] _]; subst.
    apply (trick_views obs' _ _ _ 45 48 66 t' M V3 V4 ltac:(lia) Hl Hcs).
    intros i Hi. split.
    + intros C. destruct (Hprev i Hi C) as (ts' & t1 & t0 & E' & T).
      rewrite E in E'.
      change (ts ++ [t'; t]) with (ts ++ [t'] ++ [t]) in E'.
      change (ts' ++ [t1; t0]) with (ts' ++ [t1] ++ [t0]) in E'.
      rewrite !app_assoc in E'. apply app_inj_tail in E' as [E' _].
      apply app_inj_tail in E' as [_ ->]. exact T.
    + intros T. right. right. right. right. exists ts, t', t. auto.
Qed.

(** X18: the observing player is used as an index into a view of three
    cells, in every state: an index below -3 or above 2 makes [set_from]
    raise [IndexError] (so does the terminal marker of the framework), and
    a negative index from -3 to -1 counts from the end, so that it gives the
    observation of the seat three above it (the chance marker -1 gives the
    observation of seat 2). *)
Theorem set_from_player_index :
  forall obs s player,
    usable obs ->
    (player < - _NUM_PLAYERS \/ _NUM_PLAYERS <= player ->
       set_from obs s player = Raise (Py IndexError)) /\
    (- _NUM_PLAYERS <= player < 0 ->
       set_from obs s player = set_from obs s (player + _NUM_PLAYERS)).
Proof.
  intros obs s player Hu. change _NUM_PLAYERS with 3.
  apply usable_shaped in Hu. destruct Hu as [Hd Hl].
  assert (W : forall o i, dict o = observer_layout ->
            view_setitem o "player"%string [i] =
            match PyList.index 3 i with
            | Some k => Done (mkObserver (PyList.set_nth k (PyFloat.of_Z 1) (tensor o))
                                         (dict o))
            | None => Raise (Py IndexError)
            end).
  { intros o i Ho. unfold view_setitem. rewrite Ho.
    change (dict_get observer_layout "player"%string) with (Done (mkView 0 3 [3])).
    rewrite obind_Done. cbv beta. simpl view_shape. simpl view_start.
    unfold view_cells. change (Z.to_nat 3) with 3%nat.
    destruct (PyList.index 3 i) as [k|]; [|reflexivity].
    simpl bind. simpl lift. rewrite obind_Done. cbv beta. simpl fst. simpl snd.
    change (Z.to_nat 1) with 1%nat. simpl fill_range.
    replace (Z.to_nat (0 + (Z.of_nat k * 1 + 0))) with k by lia. reflexivity. }
  split.
  - intros Hp. unfold set_from. rewrite W by exact Hd.
    rewrite (index_none 3 player) by (simpl; lia). reflexivity.
  - intros Hp. unfold set_from. rewrite !W by exact Hd.
    replace (PyList.index 3 (player + 3)) with (PyList.index 3 player); [reflexivity|].
    unfold PyList.index.
    replace ((0 <=? player) && (player <? Z.of_nat 3)) with false
      by (symmetry; apply andb_false_iff; left; apply Z.leb_gt; lia).
    replace ((- Z.of_nat 3 <=? player) && (player <? 0)) with true
      by (symmetry; apply andb_true_iff; split; [apply Z.leb_le | apply Z.ltb_lt]; lia).
    replace ((0 <=? player + 3) && (player + 3 <? Z.of_nat 3)) with true
      by (symmetry; apply andb_true_iff; split; [apply Z.leb_le | apply Z.ltb_lt]; lia).
    f_equal. lia.
Qed.

(** ** The strings of actions and observations *)

Lemma all_num_uint d : all_num (DecimalString.NilEmpty.string_of_uint d) = true.
Proof. induction d; simpl; auto. Qed.

Lemma str_int_num z : all_num (str_int z) = true /\ str_int z <> String.EmptyString.
Proof.
  unfold str_int. destruct z as [|p|p]; simpl Z.to_int.
  - split; [reflexivity | discriminate].
  - unfold DecimalString.NilZero.string_of_int, DecimalString.NilZero.string_of_uint.
    pose proof (DecimalPos.Unsigned.to_uint_nonnil p) as Hn.
    pose proof (all_num_uint (Pos.to_uint p)) as Ha.
    destruct (Pos.to_uint p); try congruence; (split; [exact Ha | discriminate]).
  - unfold DecimalString.NilZero.string_of_int, DecimalString.NilZero.string_of_uint.
    pose proof (all_num_uint (Pos.to_uint p)) as Ha.
    split; [|discriminate]. destruct (Pos.to_uint p); simpl; auto.
Qed.

Lemma str_int_inj z1 z2 : str_int z1 = str_int z2 -> z1 = z2.
Proof.
  unfold str_int. intros H. apply DecimalZ.to_int_inj.
  assert (N : forall z, Z.to_int z <> Decimal.Pos Decimal.Nil /\ Z.to_int z <> Decimal.Neg Decimal.Nil).
  { intros [|p|p]; simpl; split; try discriminate;
      intros [= E]; apply (DecimalPos.Unsigned.to_uint_nonnil p E). }
  assert (E : Some (Z.to_int z1) = Some (Z.to_int z2)).
  { rewrite <- (DecimalString.NilZero.isi (Z.to_int z1)), <- (DecimalString.NilZero.isi (Z.to_int z2)), H;
      auto; apply N. }
  congruence.
Qed.

(** Reading a number off the front of a string. *)
Lemma munch s1 : forall s2 r1 r2,
  all_num s1 = true -> all_num s2 = true -> ends_number r1 -> ends_number r2 ->
  s1 +++ r1 = s2 +++ r2 -> s1 = s2 /\ r1 = r2.
Proof.
  induction s1 as [|c s1 IH]; intros [|c2 s2] r1 r2 H1 H2 E1 E2 H; simpl in *.
  - auto.
  - subst r1. simpl in E1. apply andb_true_iff in H2 as [H2 _]. congruence.
  - subst r2. simpl in E2. apply andb_true_iff in H1 as [H1 _]. congruence.
  - injection H as <- H. apply andb_true_iff in H1 as [_ H1].
    apply andb_true_iff in H2 as [_ H2].
    destruct (IH s2 r1 r2 H1 H2 E1 E2 H) as [-> ->]. auto.
Qed.

Lemma str_int_munch z1 z2 r1 r2 :
  ends_number r1 -> ends_number r2 ->
  str_int z1 +++ r1 = str_int z2 +++ r2 -> z1 = z2 /\ r1 = r2.
Proof.
  intros E1 E2 H.
  destruct (munch _ _ _ _ (proj1 (str_int_num z1)) (proj1 (str_int_num z2)) E1 E2 H)
    as [Hs Hr].
  split; [now apply str_int_inj | exact Hr].
Qed.

Lemma append_assoc (a b c : String.string) : (a +++ b) +++ c = a +++ b +++ c.
Proof. induction a as [|x a IH]; simpl; [reflexivity | now rewrite IH]. Qed.

Lemma append_nil_r (a : String.string) : a +++ ""%string = a.
Proof. induction a as [|x a IH]; simpl; [reflexivity | now rewrite IH]. Qed.

Lemma concat_spaced l : forall x, String.concat " "%string (x :: l) = x +++ spaced l.
Proof.
  induction l as [|y l IH]; intros x.
  - simpl. now rewrite append_nil_r.
  - change (String.concat " "%string (x :: y :: l))
      with (x +++ " "%string +++ String.concat " "%string (y :: l)).
    rewrite IH. reflexivity.
Qed.

Lemma spaced_app l1 l2 : spaced (l1 ++ l2) = spaced l1 +++ spaced l2.
Proof.
  induction l1 as [|x l1 IH]; [reflexivity|].
  simpl. now rewrite IH, append_assoc.
Qed.

Lemma concat_list_text l : String.concat ", "%string (map str_int l) = list_text l.
Proof.
  destruct l as [|x l]; [reflexivity|]. revert x.
  induction l as [|y l IH]; intros x.
  - simpl. now rewrite append_nil_r.
  - change (String.concat ", "%string (map str_int (x :: y :: l)))
      with (str_int x +++ ", "%string +++ String.concat ", "%string (map str_int (y :: l))).
    rewrite IH. reflexivity.
Qed.

Lemma spaced_locs locs : forall j,
  spaced (map (fun cl : Z * CardLocation =>
                 let '(c, loc) := cl in
                 "c"%string +++ str_int c +++ "loc"%string +++ str_int (loc_value loc))
              (PyList.enumerate_from j locs)) = locs_text j locs.
Proof.
  induction locs as [|L t IH]; intros j; [reflexivity|].
  simpl PyList.enumerate_from. simpl map.
  change (locs_text j (L :: t))
    with (" c"%string +++ str_int j +++ "loc"%string +++ str_int (loc_value L)
            +++ locs_text (j + 1) t).
  rewrite <- IH. simpl spaced. now rewrite !append_assoc.
Qed.

Lemma last_two_app2 {A} (l : list A) x y : last_two (l ++ [x; y]) = [x; y].
Proof.
  unfold last_two. rewrite length_app. simpl length.
  replace (length l + 2 - 2)%nat with (length l) by lia.
  rewrite skipn_app, skipn_all, Nat.sub_diag. reflexivity.
Qed.

(** [string_from] never raises, and its text is made of the player, the
    card locations and the last two tricks. *)
Lemma string_from_text obs s player :
  dict obs = observer_layout ->
  string_from obs s player =
    Done (observation_text player (_card_locations s)
            (map trick_shown (last_two (_tricks s)))).
Proof.
  intros Hd. unfold string_from. rewrite Hd.
  change (dict_mem observer_layout "private_cards"%string) with true. cbv iota.
  unfold PyList.enumerate.
  assert (Join : forall extra,
            String.concat " "%string
              (("p"%string +++ str_int player) ::
               map (fun cl : Z * CardLocation =>
                      let '(c, loc) := cl in
                      "c"%string +++ str_int c +++ "loc"%string +++ str_int (loc_value loc))
                   (PyList.enumerate_from 0 (_card_locations s)) ++
               "solo_player0"%string :: extra)
            = "p"%string +++ str_int player +++ locs_text 0 (_card_locations s) +++
              " solo_player0"%string +++ spaced extra).
  { intros extra. rewrite concat_spaced, spaced_app.
    rewrite spaced_locs. simpl. rewrite ?append_assoc. reflexivity. }
  unfold observation_text.
  destruct (_tricks s) as [|t ts _] using rev_ind.
  - change (0 <? length (@nil SchafkopfTrick))%nat with false.
    change (1 <? length (@nil SchafkopfTrick))%nat with false.
    cbv iota. rewrite !obind_Done. cbv beta. f_equal.
    rewrite <- !app_assoc. cbn [app]. apply (Join []).
  - replace (0 <? length (ts ++ [t]))%nat with true
      by (symmetry; apply Nat.ltb_lt; rewrite length_app; simpl; lia).
    rewrite getitem_last. simpl lift. rewrite !obind_Done. cbv beta.
    destruct ts as [|t' ts' _] using rev_ind.
    + change (1 <? length ([] ++ [t]))%nat with false. cbv iota.
      rewrite obind_Done. cbv beta. f_equal.
      rewrite <- !app_assoc. cbn [app]. rewrite (Join [_; _]).
      unfold last_two, trick_shown, trick_text, str_list.
      cbn [spaced fst snd rev map app length Nat.sub skipn].
      rewrite !concat_list_text.
      repeat progress (simpl; rewrite ?append_assoc, ?append_nil_r). reflexivity.
    + replace (1 <? length ((ts' ++ [t']) ++ [t]))%nat with true
        by (symmetry; apply Nat.ltb_lt; rewrite !length_app; simpl; lia).
      rewrite <- (app_assoc ts'). cbn [app]. rewrite getitem_last2.
      simpl lift. rewrite !obind_Done. cbv beta. f_equal.
      rewrite <- !app_assoc. cbn [app]. rewrite (Join [_; _; _; _]).
      rewrite last_two_app2.
      unfold trick_shown, trick_text, str_list.
      cbn [spaced fst snd rev map app].
      rewrite !concat_list_text.
      repeat progress (simpl; rewrite ?append_assoc, ?append_nil_r). reflexivity.
Qed.

#[local] Arguments str_int : simpl never.

Lemma append_inj_l (a x y : String.string) : a +++ x = a +++ y -> x = y.
Proof. induction a as [|c a IH]; simpl; intros H; [exact H | injection H as H; auto]. Qed.

Lemma str_int_head z :
  exists c s, str_int z = String.String c s /\ is_num_char c = true.
Proof.
  destruct (str_int_num z) as [Ha Hn].
  destruct (str_int z) as [|c s]; [congruence|].
  exists c, s. split; [reflexivity|]. simpl in Ha. now apply andb_true_iff in Ha.
Qed.

Lemma tail_text_ends l X : ends_number (tail_text l +++ "]"%string +++ X).
Proof. destruct l; reflexivity. Qed.

Lemma tail_text_inj l1 : forall l2 X1 X2,
  tail_text l1 +++ "]"%string +++ X1 = tail_text l2 +++ "]"%string +++ X2 ->
  l1 = l2 /\ X1 = X2.
Proof.
  induction l1 as [|x l1 IH]; intros [|y l2] X1 X2 H; simpl in H; try discriminate.
  - injection H as H. auto.
  - injection H as H. rewrite !append_assoc in H.
    apply str_int_munch in H as [-> H]; try apply tail_text_ends.
    destruct (IH l2 X1 X2 H) as [-> ->]. auto.
Qed.

Lemma list_text_inj l1 l2 X1 X2 :
  list_text l1 +++ "]"%string +++ X1 = list_text l2 +++ "]"%string +++ X2 ->
  l1 = l2 /\ X1 = X2.
Proof.
  destruct l1 as [|x l1], l2 as [|y l2]; unfold list_text; intros H.
  - simpl in H. injection H as H. auto.
  - exfalso. destruct (str_int_head y) as (c & s & E & Hc). rewrite E in H.
    simpl in H. injection H as Hc' _. subst c. discriminate Hc.
  - exfalso. destruct (str_int_head x) as (c & s & E & Hc). rewrite E in H.
    simpl in H. injection H as Hc' _. subst c. discriminate Hc.
  - rewrite !append_assoc in H.
    apply str_int_munch in H as [-> H]; try apply tail_text_ends.
    destruct (tail_text_inj l1 l2 X1 X2 H) as [-> ->]. auto.
Qed.

Lemma trick_text_inj ln cn t1 t2 Y1 Y2 :
  trick_text ln cn t1 +++ Y1 = trick_text ln cn t2 +++ Y2 -> t1 = t2 /\ Y1 = Y2.
Proof.
  destruct t1 as [l1 c1], t2 as [l2 c2]. unfold trick_text. simpl fst. simpl snd.
  rewrite !append_assoc. intros H.
  apply append_inj_l, append_inj_l in H.
  apply str_int_munch in H as [-> H]; try reflexivity.
  apply append_inj_l, append_inj_l, append_inj_l in H.
  destruct (list_text_inj c1 c2 Y1 Y2 H) as [-> ->]. auto.
Qed.

Lemma locs_text_ends j l X : ends_number (locs_text j l +++ " solo_player0"%string +++ X).
Proof. destruct l; reflexivity. Qed.

Lemma locs_text_inj l1 : forall l2 j X1 X2,
  locs_text j l1 +++ " solo_player0"%string +++ X1
    = locs_text j l2 +++ " solo_player0"%string +++ X2 ->
  l1 = l2 /\ X1 = X2.
Proof.
  induction l1 as [|L1 l1 IH]; intros [|L2 l2] j X1 X2 H; simpl in H; try discriminate.
  - apply (append_inj_l " solo_player0"%string) in H. auto.
  - injection H as H. rewrite !append_assoc in H.
    apply str_int_munch in H as [_ H]; try reflexivity.
    simpl in H. injection H as H. rewrite !append_assoc in H.
    apply str_int_munch in H as [HL H]; try apply locs_text_ends.
    apply loc_value_inj in HL. subst L2.
    destruct (IH l2 (j + 1) X1 X2 H) as [-> ->]. auto.
Qed.

Lemma observation_text_inj p1 l1 sh1 p2 l2 sh2 :
  (length sh1 <= 2)%nat -> (length sh2 <= 2)%nat ->
  observation_text p1 l1 sh1 = observation_text p2 l2 sh2 ->
  p1 = p2 /\ l1 = l2 /\ sh1 = sh2.
Proof.
  intros H1 H2 H. unfold observation_text in H.
  apply (append_inj_l "p"%string) in H.
  apply str_int_munch in H as [-> H]; try apply locs_text_ends.
  apply locs_text_inj in H as [-> H].
  split; [reflexivity|]. split; [reflexivity|].
  destruct sh1 as [|a1 [|b1 [|? ?]]]; simpl in H1; try lia;
    destruct sh2 as [|a2 [|b2 [|? ?]]]; simpl in H2; try lia;
    cbn [rev app] in H; try reflexivity;
    try (unfold trick_text in H; simpl in H; discriminate).
  - rewrite <- (append_nil_r (trick_text _ _ a1)),
            <- (append_nil_r (trick_text _ _ a2)) in H.
    apply trick_text_inj in H as [-> _]. reflexivity.
  - exfalso. rewrite <- (append_nil_r (trick_text _ _ a1)) in H.
    apply trick_text_inj in H as [_ H]. unfold trick_text in H. simpl in H. discriminate.
  - exfalso. rewrite <- (append_nil_r (trick_text _ _ a2)) in H.
    apply trick_text_inj in H as [_ H]. unfold trick_text in H. simpl in H. discriminate.
  - apply trick_text_inj in H as [-> H].
    rewrite <- (append_nil_r (trick_text _ _ a1)),
            <- (append_nil_r (trick_text _ _ a2)) in H.
    apply trick_text_inj in H as [-> _]. reflexivity.
Qed.

Lemma length_last_two {A} (l : list A) : (length (last_two l) <= 2)%nat.
Proof. unfold last_two. rewrite length_skipn. lia. Qed.

(** X19: the string of an action names the actor and the action without
    ambiguity: two calls of [_action_to_string] give the same string only
    for the same player and the same action; a chance action reads "D"
    followed by the card and a player's action "P", the seat, ":A" and the
    card. *)
Theorem action_to_string_injective :
  forall p1 a1 p2 a2,
    _action_to_string p1 a1 = _action_to_string p2 a2 -> p1 = p2 /\ a1 = a2.
Proof.
  intros p1 a1 p2 a2. unfold _action_to_string.
  destruct (p1 =? PlayerId.CHANCE) eqn:E1, (p2 =? PlayerId.CHANCE) eqn:E2; simpl;
    intros H; try discriminate.
  - apply Z.eqb_eq in E1, E2. injection H as H.
    apply str_int_inj in H. split; congruence.
  - injection H as H.
    apply str_int_munch in H as [-> H]; [|reflexivity..].
    injection H as H. apply str_int_inj in H. auto.
Qed.

(** X20: [string_from] never raises, in any state, and its string tells
    exactly the observing player, the location of every card and the leader
    and cards of the last two tricks: two calls give the same string if and
    only if they agree on these.  So the string of one player tells the
    hands of all players. *)
Theorem string_from_determines :
  forall obs s1 p1 s2 p2,
    usable obs ->
    (exists text, string_from obs s1 p1 = Done text) /\
    (string_from obs s1 p1 = string_from obs s2 p2 <->
       p1 = p2 /\ _card_locations s1 = _card_locations s2 /\
       map trick_shown (last_two (_tricks s1)) = map trick_shown (last_two (_tricks s2))).
Proof.
  intros obs s1 p1 s2 p2 Hu. apply usable_shaped in Hu. destruct Hu as [Hd _].
  rewrite !(string_from_text obs _ _ Hd). split; [eexists; reflexivity|]. split.
  - intros H.
    assert (E : forall a b : String.string, Done a = Done b -> a = b)
      by (intros a b Hab; congruence).
    apply E, observation_text_inj in H; auto;
      rewrite length_map; apply length_last_two.
  - intros (-> & -> & ->). reflexivity.
Qed.

(** ** The single suit, and the sizes of the hands *)

Lemma filter_all {A} (f : A -> bool) (l : list A) :
  (forall x, In x l -> f x = true) -> filter f l = l.
Proof.
  induction l as [|x l IH]; intros H; simpl; [reflexivity|].
  rewrite (H x (or_introl eq_refl)). f_equal. apply IH. intros y Hy. apply H. now right.
Qed.

(** X21: the deck has a single suit, so the rule to follow suit never
    excludes a card: in every state of a game where a player is to move, the
    legal actions are the whole hand of that player, and the hand is not
    empty. *)
Theorem follow_suit_is_vacuous :
  forall s, reachable s -> _phase s = Play -> is_terminal s = false ->
    (forall c, 0 <= c < _NUM_CARDS -> CardSuit c = 0) /\
    legal_actions s = Ok (player_cards s (_next_player s)) /\
    player_cards s (_next_player s) <> [].
Proof.
  intros s Hr HP Hgo. unfold is_terminal in Hgo.
  assert (Hsuit : forall c, 0 <= c < _NUM_CARDS -> CardSuit c = 0).
  { intros c Hc. unfold CardSuit. change _NUM_CARDS with 6 in Hc.
    change _NUM_RANKS with 6. apply Z.div_small. lia. }
  split; [exact Hsuit|].
  pose proof (reachable_Inv s Hr) as HI.
  assert (Hall : legal_actions s = Ok (player_cards s (_next_player s))).
  { pose proof (inv_phase s HI) as HPI. rewrite HP in HPI.
    pose proof (pi_next s HPI Hgo) as Hx.
    unfold legal_actions, is_terminal. rewrite Hgo.
    unfold _legal_actions, current_player. rewrite Hgo, HP. simpl phase_eqb. cbv iota.
    replace (0 <=? _next_player s) with true by (symmetry; apply Z.leb_le; lia).
    simpl bind.
    destruct (_num_cards_played s =? 0); [reflexivity|].
    destruct (_num_cards_played s mod _NUM_PLAYERS =? 0) eqn:Hmod; [reflexivity|].
    apply Z.eqb_neq in Hmod.
    destruct (pi_shape s HPI) as (cl & op & zp & Hts & _ & Hop & Hn & _).
    destruct op as [|t [|t2 op]]; [| |contradiction].
    { exfalso. apply Hmod. change (length (played [])) with 0%nat in Hn. zmod. }
    rewrite (last_trick_app s cl t Hts). simpl bind.
    assert (Ht : In t (_tricks s)) by (rewrite Hts; apply in_or_app; right; now left).
    pose proof (proj1 (Forall_forall _ _) (pi_wf s HPI) t Ht) as (_ & c0 & rest & Hc0 & Hled).
    pose proof (proj1 (Forall_forall _ _) (tricks_in_range s HI) t Ht) as (_ & Hcs).
    assert (H0 : 0 <= c0 < 6).
    { apply (proj1 (Forall_forall _ _) Hcs). rewrite Hc0. now left. }
    rewrite Hled, (Hsuit c0 H0).
    rewrite filter_all.
    - now destruct (0 <? length (player_cards s (_next_player s)))%nat.
    - intros c Hc. apply in_cards_at in Hc as (n & L & -> & Hn' & _).
      assert (n < length (_card_locations s))%nat by (apply nth_error_Some; congruence).
      rewrite (inv_locs s HI) in *. simpl. apply Z.eqb_eq, Hsuit.
      change _NUM_CARDS with 6. lia. }
  split; [exact Hall|].
  destruct (legal_actions_nonempty s HI (reachable_HandInv s Hr) Hgo)
    as (acts & a & Hl & Hin & _).
  rewrite Hall in Hl. injection Hl as <-. intros E. rewrite E in Hin. destruct Hin.
Qed.

(** X22: during play the number of cards in a hand is known from the
    play count and the turn: every seat holds two cards, less one for each
    closed trick, less one if the seat has already played into the open
    trick; while a player is to move, the three hands together hold the
    cards not yet played. *)
Theorem hand_sizes :
  forall s, reachable s -> _phase s = Play ->
    (forall p, 0 <= p < _NUM_PLAYERS ->
       Z.of_nat (length (player_cards s p)) = hand_size s p /\ 0 <= hand_size s p <= 2) /\
    (is_terminal s = false ->
     Z.of_nat (length (player_cards s 0)) + Z.of_nat (length (player_cards s 1)) +
     Z.of_nat (length (player_cards s 2)) = _NUM_CARDS - _num_cards_played s).
Proof.
  intros s Hr HP. pose proof (reachable_HandInv s Hr HP) as HH.
  pose proof (reachable_Inv s Hr) as HI.
  pose proof (play_count_bound s HI) as HB.
  split.
  - intros p Hp. change _NUM_PLAYERS with 3 in Hp.
    pose proof (HH p Hp) as E. split; [exact E|].
    rewrite <- E. split; [lia|].
    pose proof (length_cards_at_from 0 p (_card_locations s)) as B.
    unfold hand_size in E. unfold player_cards in E. rewrite cards_at_from_0 in E.
    change _NUM_PLAYERS with 3 in E.
    destruct (played_in_open s p);
      assert (0 <= _num_cards_played s / 3) by (apply Z.div_pos; lia);
      unfold player_cards; rewrite cards_at_from_0; lia.
  - intros Hgo. unfold is_terminal in Hgo.
    pose proof (inv_phase s HI) as HPI. rewrite HP in HPI.
    pose proof (pi_next s HPI Hgo) as Hx.
    rewrite (HH 0), (HH 1), (HH 2) by lia.
    unfold hand_size, played_in_open. change _NUM_PLAYERS with 3. change _NUM_CARDS with 6.
    pose proof (Z.div_mod (_num_cards_played s) 3 ltac:(lia)) as Hdm.
    pose proof (Z.mod_pos_bound (_num_cards_played s) 3 ltac:(lia)) as Hm.
    assert (Dx : _next_player s = 0 \/ _next_player s = 1 \/ _next_player s = 2) by lia.
    assert (Dr : _num_cards_played s mod 3 = 0 \/ _num_cards_played s mod 3 = 1 \/
                 _num_cards_played s mod 3 = 2) by lia.
    destruct Dx as [Ex | [Ex | Ex]], Dr as [Er | [Er | Er]]; rewrite Ex, Er in *;
      repeat match goal with
             | |- context [if ?b then _ else _] =>
                 let v := eval vm_compute in b in change b with v; cbv iota
             end; lia.
Qed.

(** ** Actions that are not legal *)

(** X23: [_apply_action] does not check that its action is legal: in
    every state of a game, in the Deal phase, during play and even after the
    last trick, it accepts every card index from 0 to 5 without raising,
    whoever holds the card; outside the Deal phase the card goes to the
    trick and the play count grows by one.  Legality is left to the
    caller. *)
Theorem apply_action_accepts_any_card :
  forall s card, reachable s -> 0 <= card < _NUM_CARDS ->
    exists s',
      _apply_action s card = Ok s' /\
      (_phase s = Play ->
         PyList.getitem (_card_locations s') card = Ok Trick /\
         _num_cards_played s' = _num_cards_played s + 1).
Proof.
  intros s card Hr Hc. change _NUM_CARDS with 6 in Hc.
  pose proof (reachable_Inv s Hr) as HI. pose proof (inv_phase s HI) as H.
  pose proof (inv_locs s HI) as Hlocs.
  assert (Hlt : (Z.to_nat card < length (_card_locations s))%nat) by lia.
  rewrite <- (Z2Nat.id card) by lia. set (n := Z.to_nat card) in *.
  assert (Hget : forall s1 : SchafkopfState,
            _card_locations s1 = PyList.set_nth n Trick (_card_locations s) ->
            PyList.getitem (_card_locations s1) (Z.of_nat n) = Ok Trick).
  { intros s1 E. apply getitem_of_nat. rewrite E. now apply nth_error_set_nth_eq. }
  destruct (_phase s) eqn:HP; [| |destruct H].
  - (* Deal *)
    unfold _apply_action. rewrite HP. simpl phase_eqb. cbv iota.
    unfold _apply_deal_action.
    destruct (CardLocation_of_value
                (Z.of_nat (length (_legal_deal_actions s)) mod _NUM_PLAYERS))
      as (L & HL & _).
    { pose proof (Z.mod_pos_bound (Z.of_nat (length (_legal_deal_actions s)))
                    _NUM_PLAYERS eq_refl). change _NUM_PLAYERS with 3 in *. lia. }
    rewrite HL. simpl bind. rewrite setitem_of_nat by exact Hlt. simpl bind.
    destruct (length (_legal_deal_actions s) =? 1)%nat; eexists;
      (split; [reflexivity | discriminate]).
  - (* Play *)
    assert (Hnd : Play <> Deal) by discriminate. rewrite <- HP in Hnd.
    destruct (Z.eq_dec (_num_cards_played s mod _NUM_PLAYERS) 0) as [Hmod | Hmod].
    + rewrite (apply_lead s n Hnd Hmod Hlt). eexists. split; [reflexivity|].
      intros _. split; [now apply Hget | reflexivity].
    + destruct (pi_shape s H) as (cl & op & zp & Hts & Hcl & Hop & Hn & Hzp & _).
      destruct op as [|t [|t2 op]]; [| |contradiction].
      { exfalso. apply Hmod. change (length (played [])) with 0%nat in Hn. zmod. }
      rewrite played_single in Hn. destruct Hop as [Hlen _].
      destruct (Z.eq_dec ((_num_cards_played s + 1) mod _NUM_PLAYERS) 0) as [Hmod1 | Hmod1].
      * assert (H2 : length (_cards t) = 2%nat) by zmod.
        assert (Hclosed : closed (play_card t (Z.of_nat n))).
        { unfold closed, play_card. simpl. rewrite length_app. simpl. lia. }
        destruct (winner_seat _ Hclosed) as (w & Hw & Hw3).
        destruct (nth_error (_points s) w) as [old|] eqn:Hold.
        2:{ apply nth_error_None in Hold. rewrite (inv_points s HI) in Hold. lia. }
        rewrite (apply_follow_close s cl t n w old Hnd Hmod Hmod1 Hts Hlt Hw Hold).
        cbv zeta.
        destruct (_num_cards_played s + 1 =? _NUM_CARDS).
        -- rewrite fill_returns.
           ++ eexists. split; [reflexivity|].
              intros _. split; [now apply Hget | reflexivity].
           ++ simpl. rewrite length_set_nth. apply (inv_points s HI).
           ++ simpl. apply (inv_returns s HI).
           ++ simpl. rewrite (inv_max s HI). discriminate.
        -- eexists. split; [reflexivity|].
           intros _. split; [now apply Hget | reflexivity].
      * rewrite (apply_follow_open s cl t n Hnd Hmod Hmod1 Hts Hlt).
        eexists. split; [reflexivity|].
        intros _. split; [now apply Hget | reflexivity].
Qed.

(** ** Who takes a trick, and who gets the higher return *)

Lemma NoDup_trick s t : Inv s -> In t (_tricks s) -> NoDup (_cards t).
Proof.
  intros HI Ht. pose proof (inv_phase s HI) as H.
  destruct (_phase s) eqn:HP; [| |destruct H].
  - rewrite (di_tricks s H) in Ht. destruct Ht.
  - pose proof (NoDup_played s HI HP) as N.
    apply in_split in Ht as (l1 & l2 & E). rewrite E in N.
    change (t :: l2) with ([t] ++ l2) in N.
    rewrite !played_app, played_single in N.
    apply NoDup_app_remove_l, NoDup_app_remove_r in N. exact N.
Qed.

(** X24: with the single suit, the highest card takes the trick: in
    every trick of three cards of a state of a game, [winner] returns the
    seat that played the card with the greatest number (Ober over Unter over
    Ass over Zehn over Koenig over Neun). *)
Theorem highest_card_wins :
  forall s t, reachable s -> In t (_tricks s) -> closed t ->
    exists i c,
      nth_error (_cards t) i = Some c /\
      winner t = Ok (player_at_position t (Z.of_nat i)) /\
      0 <= player_at_position t (Z.of_nat i) < _NUM_PLAYERS /\
      forall d, In d (_cards t) -> d <= c.
Proof.
  intros s t Hr Ht Hcl. pose proof (reachable_Inv s Hr) as HI.
  pose proof (NoDup_trick s t HI Ht) as Hnd.
  pose proof (proj1 (Forall_forall _ _) (tricks_in_range s HI) t Ht) as (_ & Hrange).
  unfold closed in Hcl.
  destruct (_cards t) as [|c0 [|c1 [|c2 [|]]]] eqn:E; try discriminate.
  destruct (winner_closed t c0 c1 c2 E Hnd) as (i & c & Hi & Hw & _ & Hmax).
  exists i, c. rewrite E in Hi. split; [exact Hi|]. split; [exact Hw|].
  split; [apply Z.mod_pos_bound; reflexivity|].
  assert (Hsame : forall x, In x [c0; c1; c2] -> CardSuit x = 0 /\ CardRank x = x).
  { intros x Hx. pose proof (proj1 (Forall_forall _ _) Hrange x Hx) as Bx.
    cbv beta in Bx. unfold CardSuit, CardRank. change _NUM_RANKS with 6.
    split; [apply Z.div_small | apply Z.mod_small]; lia. }
  intros d Hd. apply In_nth_error in Hd as (j & Hj).
  destruct (Nat.eq_dec j i) as [-> | Hne]; [rewrite Hi in Hj; injection Hj as <-; lia|].
  rewrite <- E in Hj.
  assert (Hd : In d [c0; c1; c2]) by (rewrite <- E; eapply nth_error_In; eauto).
  assert (Hc : In c [c0; c1; c2]) by (eapply nth_error_In; eauto).
  assert (H0 : In c0 [c0; c1; c2]) by now left.
  pose proof (Hmax j d Hj Hne) as Hlt.
  destruct (Hsame d Hd) as [Sd Rd], (Hsame c Hc) as [_ Rc], (Hsame c0 H0) as [S0 _].
  rewrite Sd, S0, Rd, Rc in Hlt. specialize (Hlt eq_refl). lia.
Qed.

Lemma expected_return_monotone a b :
  0 <= a <= 30 -> 0 <= b <= 30 ->
  (PrimFloat.leb (PyFloat.of_Z a) (PyFloat.of_Z b) = true ->
   PrimFloat.leb (expected_return 30 (PyFloat.of_Z a))
                 (expected_return 30 (PyFloat.of_Z b)) = true) /\
  (PrimFloat.ltb (expected_return 30 (PyFloat.of_Z a))
                 (expected_return 30 (PyFloat.of_Z b)) = true ->
   PrimFloat.ltb (PyFloat.of_Z a) (PyFloat.of_Z b) = true).
Proof.
  intros Ha Hb.
  assert (C : forallb (fun x => forallb (fun y =>
                implb (PrimFloat.leb (PyFloat.of_Z x) (PyFloat.of_Z y))
                      (PrimFloat.leb (expected_return 30 (PyFloat.of_Z x))
                                     (expected_return 30 (PyFloat.of_Z y))) &&
                implb (PrimFloat.ltb (expected_return 30 (PyFloat.of_Z x))
                                     (expected_return 30 (PyFloat.of_Z y)))
                      (PrimFloat.ltb (PyFloat.of_Z x) (PyFloat.of_Z y)))
                (PyList.range 31)) (PyList.range 31) = true)
    by (vm_compute; reflexivity).
  rewrite forallb_forall in C. specialize (C a (in_range 31 a ltac:(lia))).
  rewrite forallb_forall in C. specialize (C b (in_range 31 b ltac:(lia))).
  apply andb_true_iff in C as [C1 C2]. split; intros H; rewrite H in *; auto.
Qed.

(** X25: at the end of a game the returns rank the players as their
    points do: a seat with at most the points of another seat gets at most
    its return, and a seat with a strictly higher return has strictly more
    points. *)
Theorem returns_follow_points :
  forall s, reachable s -> is_terminal s = true ->
    forall i j pi pj,
      nth_error (_points s) i = Some pi -> nth_error (_points s) j = Some pj ->
      exists ri rj,
        nth_error (returns s) i = Some ri /\ nth_error (returns s) j = Some rj /\
        (PrimFloat.leb pi pj = true -> PrimFloat.leb ri rj = true) /\
        (PrimFloat.ltb ri rj = true -> PrimFloat.ltb pi pj = true).
Proof.
  intros s Hr Hgo i j pi pj Hi Hj. unfold is_terminal in Hgo.
  pose proof (reachable_Inv s Hr) as HI.
  destruct (terminal_points s HI Hgo) as (_ & _ & _ & _ & _ & _ & _ & _ & _ & Hret).
  destruct (points_int s HI) as (zp & Hzp & Hb).
  unfold returns. rewrite Hret.
  exists (expected_return 30 pi), (expected_return 30 pj).
  split; [now apply map_nth_error|]. split; [now apply map_nth_error|].
  rewrite Hzp in Hi, Hj. rewrite nth_error_map in Hi, Hj.
  destruct (nth_error zp i) as [zi|] eqn:Ei; [|discriminate].
  destruct (nth_error zp j) as [zj|] eqn:Ej; [|discriminate].
  injection Hi as <-. injection Hj as <-.
  apply expected_return_monotone.
  - apply (proj1 (Forall_forall _ _) Hb). eapply nth_error_In; eauto.
  - apply (proj1 (Forall_forall _ _) Hb). eapply nth_error_In; eauto.
Qed.

(** * The further properties on the example game *)

Lemma usable_observer0 : usable observer0.
Proof. apply (usable_init unit unit tt None). vm_compute. reflexivity. Qed.

Lemma no_deadlock_witness :
  reachable played2 /\ is_terminal played2 = false /\
  exists acts a,
    legal_actions played2 = Ok acts /\ In a acts /\
    exists s', _apply_action played2 a = Ok s'.
Proof.
  split; [exact reachable_played2|]. split; [reflexivity|].
  destruct (no_deadlock played2 reachable_played2 eq_refl) as (acts & a & H1 & H2 & _ & H3).
  exists acts, a. auto.
Defined.

Lemma game_length_witness :
  play_from SchafkopfState_init [0; 1; 2; 3; 4; 5; 3; 2] = Ok played2 /\
  Z.of_nat (length [0; 1; 2; 3; 4; 5; 3; 2]) = actions_applied played2 /\
  0 <= _num_cards_played played2 <= max_game_length _GAME_INFO.
Proof.
  assert (H : play_from SchafkopfState_init [0; 1; 2; 3; 4; 5; 3; 2] = Ok played2)
    by (vm_compute; reflexivity).
  split; [exact H|].
  destruct (game_length [0; 1; 2; 3; 4; 5; 3; 2] played2 H) as (H1 & _ & H2 & _).
  split; [exact H1 | exact H2].
Defined.

Lemma every_game_can_finish_witness :
  reachable played2 /\
  exists acts s', play_from played2 acts = Ok s' /\ is_terminal s' = true.
Proof.
  split; [exact reachable_played2|].
  exact (proj1 (every_game_can_finish played2 reachable_played2)).
Defined.

Lemma current_player_by_phase_witness :
  reachable played2 /\ _phase played2 <> GameOver.
Proof.
  split; [exact reachable_played2|].
  exact (proj1 (current_player_by_phase played2 reachable_played2)).
Defined.

Lemma turn_order_witness :
  reachable played2 /\ step played2 4 played3 /\ _phase played2 = Play /\
  (_num_cards_played played2 + 1) mod _NUM_PLAYERS = 0 /\
  is_terminal played3 = false /\
  exists t w, last_trick played3 = Ok t /\ winner t = Ok w /\ current_player played3 = w.
Proof.
  split; [exact reachable_played2|]. split; [exact step_played3|].
  split; [reflexivity|]. split; [reflexivity|]. split; [reflexivity|].
  exact (proj2 (turn_order played2 4 played3 reachable_played2 step_played3 eq_refl)
               eq_refl eq_refl).
Defined.

Lemma returns_within_utility_bounds_witness :
  reachable played5 /\ is_terminal played5 = false /\
  returns played5 = repeat (PyFloat.of_Z 0) 3.
Proof.
  split; [exact reachable_played5|]. split; [reflexivity|].
  destruct (returns_within_utility_bounds played5 reachable_played5) as (_ & H & _).
  exact (H eq_refl).
Defined.

Lemma points_never_decrease_witness :
  reachable played2 /\ step played2 4 played3 /\
  nth_error (_points played2) 2 = Some (PyFloat.of_Z 0) /\
  nth_error (_points played3) 2 = Some (PyFloat.of_Z 23) /\
  PrimFloat.leb (PyFloat.of_Z 0) (PyFloat.of_Z 23) = true.
Proof.
  assert (H2 : nth_error (_points played2) 2 = Some (PyFloat.of_Z 0)) by reflexivity.
  assert (H3 : nth_error (_points played3) 2 = Some (PyFloat.of_Z 23)) by reflexivity.
  split; [exact reachable_played2|]. split; [exact step_played3|].
  split; [exact H2|]. split; [exact H3|].
  exact (proj1 (points_never_decrease played2 4 played3 reachable_played2 step_played3
                  2%nat _ _ H2 H3)).
Defined.

Lemma tricks_well_formed_witness :
  reachable played5 /\
  Z.of_nat (length (_tricks played5)) = (_num_cards_played played5 + 2) / _NUM_PLAYERS /\
  NoDup (played (_tricks played5)).
Proof.
  split; [exact reachable_played5|].
  destruct (tricks_well_formed played5 reachable_played5) as (_ & _ & H1 & H2 & _).
  split; [exact H1 | exact H2].
Defined.

Lemma legal_actions_ascending_witness :
  _legal_actions played2 2 = Ok [1; 4] /\ StronglySorted Z.lt [1; 4].
Proof.
  assert (H : _legal_actions played2 2 = Ok [1; 4]) by reflexivity.
  split; [exact H|].
  exact (proj1 (legal_actions_ascending played2 2 [1; 4] H)).
Defined.

Lemma chance_outcomes_domain_witness :
  reachable dealt3 /\ _phase dealt3 = Deal /\
  exists outcomes,
    chance_outcomes dealt3 = Ok outcomes /\ outcomes <> [] /\
    map fst outcomes = _legal_deal_actions dealt3.
Proof.
  split; [exact reachable_dealt3|]. split; [reflexivity|].
  destruct (proj1 (chance_outcomes_domain dealt3 reachable_dealt3) eq_refl)
    as (outcomes & H1 & H2 & H3 & _).
  exists outcomes. auto.
Defined.

Lemma apply_action_out_of_range_witness :
  Z.of_nat (length (_card_locations dealt3)) <= 6 /\
  _apply_action dealt3 6 = Err IndexError.
Proof.
  assert (H : Z.of_nat (length (_card_locations dealt3)) <= 6)
    by (vm_compute; discriminate).
  split; [exact H|].
  exact (apply_action_out_of_range dealt3 6 (or_intror H)).
Defined.

Lemma deal_order_decides_hands_witness :
  Permutation [3; 1; 5; 0; 2; 4] (PyList.range _NUM_CARDS) /\
  exists s',
    play_from SchafkopfState_init [3; 1; 5; 0; 2; 4] = Ok s' /\
    player_cards s' 0 = [0; 3] /\ player_cards s' 2 = [1; 2] /\
    player_cards s' 1 = [4; 5].
Proof.
  assert (H : Permutation [3; 1; 5; 0; 2; 4] (PyList.range _NUM_CARDS)).
  { change (PyList.range _NUM_CARDS) with [0; 1; 2; 3; 4; 5].
    apply Permutation_sym.
    apply (Permutation_cons_app [3; 1; 5] [2; 4] 0).
    apply (Permutation_cons_app [3] [5; 2; 4] 1).
    apply (Permutation_cons_app [3; 5] [4] 2).
    apply (Permutation_cons_app [] [5; 4] 3).
    apply (Permutation_cons_app [5] [] 4).
    apply Permutation_refl. }
  split; [exact H|].
  destruct (deal_order_decides_hands 3 1 5 0 2 4 H) as (s' & H0 & H1 & H2 & H3).
  exists s'. auto.
Defined.

Lemma set_from_succeeds_witness :
  usable observer0 /\ reachable played5 /\ 0 <= 1 < _NUM_PLAYERS /\
  exists obs',
    set_from observer0 played5 1 = Done obs' /\ dict obs' = dict observer0 /\
    length (tensor obs') = length (tensor observer0).
Proof.
  assert (Hp : 0 <= 1 < _NUM_PLAYERS) by (split; [discriminate | reflexivity]).
  split; [exact usable_observer0|]. split; [exact reachable_played5|].
  split; [exact Hp|].
  destruct (set_from_succeeds observer0 played5 1 usable_observer0 reachable_played5 Hp)
    as (obs' & H1 & H2 & H3 & _).
  exists obs'. auto.
Defined.

Lemma observation_player_witness :
  usable observer0 /\ reachable played5 /\ 0 <= 1 < _NUM_PLAYERS /\
  set_from observer0 played5 1 = Done observed5 /\
  view_getitem observed5 "player"%string [1] = Done (PyFloat.of_Z 1) /\
  view_getitem observed5 "solo_player"%string [1] = Done (PyFloat.of_Z 0).
Proof.
  assert (Hp : 0 <= 1 < _NUM_PLAYERS) by (split; [discriminate | reflexivity]).
  assert (H : set_from observer0 played5 1 = Done observed5) by (vm_compute; reflexivity).
  split; [exact usable_observer0|]. split; [exact reachable_played5|].
  split; [exact Hp|]. split; [exact H|].
  exact (observation_player observer0 played5 1 observed5 usable_observer0
           reachable_played5 Hp H 1 Hp).
Defined.

Lemma observation_shows_all_hands_witness :
  usable observer0 /\ reachable played2 /\ 0 <= 2 < _NUM_PLAYERS /\
  exists obs',
    set_from observer0 played2 2 = Done obs' /\
    view_getitem obs' "private_cards"%string [0; 0] = Done (PyFloat.of_Z 1) /\
    view_getitem obs' "private_cards"%string [1; 5] = Done (PyFloat.of_Z 1) /\
    view_getitem obs' "private_cards"%string [2; 5] = Done (PyFloat.of_Z 0).
Proof.
  assert (Hp : 0 <= 2 < _NUM_PLAYERS) by (split; [discriminate | reflexivity]).
  assert (H0 : 0 <= 0 < _NUM_PLAYERS) by (split; [discriminate | reflexivity]).
  assert (H1 : 0 <= 1 < _NUM_PLAYERS) by (split; [discriminate | reflexivity]).
  assert (C0 : 0 <= 0 < _NUM_CARDS) by (split; [discriminate | reflexivity]).
  assert (C5 : 0 <= 5 < _NUM_CARDS) by (split; [discriminate | reflexivity]).
  split; [exact usable_observer0|]. split; [exact reachable_played2|].
  split; [exact Hp|].
  destruct (set_from_reachable observer0 played2 2 usable_observer0 reachable_played2
              ltac:(lia)) as (obs' & H & _).
  exists obs'. split; [exact H|].
  pose proof (observation_shows_all_hands observer0 played2 2 obs' usable_observer0
                reachable_played2 Hp H) as S.
  split; [exact (S 0 0 H0 C0)|]. split; [exact (S 1 5 H1 C5) | exact (S 2 5 Hp C5)].
Defined.

Lemma observation_same_for_all_players_witness :
  usable observer0 /\ reachable played5 /\
  set_from observer0 played5 1 = Done observed5 /\
  set_from observer0 played5 2 = Done observed5_seat2 /\
  skipn 3 (tensor observed5) = skipn 3 (tensor observed5_seat2).
Proof.
  assert (H1 : set_from observer0 played5 1 = Done observed5) by (vm_compute; reflexivity).
  assert (H2 : set_from observer0 played5 2 = Done observed5_seat2)
    by (vm_compute; reflexivity).
  split; [exact usable_observer0|]. split; [exact reachable_played5|].
  split; [exact H1|]. split; [exact H2|].
  exact (proj1 (observation_same_for_all_players observer0 played5 1 2
                  observed5 observed5_seat2 usable_observer0 reachable_played5
                  ltac:(split; [discriminate | reflexivity])
                  ltac:(split; [discriminate | reflexivity]) H1 H2)).
Defined.

Lemma observation_tricks_witness :
  usable observer0 /\ reachable played5 /\ 0 <= 1 < _NUM_PLAYERS /\
  set_from observer0 played5 1 = Done observed5 /\
  view_getitem observed5 "cur_trick_leader"%string [2] = Done (PyFloat.of_Z 1) /\
  view_getitem observed5 "cur_trick"%string [1; 0] = Done (PyFloat.of_Z 1) /\
  view_getitem observed5 "cur_trick"%string [2; 5] = Done (PyFloat.of_Z 0) /\
  view_getitem observed5 "prev_trick"%string [2; 4] = Done (PyFloat.of_Z 1).
Proof.
  assert (Hp : 0 <= 1 < _NUM_PLAYERS) by (split; [discriminate | reflexivity]).
  assert (P2 : 0 <= 2 < _NUM_PLAYERS) by (split; [discriminate | reflexivity]).
  assert (C0 : 0 <= 0 < _NUM_CARDS) by (split; [discriminate | reflexivity]).
  assert (C4 : 0 <= 4 < _NUM_CARDS) by (split; [discriminate | reflexivity]).
  assert (C5 : 0 <= 5 < _NUM_CARDS) by (split; [discriminate | reflexivity]).
  assert (H : set_from observer0 played5 1 = Done observed5) by (vm_compute; reflexivity).
  split; [exact usable_observer0|]. split; [exact reachable_played5|].
  split; [exact Hp|]. split; [exact H|].
  destruct (observation_tricks observer0 played5 1 observed5 usable_observer0
              reachable_played5 Hp H) as (_ & Hcur & _ & Hprev).
  destruct (Hcur [mkTrick [3; 2; 4] 0 (Some 0)] (mkTrick [1; 0] 2 (Some 0)) eq_refl)
    as (L & C).
  destruct (Hprev [] (mkTrick [3; 2; 4] 0 (Some 0)) (mkTrick [1; 0] 2 (Some 0)) eq_refl)
    as (_ & C').
  split; [exact (L 2 P2)|]. split; [exact (C 1 0 Hp C0)|].
  split; [exact (C 2 5 P2 C5) | exact (C' 2 4 P2 C4)].
Defined.

Lemma set_from_player_index_witness :
  usable observer0 /\ PlayerId.TERMINAL < - _NUM_PLAYERS /\
  set_from observer0 dealt3 PlayerId.TERMINAL = Raise (Py IndexError) /\
  set_from observer0 dealt3 PlayerId.CHANCE = set_from observer0 dealt3 2.
Proof.
  assert (H : PlayerId.TERMINAL < - _NUM_PLAYERS) by reflexivity.
  split; [exact usable_observer0|]. split; [exact H|].
  destruct (set_from_player_index observer0 dealt3 PlayerId.TERMINAL usable_observer0)
    as (E & _).
  destruct (set_from_player_index observer0 dealt3 PlayerId.CHANCE usable_observer0)
    as (_ & W).
  split; [exact (E (or_introl H))|].
  exact (W ltac:(split; [discriminate | reflexivity])).
Defined.

Lemma action_to_string_injective_witness :
  _action_to_string 2 5 = "P2:A5"%string /\
  _action_to_string 2 5 = _action_to_string 2 5 /\ 2 = 2 /\ 5 = 5.
Proof.
  split; [reflexivity|]. split; [reflexivity|].
  exact (action_to_string_injective 2 5 2 5 eq_refl).
Defined.

Lemma string_from_determines_witness :
  usable observer0 /\
  exists text, string_from observer0 played5 1 = Done text.
Proof.
  split; [exact usable_observer0|].
  exact (proj1 (string_from_determines observer0 played5 1 played5 1 usable_observer0)).
Defined.

Lemma follow_suit_is_vacuous_witness :
  reachable played2 /\ _phase played2 = Play /\ is_terminal played2 = false /\
  legal_actions played2 = Ok (player_cards played2 (_next_player played2)).
Proof.
  split; [exact reachable_played2|]. split; [reflexivity|]. split; [reflexivity|].
  destruct (follow_suit_is_vacuous played2 reachable_played2 eq_refl eq_refl)
    as (_ & H & _).
  exact H.
Defined.

Lemma hand_sizes_witness :
  reachable played2 /\ _phase played2 = Play /\
  Z.of_nat (length (player_cards played2 0)) = hand_size played2 0 /\
  Z.of_nat (length (player_cards played2 2)) = hand_size played2 2.
Proof.
  split; [exact reachable_played2|]. split; [reflexivity|].
  destruct (hand_sizes played2 reachable_played2 eq_refl) as (H & _).
  split.
  - exact (proj1 (H 0 ltac:(split; [discriminate | reflexivity]))).
  - exact (proj1 (H 2 ltac:(split; [discriminate | reflexivity]))).
Defined.

Lemma apply_action_accepts_any_card_witness :
  reachable played2 /\ 0 <= 0 < _NUM_CARDS /\
  legal_actions played2 = Ok [1; 4] /\
  exists s', _apply_action played2 0 = Ok s'.
Proof.
  assert (Hc : 0 <= 0 < _NUM_CARDS) by (split; [discriminate | reflexivity]).
  split; [exact reachable_played2|]. split; [exact Hc|]. split; [reflexivity|].
  destruct (apply_action_accepts_any_card played2 0 reachable_played2 Hc) as (s' & H & _).
  exists s'. exact H.
Defined.

Lemma highest_card_wins_witness :
  reachable played5 /\
  In (mkTrick [3; 2; 4] 0 (Some 0)) (_tricks played5) /\
  closed (mkTrick [3; 2; 4] 0 (Some 0)) /\
  exists i c,
    nth_error [3; 2; 4] i = Some c /\
    winner (mkTrick [3; 2; 4] 0 (Some 0))
      = Ok (player_at_position (mkTrick [3; 2; 4] 0 (Some 0)) (Z.of_nat i)) /\
    forall d, In d [3; 2; 4] -> d <= c.
Proof.
  assert (Hin : In (mkTrick [3; 2; 4] 0 (Some 0)) (_tricks played5)) by (now left).
  split; [exact reachable_played5|]. split; [exact Hin|]. split; [reflexivity|].
  destruct (highest_card_wins played5 (mkTrick [3; 2; 4] 0 (Some 0))
              reachable_played5 Hin eq_refl) as (i & c & H1 & H2 & _ & H3).
  exists i, c. auto.
Defined.

Lemma returns_follow_points_witness :
  reachable played6 /\ is_terminal played6 = true /\
  nth_error (_points played6) 0 = Some (PyFloat.of_Z 0) /\
  nth_error (_points played6) 2 = Some (PyFloat.of_Z 23) /\
  exists ri rj,
    nth_error (returns played6) 0 = Some ri /\ nth_error (returns played6) 2 = Some rj /\
    (PrimFloat.leb (PyFloat.of_Z 0) (PyFloat.of_Z 23) = true -> PrimFloat.leb ri rj = true).
Proof.
  assert (Hr : reachable played6).
  { apply (reachable_after [0; 1; 2; 3; 4; 5; 3; 2; 4; 1; 0; 5]). vm_compute. reflexivity. }
  assert (H0 : nth_error (_points played6) 0 = Some (PyFloat.of_Z 0)) by reflexivity.
  assert (H2 : nth_error (_points played6) 2 = Some (PyFloat.of_Z 23)) by reflexivity.
  split; [exact Hr|]. split; [reflexivity|]. split; [exact H0|]. split; [exact H2|].
  destruct (returns_follow_points played6 Hr eq_refl 0%nat 2%nat _ _ H0 H2)
    as (ri & rj & R1 & R2 & R3 & _).
  exists ri, rj. auto.
Defined.
